(** * RudderStackTracker: a model of the tracking coordinator

    The development embeds [RudderStackTracker] (the singleton that loads the
    analytics SDK, reports page views, patches [history.pushState] and
    [history.replaceState], and keeps click listeners on every element that
    carries [data-rudderstack-id]) as state-passing functions over an explicit
    browser state, and proves the properties of the specification about it.

    What belongs to the browser or to the SDK and not to the repository (the
    URL parser, [JSON.parse], the [NodeList] interface object, the depth of the
    call stack) is gathered in the class [Platform]; the build-time
    environment is the record [Env].  Console output is not part of the
    state: no operation reads it back. *)

From Stdlib Require Import Ascii.
From stdpp Require Import base option list gmap sets strings pretty.

Set Warnings "-register-all,-clear-no-such-hyp".
Local Open Scope string_scope.
Local Open Scope list_scope.
Local Open Scope nat_scope.

(** ** JavaScript values that travel in event payloads *)

Inductive JSValue : Type :=
| JNull
| JBool (b : bool)
| JNumber (literal : string)
| JString (s : string)
| JArray (items : list JSValue)
| JObject (fields : gmap string JSValue).

(** A plain object used as a property bag. *)
Abbreviation Props := (gmap string JSValue).

(** The characters of a string as one-character strings. *)
Fixpoint chars (s : string) : list JSValue :=
  match s with
  | EmptyString => []
  | String c rest => JString (String c EmptyString) :: chars rest
  end.

Definition indexed (l : list JSValue) : Props :=
  list_to_map (imap (fun i v => (pretty i, v)) l).

(** The own enumerable properties that [{...v}] copies out of [v]. *)
Definition own_props (v : JSValue) : Props :=
  match v with
  | JObject fields => fields
  | JArray items => indexed items
  | JString s => indexed (chars s)
  | JNull | JBool _ | JNumber _ => ∅
  end.

(** [{...a, ...b}]: the keys of [b] win. *)
Definition spread (a b : Props) : Props := b ∪ a.

(** [s || d] on a value that is a string, [null] or [undefined]. *)
Definition or_else (s : option string) (d : string) : string :=
  match s with
  | Some (String c r) => String c r
  | Some EmptyString | None => d
  end.

(** [!s] on such a value. *)
Definition falsy (s : option string) : bool :=
  match s with
  | Some (String _ _) => false
  | Some EmptyString | None => true
  end.

(** ** The build-time environment ([process.env]) *)

Record Env : Type := {
  RUDDERSTACK_KEY : option string;
  RUDDERSTACK_URL : option string;
  RUDDERSTACK_GAME_ID : option string;
  RUDDERSTACK_PROJECT_ID : option string;
  (** [RUDDERSTACK_TRACKED_PAGES] after [split(',')] and [trim]; empty when
      the variable is not set. *)
  trackedPages : list string
}.

(** [process.env.X || null] *)
Definition or_null (s : option string) : JSValue :=
  match s with
  | Some (String c r) => JString (String c r)
  | Some EmptyString | None => JNull
  end.

Definition common_properties (env : Env) : Props :=
  <["project_id" := or_null (RUDDERSTACK_PROJECT_ID env)]>
    (<["game_id" := or_null (RUDDERSTACK_GAME_ID env)]> ∅).

(** ** What the browser provides *)

Inductive Error : Type := TypeError | SyntaxError | RangeError.

Class Platform : Type := {
  (** [new URL(url).pathname]; [None] when the constructor throws. *)
  URL_pathname : string -> option string;
  (** [JSON.parse(text)]; [None] when it throws a [SyntaxError]. *)
  JSON_parse : string -> option JSValue;
  (** [NodeList.prototype.constructor.call(Object.create(NodeList.prototype), el)]:
      the elements the resulting list iterates over, or [None] when the call
      throws (WebIDL makes the interface object of an interface without a
      constructor operation throw a [TypeError]). *)
  NodeList_of : nat -> option (list nat);
  (** Nested calls the engine follows before a [RangeError]. *)
  stack_depth : nat
}.

(** ** The document *)

(** DOM nodes are identified by a number; two nodes with the same attributes
    are still two nodes. *)
Abbreviation elem := nat (only parsing).

Inductive Node : Type :=
| ElementNode (id : elem) (attributes : gmap string string) (childNodes : list Node)
| TextNode (data : string).

Definition tracking_attr : string := "data-rudderstack-id".

Definition hasAttribute (attributes : gmap string string) (name : string) : bool :=
  bool_decide (is_Some (attributes !! name)).

Definition getAttribute (attributes : gmap string string) (name : string) : option string :=
  attributes !! name.

(** The elements of the subtree rooted at [n], [n] included, that carry the
    tracking attribute, in document order. *)
Fixpoint matching (n : Node) : list elem :=
  match n with
  | TextNode _ => []
  | ElementNode id attributes kids =>
      (if hasAttribute attributes tracking_attr then [id] else [])
      ++ (fix go (l : list Node) : list elem :=
            match l with
            | [] => []
            | k :: rest => matching k ++ go rest
            end) kids
  end.

(** [element.querySelectorAll("[data-rudderstack-id]")]: descendants only. *)
Definition querySelectorAll (n : Node) : list elem :=
  match n with
  | TextNode _ => []
  | ElementNode _ _ kids => flat_map matching kids
  end.

(** [document.querySelectorAll("[data-rudderstack-id]")] *)
Definition document_querySelectorAll (doc : list Node) : list elem :=
  flat_map matching doc.

(** ** The state of the page *)

(** The two [history] methods the tracker replaces. *)
Inductive HistOp : Type := PushState | ReplaceState.

(** A function stored in [history.pushState] or [history.replaceState]: the
    browser's own, the result of [f.bind(history)], or the arrow function
    installed by [setupPageTracking] in the activation [closure]. *)
Inductive HistFn : Type :=
| Native (op : HistOp)
| Bound (target : HistFn)
| Patched (op : HistOp) (closure : nat).

Record Tracker : Type := {
  trackedElements : gset nat;
  mutationObserver : option nat;
  originalPushState : option HistFn;
  originalReplaceState : option HistFn;
  popstateHandler : option nat;
  isInitialized : bool
}.

(** What the constructor leaves in a new object. *)
Definition new_tracker : Tracker :=
  {| trackedElements := ∅; mutationObserver := None;
     originalPushState := None; originalReplaceState := None;
     popstateHandler := None; isInitialized := false |}.

(** The variables [currentUrl] and [isTracking] of one activation of
    [setupPageTracking], shared by the three closures it creates and by the
    timers they start, and the [this] those arrow functions capture. *)
Record NavEnv : Type := {
  nav_this : nat;
  currentUrl : string;
  isTracking : bool
}.

Record Location : Type := {
  href : string;
  search : string;
  hash : string
}.

(** A pending [setTimeout(() => { this.trackPageView(newUrl, source);
    isTracking = true; }, 100)]. *)
Record Timer : Type := {
  due : nat;
  timer_env : nat;
  timer_url : string;
  timer_source : string
}.

(** Calls into the analytics SDK, each on the [analyticsInstance] of a tracker. *)
Inductive SdkCall : Type :=
| Load (tracker : nat) (key url : string)
| Page (tracker : nat) (properties : Props)
| Track (tracker : nat) (event : string) (properties : Props).

Record World : Type := mkWorld {
  (** [RudderStackTracker.instance] *)
  instance : option nat;
  (** [RudderStackTracker.isPageTrackingSetup] *)
  isPageTrackingSetup : bool;
  (** identity of the next object to be allocated *)
  next_id : nat;
  (** the [RudderStackTracker] objects created so far *)
  trackers : gmap nat Tracker;
  (** closure variables of the activations of [setupPageTracking] *)
  navEnvs : gmap nat NavEnv;
  (** [window.location] *)
  location : Location;
  (** [document.title] *)
  document_title : string;
  (** [document.referrer] *)
  document_referrer : string;
  (** children of the document *)
  document : list Node;
  (** [history.pushState] *)
  history_pushState : HistFn;
  (** [history.replaceState] *)
  history_replaceState : HistFn;
  (** [popstate] listeners of [window], by closure *)
  popstateListeners : list nat;
  (** [click] listeners of each element, by owning tracker *)
  clickListeners : gmap nat (list nat);
  (** connected [MutationObserver]s and the tracker of their callback *)
  observers : gmap nat nat;
  (** milliseconds on the clock of the event loop *)
  now : nat;
  (** pending [setTimeout] callbacks, oldest first *)
  timers : list Timer;
  (** calls received by the analytics SDK, oldest first *)
  sdkCalls : list SdkCall;
  (** callbacks handed to [ready]: tracker and promise *)
  readyCallbacks : list (nat * nat);
  (** settled promises of [initialize] *)
  promises : gmap nat bool
}.

(** Field updates: [upd_x f w] is [w] with [x] replaced by [f (x w)]. *)
Definition upd_instance (f : option nat -> option nat) (w : World) : World :=
  mkWorld (f (instance w)) (isPageTrackingSetup w) (next_id w) (trackers w) (navEnvs w)
    (location w) (document_title w) (document_referrer w) (document w)
    (history_pushState w) (history_replaceState w) (popstateListeners w)
    (clickListeners w) (observers w) (now w) (timers w) (sdkCalls w) (readyCallbacks w)
    (promises w).
Definition upd_isPageTrackingSetup (f : bool -> bool) (w : World) : World :=
  mkWorld (instance w) (f (isPageTrackingSetup w)) (next_id w) (trackers w) (navEnvs w)
    (location w) (document_title w) (document_referrer w) (document w)
    (history_pushState w) (history_replaceState w) (popstateListeners w)
    (clickListeners w) (observers w) (now w) (timers w) (sdkCalls w) (readyCallbacks w)
    (promises w).
Definition upd_next_id (f : nat -> nat) (w : World) : World :=
  mkWorld (instance w) (isPageTrackingSetup w) (f (next_id w)) (trackers w) (navEnvs w)
    (location w) (document_title w) (document_referrer w) (document w)
    (history_pushState w) (history_replaceState w) (popstateListeners w)
    (clickListeners w) (observers w) (now w) (timers w) (sdkCalls w) (readyCallbacks w)
    (promises w).
Definition upd_trackers (f : gmap nat Tracker -> gmap nat Tracker) (w : World) : World :=
  mkWorld (instance w) (isPageTrackingSetup w) (next_id w) (f (trackers w)) (navEnvs w)
    (location w) (document_title w) (document_referrer w) (document w)
    (history_pushState w) (history_replaceState w) (popstateListeners w)
    (clickListeners w) (observers w) (now w) (timers w) (sdkCalls w) (readyCallbacks w)
    (promises w).
Definition upd_navEnvs (f : gmap nat NavEnv -> gmap nat NavEnv) (w : World) : World :=
  mkWorld (instance w) (isPageTrackingSetup w) (next_id w) (trackers w) (f (navEnvs w))
    (location w) (document_title w) (document_referrer w) (document w)
    (history_pushState w) (history_replaceState w) (popstateListeners w)
    (clickListeners w) (observers w) (now w) (timers w) (sdkCalls w) (readyCallbacks w)
    (promises w).
Definition upd_location (f : Location -> Location) (w : World) : World :=
  mkWorld (instance w) (isPageTrackingSetup w) (next_id w) (trackers w) (navEnvs w)
    (f (location w)) (document_title w) (document_referrer w) (document w)
    (history_pushState w) (history_replaceState w) (popstateListeners w)
    (clickListeners w) (observers w) (now w) (timers w) (sdkCalls w) (readyCallbacks w)
    (promises w).
Definition upd_document_title (f : string -> string) (w : World) : World :=
  mkWorld (instance w) (isPageTrackingSetup w) (next_id w) (trackers w) (navEnvs w)
    (location w) (f (document_title w)) (document_referrer w) (document w)
    (history_pushState w) (history_replaceState w) (popstateListeners w)
    (clickListeners w) (observers w) (now w) (timers w) (sdkCalls w) (readyCallbacks w)
    (promises w).
Definition upd_document_referrer (f : string -> string) (w : World) : World :=
  mkWorld (instance w) (isPageTrackingSetup w) (next_id w) (trackers w) (navEnvs w)
    (location w) (document_title w) (f (document_referrer w)) (document w)
    (history_pushState w) (history_replaceState w) (popstateListeners w)
    (clickListeners w) (observers w) (now w) (timers w) (sdkCalls w) (readyCallbacks w)
    (promises w).
Definition upd_document (f : list Node -> list Node) (w : World) : World :=
  mkWorld (instance w) (isPageTrackingSetup w) (next_id w) (trackers w) (navEnvs w)
    (location w) (document_title w) (document_referrer w) (f (document w))
    (history_pushState w) (history_replaceState w) (popstateListeners w)
    (clickListeners w) (observers w) (now w) (timers w) (sdkCalls w) (readyCallbacks w)
    (promises w).
Definition upd_history_pushState (f : HistFn -> HistFn) (w : World) : World :=
  mkWorld (instance w) (isPageTrackingSetup w) (next_id w) (trackers w) (navEnvs w)
    (location w) (document_title w) (document_referrer w) (document w)
    (f (history_pushState w)) (history_replaceState w) (popstateListeners w)
    (clickListeners w) (observers w) (now w) (timers w) (sdkCalls w) (readyCallbacks w)
    (promises w).
Definition upd_history_replaceState (f : HistFn -> HistFn) (w : World) : World :=
  mkWorld (instance w) (isPageTrackingSetup w) (next_id w) (trackers w) (navEnvs w)
    (location w) (document_title w) (document_referrer w) (document w)
    (history_pushState w) (f (history_replaceState w)) (popstateListeners w)
    (clickListeners w) (observers w) (now w) (timers w) (sdkCalls w) (readyCallbacks w)
    (promises w).
Definition upd_popstateListeners (f : list nat -> list nat) (w : World) : World :=
  mkWorld (instance w) (isPageTrackingSetup w) (next_id w) (trackers w) (navEnvs w)
    (location w) (document_title w) (document_referrer w) (document w)
    (history_pushState w) (history_replaceState w) (f (popstateListeners w))
    (clickListeners w) (observers w) (now w) (timers w) (sdkCalls w) (readyCallbacks w)
    (promises w).
Definition upd_clickListeners (f : gmap nat (list nat) -> gmap nat (list nat)) (w : World) : World :=
  mkWorld (instance w) (isPageTrackingSetup w) (next_id w) (trackers w) (navEnvs w)
    (location w) (document_title w) (document_referrer w) (document w)
    (history_pushState w) (history_replaceState w) (popstateListeners w)
    (f (clickListeners w)) (observers w) (now w) (timers w) (sdkCalls w)
    (readyCallbacks w) (promises w).
Definition upd_observers (f : gmap nat nat -> gmap nat nat) (w : World) : World :=
  mkWorld (instance w) (isPageTrackingSetup w) (next_id w) (trackers w) (navEnvs w)
    (location w) (document_title w) (document_referrer w) (document w)
    (history_pushState w) (history_replaceState w) (popstateListeners w)
    (clickListeners w) (f (observers w)) (now w) (timers w) (sdkCalls w)
    (readyCallbacks w) (promises w).
Definition upd_now (f : nat -> nat) (w : World) : World :=
  mkWorld (instance w) (isPageTrackingSetup w) (next_id w) (trackers w) (navEnvs w)
    (location w) (document_title w) (document_referrer w) (document w)
    (history_pushState w) (history_replaceState w) (popstateListeners w)
    (clickListeners w) (observers w) (f (now w)) (timers w) (sdkCalls w)
    (readyCallbacks w) (promises w).
Definition upd_timers (f : list Timer -> list Timer) (w : World) : World :=
  mkWorld (instance w) (isPageTrackingSetup w) (next_id w) (trackers w) (navEnvs w)
    (location w) (document_title w) (document_referrer w) (document w)
    (history_pushState w) (history_replaceState w) (popstateListeners w)
    (clickListeners w) (observers w) (now w) (f (timers w)) (sdkCalls w)
    (readyCallbacks w) (promises w).
Definition upd_sdkCalls (f : list SdkCall -> list SdkCall) (w : World) : World :=
  mkWorld (instance w) (isPageTrackingSetup w) (next_id w) (trackers w) (navEnvs w)
    (location w) (document_title w) (document_referrer w) (document w)
    (history_pushState w) (history_replaceState w) (popstateListeners w)
    (clickListeners w) (observers w) (now w) (timers w) (f (sdkCalls w))
    (readyCallbacks w) (promises w).
Definition upd_readyCallbacks (f : list (nat * nat) -> list (nat * nat)) (w : World) : World :=
  mkWorld (instance w) (isPageTrackingSetup w) (next_id w) (trackers w) (navEnvs w)
    (location w) (document_title w) (document_referrer w) (document w)
    (history_pushState w) (history_replaceState w) (popstateListeners w)
    (clickListeners w) (observers w) (now w) (timers w) (sdkCalls w)
    (f (readyCallbacks w)) (promises w).
Definition upd_promises (f : gmap nat bool -> gmap nat bool) (w : World) : World :=
  mkWorld (instance w) (isPageTrackingSetup w) (next_id w) (trackers w) (navEnvs w)
    (location w) (document_title w) (document_referrer w) (document w)
    (history_pushState w) (history_replaceState w) (popstateListeners w)
    (clickListeners w) (observers w) (now w) (timers w) (sdkCalls w) (readyCallbacks w)
    (f (promises w)).

(** [simpl] and [cbn] carry an update out. *)
Arguments upd_instance f w /.
Arguments upd_isPageTrackingSetup f w /.
Arguments upd_next_id f w /.
Arguments upd_trackers f w /.
Arguments upd_navEnvs f w /.
Arguments upd_location f w /.
Arguments upd_document_title f w /.
Arguments upd_document_referrer f w /.
Arguments upd_document f w /.
Arguments upd_history_pushState f w /.
Arguments upd_history_replaceState f w /.
Arguments upd_popstateListeners f w /.
Arguments upd_clickListeners f w /.
Arguments upd_observers f w /.
Arguments upd_now f w /.
Arguments upd_timers f w /.
Arguments upd_sdkCalls f w /.
Arguments upd_readyCallbacks f w /.
Arguments upd_promises f w /.

(** Reading through a reference: an identity that was never written denotes
    the object as its constructor leaves it. *)
Definition tracker_of (w : World) (i : nat) : Tracker :=
  default new_tracker (trackers w !! i).

Definition navEnv_of (w : World) (c : nat) : NavEnv :=
  default {| nav_this := 0; currentUrl := ""; isTracking := true |} (navEnvs w !! c).

Definition listeners_of (w : World) (e : nat) : list nat :=
  default [] (clickListeners w !! e).

Definition upd_tracker (i : nat) (f : Tracker -> Tracker) (w : World) : World :=
  upd_trackers (insert i (f (tracker_of w i))) w.

(** Assignments to the fields of a tracker. *)
Definition with_trackedElements (s : gset nat) (t : Tracker) : Tracker :=
  {| trackedElements := s; mutationObserver := mutationObserver t;
     originalPushState := originalPushState t;
     originalReplaceState := originalReplaceState t;
     popstateHandler := popstateHandler t; isInitialized := isInitialized t |}.
Definition with_mutationObserver (o : option nat) (t : Tracker) : Tracker :=
  {| trackedElements := trackedElements t; mutationObserver := o;
     originalPushState := originalPushState t;
     originalReplaceState := originalReplaceState t;
     popstateHandler := popstateHandler t; isInitialized := isInitialized t |}.
Definition with_originalPushState (f : option HistFn) (t : Tracker) : Tracker :=
  {| trackedElements := trackedElements t; mutationObserver := mutationObserver t;
     originalPushState := f;
     originalReplaceState := originalReplaceState t;
     popstateHandler := popstateHandler t; isInitialized := isInitialized t |}.
Definition with_originalReplaceState (f : option HistFn) (t : Tracker) : Tracker :=
  {| trackedElements := trackedElements t; mutationObserver := mutationObserver t;
     originalPushState := originalPushState t;
     originalReplaceState := f;
     popstateHandler := popstateHandler t; isInitialized := isInitialized t |}.
Definition with_popstateHandler (h : option nat) (t : Tracker) : Tracker :=
  {| trackedElements := trackedElements t; mutationObserver := mutationObserver t;
     originalPushState := originalPushState t;
     originalReplaceState := originalReplaceState t;
     popstateHandler := h; isInitialized := isInitialized t |}.
Definition with_isInitialized (b : bool) (t : Tracker) : Tracker :=
  {| trackedElements := trackedElements t; mutationObserver := mutationObserver t;
     originalPushState := originalPushState t;
     originalReplaceState := originalReplaceState t;
     popstateHandler := popstateHandler t; isInitialized := b |}.

Arguments with_trackedElements _ t /.
Arguments with_mutationObserver _ t /.
Arguments with_originalPushState _ t /.
Arguments with_originalReplaceState _ t /.
Arguments with_popstateHandler _ t /.
Arguments with_isInitialized _ t /.

(** ** Computations that change the page and may throw *)

Inductive Result (A : Type) : Type :=
| Ok (a : A) (w : World)
| Throw (e : Error) (w : World).
Arguments Ok {A} a w.
Arguments Throw {A} e w.

Definition M (A : Type) : Type := World -> Result A.

Definition ret {A} (a : A) : M A := fun w => Ok a w.
Definition throw {A} (e : Error) : M A := fun w => Throw e w.
Definition bind {A B} (m : M A) (k : A -> M B) : M B :=
  fun w => match m w with
           | Ok a w' => k a w'
           | Throw e w' => Throw e w'
           end.
Definition modify (f : World -> World) : M unit := fun w => Ok tt (f w).
Definition gets {A} (f : World -> A) : M A := fun w => Ok (f w) w.

Notation "'let*' x ':=' m 'in' k" := (bind m (fun x => k))
  (at level 10, x name, m at level 100, k at level 200).
Notation "m '>>' k" := (bind m (fun _ => k))
  (at level 90, right associativity).

(** [l.forEach(f)] *)
Fixpoint forEach {A} (l : list A) (f : A -> M unit) : M unit :=
  match l with
  | [] => ret tt
  | x :: rest => f x >> forEach rest f
  end.

(** The state a computation ends in, whether it returned or threw. *)
Definition world_of {A} (r : Result A) : World :=
  match r with Ok _ w => w | Throw _ w => w end.

(** Callbacks the event loop runs one after the other, each as a task of its
    own: an exception ends its task and is reported, the next task still
    runs.  The reported errors are returned oldest first. *)
Fixpoint run_tasks (tasks : list (M unit)) (w : World) : list Error * World :=
  match tasks with
  | [] => ([], w)
  | t :: rest =>
      match t w with
      | Ok _ w' => run_tasks rest w'
      | Throw e w' => let '(errs, w'') := run_tasks rest w' in (e :: errs, w'')
      end
  end.

(** What a [MutationObserver] reports.  The nodes of a record are given as
    they are when the callback runs. *)
Inductive MutationRecord : Type :=
| ChildListRecord (addedNodes : list Node)
| AttributesRecord (attributeName : string) (target : nat)
    (target_attributes : gmap string string)
| CharacterDataRecord.

(** What the promise returned by [initialize] is when the call returns:
    already resolved, or waiting for the SDK. *)
Inductive InitOutcome : Type :=
| Settled (value : bool)
| Pending (promise : nat).

(** ** The tracker *)

Section Tracker.
Context {P : Platform} (env : Env).

(** *** [trackPageView] *)

(** [pathname.match(/^\/[^\/]+$/)]: a slash, then one or more characters
    none of which is a slash, up to the end of the string. *)
Fixpoint no_slash (s : string) : bool :=
  match s with
  | EmptyString => true
  | String c rest => negb (Ascii.eqb c "/"%char) && no_slash rest
  end.

Definition matches_single_segment (pathname : string) : bool :=
  match pathname with
  | String c (String d rest) => Ascii.eqb c "/"%char && no_slash (String d rest)
  | _ => false
  end.

(** [pathname.startsWith("/")] *)
Definition startsWith_slash (pathname : string) : bool :=
  match pathname with
  | String c _ => Ascii.eqb c "/"%char
  | EmptyString => false
  end.

Definition includes (x : string) (l : list string) : bool :=
  existsb (String.eqb x) l.

Definition shouldTrack (pathname : string) : bool :=
  existsb
    (fun page =>
       if String.eqb page pathname then true
       else if startsWith_slash pathname && matches_single_segment pathname
            then includes "/[slug]" (trackedPages env)
            else false)
    (trackedPages env).

Definition page_properties (w : World) (url pathname source : string) : Props :=
  spread
    (<["source" := JString source]>
       (<["hash" := JString (hash (location w))]>
          (<["search" := JString (search (location w))]>
             (<["path" := JString pathname]>
                (<["referrer" := JString (document_referrer w)]>
                   (<["title" := JString (document_title w)]>
                      (<["url" := JString url]> ∅)))))))
    (common_properties env).

Definition sdk_call (c : SdkCall) : M unit :=
  modify (upd_sdkCalls (fun calls => calls ++ [c])).

(** Every call in the source passes both arguments, so their default values
    never apply. *)
Definition trackPageView (this : nat) (url source : string) : M unit :=
  match URL_pathname url with
  | None => throw TypeError
  | Some pathname =>
      if shouldTrack pathname
      then fun w => sdk_call (Page this (page_properties w url pathname source)) w
      else ret tt
  end.

(** *** [attachTrackingToElements] *)

(** [element.addEventListener("click", this.trackingEvent)]: the DOM keeps
    one entry per callback. *)
Definition addEventListener (e this : nat) : M unit :=
  modify (fun w =>
    if bool_decide (this ∈ listeners_of w e) then w
    else upd_clickListeners (insert e (listeners_of w e ++ [this])) w).

Definition removeEventListener (e this : nat) : M unit :=
  modify (fun w =>
    upd_clickListeners
      (insert e (filter (fun l => l ≠ this) (listeners_of w e))) w).

Definition attachTrackingToElements (this : nat) (elements : list nat) : M unit :=
  forEach elements (fun e =>
    let* tracked := gets (fun w => trackedElements (tracker_of w this)) in
    if bool_decide (e ∈ tracked) then ret tt
    else
      addEventListener e this >>
      modify (upd_tracker this (fun t => with_trackedElements ({[e]} ∪ trackedElements t) t))).

(** *** [setupPageTracking] *)

(** The body shared by the two replaced [history] methods, after the call of
    the original, and by the [popstate] handler. *)
Definition navHook (closure : nat) (source : string) : M unit :=
  fun w =>
    let newUrl := href (location w) in
    let vars := navEnv_of w closure in
    if negb (String.eqb newUrl (currentUrl vars)) && isTracking vars then
      let vars' := {| nav_this := nav_this vars; currentUrl := newUrl; isTracking := false |} in
      let timer := {| due := now w + 100; timer_env := closure;
                      timer_url := newUrl; timer_source := source |} in
      Ok tt (upd_timers (fun ts => ts ++ [timer]) (upd_navEnvs (insert closure vars') w))
    else Ok tt w.

Definition source_of (op : HistOp) : string :=
  match op with PushState => "pushstate" | ReplaceState => "replacestate" end.

Definition original_of (op : HistOp) (t : Tracker) : option HistFn :=
  match op with
  | PushState => originalPushState t
  | ReplaceState => originalReplaceState t
  end.

(** Calling a function stored in [history], with arguments that make the
    browser's own method move [window.location] to [target].  [depth] bounds
    the nesting of calls. *)
Fixpoint callHistFn (depth : nat) (f : HistFn) (target : Location) : M unit :=
  match depth with
  | O => throw RangeError
  | S depth' =>
      match f with
      | Native _ => modify (upd_location (fun _ => target))
      | Bound g => callHistFn depth' g target
      | Patched op closure =>
          let* original :=
            gets (fun w => original_of op (tracker_of w (nav_this (navEnv_of w closure)))) in
          match original with
          | None => throw TypeError
          | Some g => callHistFn depth' g target >> navHook closure (source_of op)
          end
      end
  end.

Definition setupPageTracking (this : nat) : M unit :=
  let* url := gets (fun w => href (location w)) in
  trackPageView this url "initial_load" >>
  let* already := gets isPageTrackingSetup in
  if already then ret tt
  else
    let* closure := gets next_id in
    modify (upd_next_id S) >>
    modify (fun w =>
      upd_navEnvs
        (insert closure
           {| nav_this := this; currentUrl := href (location w); isTracking := true |}) w) >>
    modify (fun w =>
      upd_tracker this (with_originalPushState (Some (Bound (history_pushState w)))) w) >>
    modify (fun w =>
      upd_tracker this (with_originalReplaceState (Some (Bound (history_replaceState w)))) w) >>
    modify (upd_history_pushState (fun _ => Patched PushState closure)) >>
    modify (upd_history_replaceState (fun _ => Patched ReplaceState closure)) >>
    modify (upd_tracker this (with_popstateHandler (Some closure))) >>
    modify (upd_popstateListeners
              (fun l => if bool_decide (closure ∈ l) then l else l ++ [closure])) >>
    modify (upd_isPageTrackingSetup (fun _ => true)).

(** *** [setupObserver] *)

(** [attachTrackingToElements] on the list made from one element. *)
Definition attachToOne (this e : nat) : M unit :=
  match NodeList_of e with
  | None => throw TypeError
  | Some elements => attachTrackingToElements this elements
  end.

Definition onAddedNode (this : nat) (node : Node) : M unit :=
  match node with
  | TextNode _ => ret tt
  | ElementNode id attributes _ =>
      (if hasAttribute attributes tracking_attr then attachToOne this id else ret tt) >>
      let childElements := querySelectorAll node in
      if 0 <? length childElements
      then attachTrackingToElements this childElements
      else ret tt
  end.

Definition onMutation (this : nat) (mutation : MutationRecord) : M unit :=
  match mutation with
  | ChildListRecord addedNodes => forEach addedNodes (onAddedNode this)
  | AttributesRecord attributeName target attributes =>
      if String.eqb attributeName tracking_attr
      then if hasAttribute attributes tracking_attr then attachToOne this target else ret tt
      else ret tt
  | CharacterDataRecord => ret tt
  end.

(** The callback given to [new MutationObserver]. *)
Definition observerCallback (this : nat) (mutations : list MutationRecord) : M unit :=
  forEach mutations (onMutation this).

Definition setupObserver (this : nat) : M unit :=
  let* existingElements := gets (fun w => document_querySelectorAll (document w)) in
  attachTrackingToElements this existingElements >>
  let* observer := gets next_id in
  modify (upd_next_id S) >>
  modify (upd_tracker this (with_mutationObserver (Some observer))) >>
  modify (upd_observers (insert observer this)).

(** *** [trackingEvent] *)

(** The click listener; [attributes] are those of [event.currentTarget]. *)
Definition trackingEvent (this : nat) (attributes : gmap string string) : M unit :=
  let rudderEventName :=
    or_else (getAttribute attributes "data-rudderstack-event") "Element Clicked" in
  let rudderTrackingProps := getAttribute attributes "data-rudderstack-props" in
  match JSON_parse (or_else rudderTrackingProps "{}") with
  | None => throw SyntaxError
  | Some properties =>
      sdk_call (Track this rudderEventName
                  (spread (common_properties env) (own_props properties)))
  end.

(** *** [destroy] *)

Definition destroy (this : nat) : M unit :=
  let* tracked := gets (fun w => elements (trackedElements (tracker_of w this))) in
  forEach tracked (fun e => removeEventListener e this) >>
  modify (upd_tracker this (with_trackedElements ∅)) >>
  let* observer := gets (fun w => mutationObserver (tracker_of w this)) in
  match observer with
  | Some o =>
      modify (upd_observers (delete o)) >>
      modify (upd_tracker this (with_mutationObserver None))
  | None => ret tt
  end >>
  let* push := gets (fun w => originalPushState (tracker_of w this)) in
  match push with
  | Some f => modify (upd_history_pushState (fun _ => f))
  | None => ret tt
  end >>
  let* replace := gets (fun w => originalReplaceState (tracker_of w this)) in
  match replace with
  | Some f => modify (upd_history_replaceState (fun _ => f))
  | None => ret tt
  end >>
  let* handler := gets (fun w => popstateHandler (tracker_of w this)) in
  match handler with
  | Some h =>
      modify (upd_popstateListeners (filter (fun c => c ≠ h))) >>
      modify (upd_tracker this (with_popstateHandler None))
  | None => ret tt
  end >>
  modify (upd_tracker this (with_isInitialized false)) >>
  modify (upd_instance (fun _ => None)) >>
  modify (upd_isPageTrackingSetup (fun _ => false)).

(** *** [getInstance] and [initialize] *)

Definition getInstance : M nat :=
  let* current := gets instance in
  match current with
  | Some this => ret this
  | None =>
      let* this := gets next_id in
      modify (upd_next_id S) >>
      modify (upd_trackers (insert this new_tracker)) >>
      modify (upd_instance (fun _ => Some this)) >>
      ret this
  end.

(** The warning about a missing game or project identifier only logs. *)
Definition initialize (this : nat) : M InitOutcome :=
  let* initialized := gets (fun w => isInitialized (tracker_of w this)) in
  if initialized then ret (Settled false)
  else if falsy (RUDDERSTACK_KEY env) || falsy (RUDDERSTACK_URL env)
  then ret (Settled false)
  else
    sdk_call (Load this (default "" (RUDDERSTACK_KEY env))
                        (default "" (RUDDERSTACK_URL env))) >>
    let* promise := gets next_id in
    modify (upd_next_id S) >>
    modify (upd_readyCallbacks (fun l => l ++ [(this, promise)])) >>
    ret (Pending promise).

(** The function given to [analyticsInstance.ready]. *)
Definition readyCallback (this promise : nat) : M unit :=
  let* initialized := gets (fun w => isInitialized (tracker_of w this)) in
  (if initialized then ret tt
   else
     setupPageTracking this >>
     setupObserver this >>
     modify (upd_tracker this (with_isInitialized true))) >>
  modify (upd_promises (insert promise true)).

(** ** What the browser and the SDK do to the page *)

(** The SDK runs the [k]-th callback that waits for readiness. *)
Definition fireReady (k : nat) : M unit :=
  fun w =>
    match readyCallbacks w !! k with
    | None => Ok tt w
    | Some (this, promise) => readyCallback this promise (upd_readyCallbacks (delete k) w)
    end.

(** The application calls [history.pushState] or [history.replaceState]. *)
Definition history_call (op : HistOp) (target : Location) : M unit :=
  fun w =>
    callHistFn stack_depth
      (match op with
       | PushState => history_pushState w
       | ReplaceState => history_replaceState w
       end) target w.

(** The user goes back or forward: the browser moves [window.location] and
    dispatches [popstate]. *)
Definition popstate (target : Location) (w : World) : list Error * World :=
  let w' := upd_location (fun _ => target) w in
  run_tasks (map (fun c => navHook c "popstate") (popstateListeners w')) w'.

(** The user clicks the element [e]. *)
Definition click (e : nat) (attributes : gmap string string) (w : World)
  : list Error * World :=
  run_tasks (map (fun this => trackingEvent this attributes) (listeners_of w e)) w.

Definition timerCallback (t : Timer) : M unit :=
  let* this := gets (fun w => nav_this (navEnv_of w (timer_env t))) in
  trackPageView this (timer_url t) (timer_source t) >>
  modify (fun w =>
    let vars := navEnv_of w (timer_env t) in
    upd_navEnvs
      (insert (timer_env t)
         {| nav_this := nav_this vars; currentUrl := currentUrl vars; isTracking := true |}) w).

(** [dt] milliseconds pass and the timers that are due run, oldest first. *)
Definition advance (dt : nat) (w : World) : list Error * World :=
  let w' := upd_now (fun t => t + dt) w in
  let ready := filter (fun t => due t ≤ now w') (timers w') in
  run_tasks (map timerCallback ready)
    (upd_timers (filter (fun t => now w' < due t)) w').

(** The observer [o], if connected, receives a batch of records. *)
Definition deliver (o : nat) (mutations : list MutationRecord) : M unit :=
  fun w =>
    match observers w !! o with
    | Some this => observerCallback this mutations w
    | None => Ok tt w
    end.

End Tracker.

(** ** A reference platform

    A concrete browser on which the tracker can be run: it reads the path out
    of a serialised hierarchical URL (the form [window.location.href] always
    has), parses JSON by the grammar of ECMA-404 with numbers kept as their
    literal and [\u] escapes written out in UTF-8, and has the [NodeList]
    interface object throw. *)

Module Reference.

(** [scheme://authority/path?query#fragment]: what follows [://]. *)
Fixpoint after_scheme (s : string) : option string :=
  match s with
  | String c rest =>
      if Ascii.eqb c ":"%char then
        match rest with
        | String a (String b rest') =>
            if Ascii.eqb a "/"%char && Ascii.eqb b "/"%char then Some rest' else None
        | _ => None
        end
      else after_scheme rest
  | EmptyString => None
  end.

Definition ends_component (c : ascii) : bool :=
  Ascii.eqb c "?"%char || Ascii.eqb c "#"%char.

Fixpoint skip_authority (s : string) : string :=
  match s with
  | String c rest =>
      if Ascii.eqb c "/"%char || ends_component c then s else skip_authority rest
  | EmptyString => EmptyString
  end.

Fixpoint take_path (s : string) : string :=
  match s with
  | String c rest => if ends_component c then EmptyString else String c (take_path rest)
  | EmptyString => EmptyString
  end.

Definition pathname (url : string) : option string :=
  match after_scheme url with
  | None => None
  | Some rest =>
      match take_path (skip_authority rest) with
      | EmptyString => Some "/"
      | path => Some path
      end
  end.

(** *** JSON *)

Definition dquote : ascii := ascii_of_nat 34.
Definition backslash : ascii := ascii_of_nat 92.

Definition is_ws (c : ascii) : bool :=
  let n := nat_of_ascii c in
  (n =? 32) || (n =? 9) || (n =? 10) || (n =? 13).

Fixpoint skip_ws (s : string) : string :=
  match s with
  | String c rest => if is_ws c then skip_ws rest else s
  | EmptyString => EmptyString
  end.

Definition is_digit (c : ascii) : bool :=
  let n := nat_of_ascii c in (48 <=? n) && (n <=? 57).

Fixpoint take_digits (s : string) : string * string :=
  match s with
  | String c rest =>
      if is_digit c then let '(d, r) := take_digits rest in (String c d, r) else (EmptyString, s)
  | EmptyString => (EmptyString, EmptyString)
  end.

(** A JSON number: an optional minus, an integer part without a leading
    zero, an optional fraction and an optional exponent. *)
Definition parse_number (s : string) : option (string * string) :=
  let '(sign, s1) :=
    match s with
    | String c r => if Ascii.eqb c "-"%char then ("-", r) else ("", s)
    | EmptyString => ("", s)
    end in
  let '(int, s2) := take_digits s1 in
  match int with
  | EmptyString => None
  | String c (String _ _) =>
      if Ascii.eqb c "0"%char then None else Some (sign +:+ int, s2)
  | String _ EmptyString => Some (sign +:+ int, s2)
  end ≫= fun '(lit, s2) =>
  match s2 with
  | String c r =>
      if Ascii.eqb c "."%char then
        let '(frac, s3) := take_digits r in
        match frac with
        | EmptyString => None
        | _ => Some (lit +:+ "." +:+ frac, s3)
        end
      else Some (lit, s2)
  | EmptyString => Some (lit, s2)
  end ≫= fun '(lit, s3) =>
  match s3 with
  | String c r =>
      if Ascii.eqb c "e"%char || Ascii.eqb c "E"%char then
        let '(esign, r') :=
          match r with
          | String d r' =>
              if Ascii.eqb d "+"%char || Ascii.eqb d "-"%char
              then (String d EmptyString, r') else ("", r)
          | EmptyString => ("", r)
          end in
        let '(digits, s4) := take_digits r' in
        match digits with
        | EmptyString => None
        | _ => Some (lit +:+ String c esign +:+ digits, s4)
        end
      else Some (lit, s3)
  | EmptyString => Some (lit, s3)
  end.

Definition hex_value (c : ascii) : option nat :=
  let n := nat_of_ascii c in
  if (48 <=? n) && (n <=? 57) then Some (n - 48)
  else if (65 <=? n) && (n <=? 70) then Some (n - 55)
  else if (97 <=? n) && (n <=? 102) then Some (n - 87)
  else None.

(** UTF-8 of one UTF-16 code unit. *)
Definition utf8 (u : nat) : string :=
  if u <? 128 then String (ascii_of_nat u) EmptyString
  else if u <? 2048 then
    String (ascii_of_nat (192 + u / 64)) (String (ascii_of_nat (128 + u mod 64)) EmptyString)
  else
    String (ascii_of_nat (224 + u / 4096))
      (String (ascii_of_nat (128 + (u / 64) mod 64))
         (String (ascii_of_nat (128 + u mod 64)) EmptyString)).

(** The characters after an opening quote, up to the closing one. *)
Fixpoint parse_chars (fuel : nat) (s : string) : option (string * string) :=
  match fuel with
  | O => None
  | S fuel' =>
      match s with
      | EmptyString => None
      | String c rest =>
          if Ascii.eqb c dquote then Some (EmptyString, rest)
          else if Ascii.eqb c backslash then
            match rest with
            | String e rest' =>
                let continue (decoded : string) (r : string) :=
                  parse_chars fuel' r ≫= fun '(tail, r') => Some (decoded +:+ tail, r') in
                let one (n : nat) := continue (String (ascii_of_nat n) EmptyString) rest' in
                if Ascii.eqb e dquote then one 34
                else if Ascii.eqb e backslash then one 92
                else if Ascii.eqb e "/"%char then one 47
                else if Ascii.eqb e "b"%char then one 8
                else if Ascii.eqb e "f"%char then one 12
                else if Ascii.eqb e "n"%char then one 10
                else if Ascii.eqb e "r"%char then one 13
                else if Ascii.eqb e "t"%char then one 9
                else if Ascii.eqb e "u"%char then
                  match rest' with
                  | String h1 (String h2 (String h3 (String h4 r))) =>
                      a ← hex_value h1; b ← hex_value h2;
                      c ← hex_value h3; d ← hex_value h4;
                      continue (utf8 (((a * 16 + b) * 16 + c) * 16 + d)) r
                  | _ => None
                  end
                else None
            | EmptyString => None
            end
          else if nat_of_ascii c <? 32 then None
          else parse_chars fuel' rest ≫= fun '(tail, r) => Some (String c tail, r)
      end
  end.

Definition parse_string (s : string) : option (string * string) :=
  match s with
  | String c rest => if Ascii.eqb c dquote then parse_chars (S (String.length rest)) rest else None
  | EmptyString => None
  end.

Definition strip_prefix (p s : string) : option string :=
  if String.prefix p s then Some (String.substring (String.length p) (String.length s - String.length p) s)
  else None.

Fixpoint parse_value (fuel : nat) (s : string) : option (JSValue * string) :=
  match fuel with
  | O => None
  | S fuel' =>
      match skip_ws s with
      | EmptyString => None
      | String c rest as s' =>
          if Ascii.eqb c "{"%char then
            match skip_ws rest with
            | String d r => if Ascii.eqb d "}"%char then Some (JObject ∅, r)
                            else parse_members fuel' (skip_ws rest) ∅
            | EmptyString => None
            end
          else if Ascii.eqb c "["%char then
            match skip_ws rest with
            | String d r => if Ascii.eqb d "]"%char then Some (JArray [], r)
                            else parse_items fuel' rest []
            | EmptyString => None
            end
          else if Ascii.eqb c dquote then
            parse_string s' ≫= fun '(str, r) => Some (JString str, r)
          else if Ascii.eqb c "t"%char then
            strip_prefix "true" s' ≫= fun r => Some (JBool true, r)
          else if Ascii.eqb c "f"%char then
            strip_prefix "false" s' ≫= fun r => Some (JBool false, r)
          else if Ascii.eqb c "n"%char then
            strip_prefix "null" s' ≫= fun r => Some (JNull, r)
          else parse_number s' ≫= fun '(lit, r) => Some (JNumber lit, r)
      end
  end
with parse_items (fuel : nat) (s : string) (acc : list JSValue) : option (JSValue * string) :=
  match fuel with
  | O => None
  | S fuel' =>
      parse_value fuel' s ≫= fun '(v, r) =>
      match skip_ws r with
      | String c r' =>
          if Ascii.eqb c ","%char then parse_items fuel' r' (acc ++ [v])
          else if Ascii.eqb c "]"%char then Some (JArray (acc ++ [v]), r')
          else None
      | EmptyString => None
      end
  end
with parse_members (fuel : nat) (s : string) (acc : gmap string JSValue)
  : option (JSValue * string) :=
  match fuel with
  | O => None
  | S fuel' =>
      parse_string s ≫= fun '(key, r) =>
      match skip_ws r with
      | String c r1 =>
          if Ascii.eqb c ":"%char then
            parse_value fuel' r1 ≫= fun '(v, r2) =>
            match skip_ws r2 with
            | String d r3 =>
                if Ascii.eqb d ","%char then parse_members fuel' (skip_ws r3) (<[key := v]> acc)
                else if Ascii.eqb d "}"%char then Some (JObject (<[key := v]> acc), r3)
                else None
            | EmptyString => None
            end
          else None
      | EmptyString => None
      end
  end.

Definition parse (text : string) : option JSValue :=
  parse_value (2 * String.length text + 2) text ≫= fun '(v, rest) =>
  match skip_ws rest with
  | EmptyString => Some v
  | _ => None
  end.

Definition platform : Platform :=
  {| URL_pathname := pathname;
     JSON_parse := parse;
     NodeList_of := fun _ => None;
     stack_depth := 1000 |}.

(** [q s] is [s] between double quotes. *)
Definition q (s : string) : string :=
  String dquote s +:+ String dquote EmptyString.

End Reference.

(** ** Pages to run the tracker on *)

(** A freshly loaded page: no tracker yet, the browser's own [history]
    methods, no listeners. *)
Definition initial_world (loc : Location) (title referrer : string) (doc : list Node)
  : World :=
  {| instance := None; isPageTrackingSetup := false; next_id := 0;
     trackers := ∅; navEnvs := ∅;
     location := loc; document_title := title; document_referrer := referrer;
     document := doc;
     history_pushState := Native PushState;
     history_replaceState := Native ReplaceState;
     popstateListeners := []; clickListeners := ∅; observers := ∅;
     now := 0; timers := [];
     sdkCalls := []; readyCallbacks := []; promises := ∅ |}.

Definition at_url (url : string) : Location :=
  {| href := url; search := ""; hash := "" |}.

Definition sample_env : Env :=
  {| RUDDERSTACK_KEY := Some "write-key";
     RUDDERSTACK_URL := Some "https://dataplane.example.com";
     RUDDERSTACK_GAME_ID := Some "g1";
     RUDDERSTACK_PROJECT_ID := None;
     trackedPages := ["/"; "/search"; "/[slug]"] |}.

(** ** The tracking policy in the words of the specification *)

(** A single non-root segment: [/segment] with no further slash. *)
Definition single_segment (pathname : string) : Prop :=
  ∃ segment, pathname = String "/" segment
             ∧ segment ≠ ""
             ∧ "/"%char ∉ String.list_ascii_of_string segment.

Definition policy_tracks (env : Env) (pathname : string) : Prop :=
  pathname ∈ trackedPages env
  ∨ (single_segment pathname ∧ "/[slug]" ∈ trackedPages env).

(** The SDK received one more [page] call during the computation. *)
Definition calls_page (w : World) (r : Result unit) : Prop :=
  ∃ this properties, sdkCalls (world_of r) = sdkCalls w ++ [Page this properties].

(** ** The state [destroy] leaves, in closed form *)

(** The click listeners once the listener of [this] is taken off the
    elements of [l]. *)
Definition remove_from (this : nat) (l : list nat) (m : gmap nat (list nat))
  : gmap nat (list nat) :=
  foldl (fun m e => <[e := filter (fun l => l ≠ this) (default [] (m !! e))]> m) m l.

Definition torn_down (t : Tracker) : Tracker :=
  {| trackedElements := ∅; mutationObserver := None;
     originalPushState := originalPushState t;
     originalReplaceState := originalReplaceState t;
     popstateHandler := None; isInitialized := false |}.

Definition after_destroy (this : nat) (w : World) : World :=
  let t := tracker_of w this in
  {| instance := None; isPageTrackingSetup := false; next_id := next_id w;
     trackers := <[this := torn_down t]> (trackers w);
     navEnvs := navEnvs w;
     location := location w; document_title := document_title w;
     document_referrer := document_referrer w; document := document w;
     history_pushState := default (history_pushState w) (originalPushState t);
     history_replaceState := default (history_replaceState w) (originalReplaceState t);
     popstateListeners :=
       match popstateHandler t with
       | Some h => filter (fun c => c ≠ h) (popstateListeners w)
       | None => popstateListeners w
       end;
     clickListeners := remove_from this (elements (trackedElements t)) (clickListeners w);
     observers :=
       match mutationObserver t with
       | Some o => delete o (observers w)
       | None => observers w
       end;
     now := now w; timers := timers w;
     sdkCalls := sdkCalls w; readyCallbacks := readyCallbacks w;
     promises := promises w |}.

(** ** One listener per element *)

(** Every click listener on the page belongs to the tracker [this], and sits
    on exactly the elements of its membership set. *)
Definition owns (this : nat) (w : World) : Prop :=
  ∀ e, listeners_of w e
       = if bool_decide (e ∈ trackedElements (tracker_of w this)) then [this] else [].

(** The operations of a tracker that touch click listeners. *)
Inductive TrackingOp : Type :=
| InitialScan
| ObserverBatch (mutations : list MutationRecord)
| AttributeChange (target : nat) (attributes : gmap string string)
| Attach (elements : list nat)
| Destroy.

(** The state in which an operation leaves the page, thrown or not. *)
Definition run_op {P : Platform} (this : nat) (op : TrackingOp) (w : World) : World :=
  match op with
  | InitialScan => world_of (setupObserver this w)
  | ObserverBatch mutations => world_of (observerCallback this mutations w)
  | AttributeChange target attributes =>
      world_of (onMutation this (AttributesRecord tracking_attr target attributes) w)
  | Attach elements => world_of (attachTrackingToElements this elements w)
  | Destroy => world_of (destroy this w)
  end.

(** [m] keeps [I], whether it returns or throws. *)
Definition preserves {A} (I : World -> Prop) (m : M A) : Prop :=
  ∀ w, I w → I (world_of (m w)).

(** ** Sessions *)

(** The part of the state that click tracking depends on is the same in
    [w'] as in [w], as far as the tracker [i] is concerned. *)
Definition same_tracking (i : nat) (w w' : World) : Prop :=
  instance w' = instance w
  ∧ clickListeners w' = clickListeners w
  ∧ readyCallbacks w' = readyCallbacks w
  ∧ observers w' = observers w
  ∧ trackedElements (tracker_of w' i) = trackedElements (tracker_of w i)
  ∧ mutationObserver (tracker_of w' i) = mutationObserver (tracker_of w i)
  ∧ isInitialized (tracker_of w' i) = isInitialized (tracker_of w i).

(** What holds of the page throughout a session. *)
Definition session_inv (w : World) : Prop :=
  match instance w with
  | Some i =>
      owns i w
      ∧ (∀ j p, (j, p) ∈ readyCallbacks w → j = i)
      ∧ (∀ o j, observers w !! o = Some j →
                j = i
                ∧ mutationObserver (tracker_of w i) = Some o
                ∧ isInitialized (tracker_of w i) = true)
  | None =>
      (∀ e, listeners_of w e = []) ∧ readyCallbacks w = [] ∧ observers w = ∅
  end.

(** One step of a session: the application uses the tracker through
    [getInstance], initializes and destroys the current instance, and
    destroys it only when no readiness callback is pending; the SDK, the
    browser and the user do the rest. *)
Inductive session_step {P : Platform} (env : Env) : World -> World -> Prop :=
| step_getInstance w :
    session_step env w (world_of (getInstance w))
| step_initialize w this :
    instance w = Some this →
    session_step env w (world_of (initialize env this w))
| step_ready w k :
    session_step env w (world_of (fireReady env k w))
| step_deliver w o mutations :
    session_step env w (world_of (deliver o mutations w))
| step_destroy w this :
    instance w = Some this → readyCallbacks w = [] →
    session_step env w (world_of (destroy this w))
| step_click w e attributes :
    session_step env w (snd (click env e attributes w))
| step_history w op target :
    session_step env w (world_of (history_call op target w))
| step_popstate w target :
    session_step env w (snd (popstate target w))
| step_advance w dt :
    session_step env w (snd (advance env dt w))
| step_document w doc :
    session_step env w (upd_document (fun _ => doc) w).

(** The states of the sessions that start on a freshly loaded page. *)
Inductive session {P : Platform} (env : Env) : World -> Prop :=
| session_start loc title referrer doc :
    session env (initial_world loc title referrer doc)
| session_next w w' : session env w → session_step env w w' → session env w'.

(** Steps that leave trackers, listeners, callbacks and observers alone. *)
Definition untouched (w w' : World) : Prop :=
  instance w' = instance w ∧ trackers w' = trackers w
  ∧ clickListeners w' = clickListeners w
  ∧ readyCallbacks w' = readyCallbacks w ∧ observers w' = observers w.

(** What the attachment of listeners leaves alone. *)
Definition attach_frame (i : nat) (w w' : World) : Prop :=
  instance w' = instance w
  ∧ readyCallbacks w' = readyCallbacks w
  ∧ observers w' = observers w
  ∧ mutationObserver (tracker_of w' i) = mutationObserver (tracker_of w i)
  ∧ isInitialized (tracker_of w' i) = isInitialized (tracker_of w i).

(** ** The click handler in the words of the specification *)

(** The event name as the specification words it: the value of the
    event-name attribute, or ["Element Clicked"] when the attribute is
    absent. *)
Definition claimed_event_name (attributes : gmap string string) : string :=
  match getAttribute attributes "data-rudderstack-event" with
  | Some name => name
  | None => "Element Clicked"
  end.

(** The state after one more call received by the SDK. *)
Definition with_call (c : SdkCall) (w : World) : World :=
  upd_sdkCalls (fun calls => calls ++ [c]) w.

(** A button with an identifier and an empty event name, and one whose
    properties are not JSON. *)
Definition unnamed_button : gmap string string :=
  <["data-rudderstack-event" := ""]> {[ "data-rudderstack-id" := "cta" ]}.

Definition broken_button : gmap string string :=
  <["data-rudderstack-props" := "{oops"]> {[ "data-rudderstack-id" := "cta" ]}.

Definition plan_button : gmap string string :=
  <["data-rudderstack-props" :=
      "{" +:+ Reference.q "plan" +:+ ":" +:+ Reference.q "pro" +:+ "}"]>
    (<["data-rudderstack-event" := "Upgrade"]> {[ "data-rudderstack-id" := "cta" ]}).

Definition home : World := initial_world (at_url "https://example.com/") "Home" "" [].

(** [m] returns in every state. *)
Definition returns {A} (m : M A) : Prop := ∀ w, ∃ a w', m w = Ok a w'.

(** ** Navigation in closed form *)

(** The function reaches the browser's own method through at most [depth]
    calls, all of them of bound functions. *)
Fixpoint native_within (depth : nat) (f : HistFn) : bool :=
  match depth with
  | O => false
  | S depth' =>
      match f with
      | Native _ => true
      | Bound g => native_within depth' g
      | Patched _ _ => false
      end
  end.

(** The state after the initial page view of [setupPageTracking]. *)
Definition after_page_view {P : Platform} (env : Env) (this : nat) (source : string)
    (url : string) (p : string) (w : World) : World :=
  if shouldTrack env p
  then with_call (Page this (page_properties env w url p source)) w
  else w.

(** The state after the closures of [closure] saw a new URL with the gate
    open: the gate is shut and a timer is started. *)
Definition scheduled (closure : nat) (source : string) (w : World) : World :=
  upd_timers
    (fun ts => ts ++ [{| due := now w + 100; timer_env := closure;
                         timer_url := href (location w); timer_source := source |}])
    (upd_navEnvs
       (insert closure
          {| nav_this := nav_this (navEnv_of w closure);
             currentUrl := href (location w); isTracking := false |}) w).

(** ** A session on the reference platform *)

Module Scenario.

Definition exec {A} (m : M A) (w : World) : World := world_of (m w).

(** A landing page with one button to track. *)
Definition landing : World :=
  initial_world (at_url "https://example.com/") "Home" ""
    [ElementNode 10 {[ tracking_attr := "cta" ]} [TextNode "Buy"]].

(** [getInstance().initialize()], then the SDK reports that it is ready. *)
Definition start (w : World) : World :=
  exec (@fireReady Reference.platform sample_env (length (readyCallbacks w)))
    (exec (let* this := getInstance in initialize sample_env this) w).

(** The tracker 0 runs on the landing page, is destroyed, and a second
    tracker is brought up. *)
Definition running : World := start landing.
Definition stopped : World := exec (destroy 0) running.
Definition restarted : World := start stopped.

(** The environment without the write key. *)
Definition no_key : Env :=
  {| RUDDERSTACK_KEY := None;
     RUDDERSTACK_URL := RUDDERSTACK_URL sample_env;
     RUDDERSTACK_GAME_ID := RUDDERSTACK_GAME_ID sample_env;
     RUDDERSTACK_PROJECT_ID := RUDDERSTACK_PROJECT_ID sample_env;
     trackedPages := trackedPages sample_env |}.

End Scenario.

(** * The configuration, the wrapper and the provider *)

(** ** Reading the configuration

    The tracker reads [process.env] when its module is evaluated, and
    [env.util.ts] resolves a variable over the places the supported bundlers
    put it.  Both cut a comma-separated text with [split] and [trim]; a
    character of a string here stands for one code unit below 256. *)

Module Str.

(** White space and line terminators of ECMAScript below 256: tab, line
    feed, vertical tab, form feed, carriage return, space, no-break space. *)
Definition is_space (c : ascii) : bool :=
  let n := nat_of_ascii c in
  ((9 <=? n) && (n <=? 13)) || (n =? 32) || (n =? 160).

Fixpoint trimStart (s : string) : string :=
  match s with
  | String c rest => if is_space c then trimStart rest else s
  | EmptyString => EmptyString
  end.

Fixpoint trimEnd (s : string) : string :=
  match s with
  | String c rest =>
      match trimEnd rest with
      | EmptyString => if is_space c then EmptyString else String c EmptyString
      | kept => String c kept
      end
  | EmptyString => EmptyString
  end.

(** [s.trim()] *)
Definition trim (s : string) : string := trimEnd (trimStart s).

(** [s.split(sep)] for a separator of one character. *)
Fixpoint split (sep : ascii) (s : string) : list string :=
  match s with
  | EmptyString => [EmptyString]
  | String c rest =>
      if Ascii.eqb c sep then EmptyString :: split sep rest
      else match split sep rest with
           | piece :: pieces => String c piece :: pieces
           | [] => [String c EmptyString]
           end
  end.

(** The text that lists [pieces] with [sep] between them. *)
Fixpoint join (sep : ascii) (pieces : list string) : string :=
  match pieces with
  | [] => EmptyString
  | [piece] => piece
  | piece :: rest => piece +:+ String sep (join sep rest)
  end.

(** Every character of [s] is white space. *)
Fixpoint blank (s : string) : bool :=
  match s with
  | String c rest => is_space c && blank rest
  | EmptyString => true
  end.

(** [s] neither starts nor ends with white space. *)
Definition trimmed (s : string) : Prop :=
  ∀ c rest, (s = String c rest → is_space c = false)
            ∧ (s = rest +:+ String c EmptyString → is_space c = false).

(** [sep] does not occur in [s]. *)
Definition free_of (sep : ascii) (s : string) : Prop :=
  sep ∉ String.list_ascii_of_string s.

End Str.

(** The list the tracker keeps in [trackedPages]. *)
Definition trackedPages_of (raw : option string) : list string :=
  if falsy raw then [] else map Str.trim (Str.split ","%char (default "" raw)).

(** The environment as the module of the tracker reads it out of
    [process.env]. *)
Definition module_env (process_env : gmap string string) : Env :=
  {| RUDDERSTACK_KEY := process_env !! "RUDDERSTACK_KEY";
     RUDDERSTACK_URL := process_env !! "RUDDERSTACK_URL";
     RUDDERSTACK_GAME_ID := process_env !! "RUDDERSTACK_GAME_ID";
     RUDDERSTACK_PROJECT_ID := process_env !! "RUDDERSTACK_PROJECT_ID";
     trackedPages := trackedPages_of (process_env !! "RUDDERSTACK_TRACKED_PAGES") |}.

(** *** [env.util.ts] *)

Module EnvUtil.

(** Where a variable may come from. *)
Record Sources : Type := {
  (** what [process.env.REACT_APP_...] stands for where the module is built *)
  build_env : gmap string string;
  (** [import.meta.env], when [import.meta] exists and [env] is truthy *)
  import_meta_env : option (gmap string JSValue);
  (** [process.env], when [process] exists *)
  process_env : option (gmap string string);
  (** [window.__RUDDERSTACK_CONFIG__], when [window] exists and the property
      is neither [null] nor [undefined] *)
  window_config : option (gmap string JSValue)
}.

Definition parseMaybeBoolean (v : JSValue) : JSValue :=
  match v with
  | JString s =>
      if String.eqb s "true" then JBool true
      else if String.eqb s "false" then JBool false
      else v
  | _ => v
  end.

(** The object literal: each key holds a string or [undefined]. *)
Definition STATIC_INLINE_MAP (src : Sources) : gmap string (option string) :=
  <["RUDDERSTACK_DEBUG" := build_env src !! "REACT_APP_RUDDERSTACK_DEBUG"]>
  (<["RUDDERSTACK_ENV" := build_env src !! "REACT_APP_RUDDERSTACK_ENV"]>
  (<["RUDDERSTACK_TRACKED_PAGES" := build_env src !! "REACT_APP_RUDDERSTACK_TRACKED_PAGES"]>
  (<["RUDDERSTACK_LOG" := build_env src !! "REACT_APP_RUDDERSTACK_LOG"]>
  (<["RUDDERSTACK_PROJECT_ID" := build_env src !! "REACT_APP_RUDDERSTACK_PROJECT_ID"]>
  (<["RUDDERSTACK_GAME_ID" := build_env src !! "REACT_APP_RUDDERSTACK_GAME_ID"]>
  (<["RUDDERSTACK_URL" := build_env src !! "REACT_APP_RUDDERSTACK_URL"]>
  (<["RUDDERSTACK_KEY" := build_env src !! "REACT_APP_RUDDERSTACK_KEY"]> ∅))))))).

(** [a ?? b] *)
Definition nullish (v : option JSValue) : bool :=
  match v with
  | None | Some JNull => true
  | Some _ => false
  end.

Definition coalesce (a b : option JSValue) : option JSValue :=
  if nullish a then b else a.

(** [a ?? b] on values that are strings or [undefined]. *)
Definition coalesce_text (a b : option string) : option string :=
  match a with
  | Some _ => a
  | None => b
  end.

(** [getEnvVar(name)] for the name of a variable; [None] is [undefined]. *)
Definition getEnvVar (src : Sources) (name : string) : option JSValue :=
  match mjoin (STATIC_INLINE_MAP src !! name) with
  | Some (String c rest) => Some (parseMaybeBoolean (JString (String c rest)))
  | Some EmptyString | None =>
      let viteVal :=
        match import_meta_env src with
        | Some viteEnv => coalesce (viteEnv !! ("VITE_" +:+ name)) (viteEnv !! name)
        | None => None
        end in
      match viteVal with
      | Some v => Some (parseMaybeBoolean v)
      | None =>
          let val :=
            match process_env src with
            | Some penv =>
                coalesce_text (penv !! ("NEXT_PUBLIC_" +:+ name))
                  (coalesce_text (penv !! ("VITE_" +:+ name)) (penv !! name))
            | None => None
            end in
          match val with
          | Some v => Some (parseMaybeBoolean (JString v))
          | None =>
              match window_config src ≫= fun w => w !! name with
              | Some v => Some (parseMaybeBoolean v)
              | None => None
              end
          end
      end
  end.

Definition getEnvList (src : Sources) (name : string) : list string :=
  match getEnvVar src name with
  | Some (JString raw) =>
      filter (fun s => s ≠ "") (map Str.trim (Str.split ","%char raw))
  | _ => []
  end.

(** The property names an object inherits from [Object.prototype]: a lookup
    of one of them yields what is inherited where the maps above have
    nothing.  The names of variables are taken outside of them. *)
Definition inherited : list string :=
  ["constructor"; "__proto__"; "hasOwnProperty"; "isPrototypeOf"; "propertyIsEnumerable";
   "toLocaleString"; "toString"; "valueOf"; "__defineGetter__"; "__defineSetter__";
   "__lookupGetter__"; "__lookupSetter__"].

(** The keys the inlined map lists. *)
Definition inline_keys : list string :=
  ["RUDDERSTACK_KEY"; "RUDDERSTACK_URL"; "RUDDERSTACK_GAME_ID"; "RUDDERSTACK_PROJECT_ID";
   "RUDDERSTACK_LOG"; "RUDDERSTACK_TRACKED_PAGES"; "RUDDERSTACK_ENV"; "RUDDERSTACK_DEBUG"].

(** A Next.js server: the variables of the process, those of the build being
    the same. *)
Definition node (penv : gmap string string) : Sources :=
  {| build_env := penv; import_meta_env := None; process_env := Some penv;
     window_config := None |}.

End EnvUtil.

(** ** Attachment in closed form *)

(** [addEventListener] on the listeners of one element. *)
Definition add_listener (this : nat) (listeners : list nat) : list nat :=
  if bool_decide (this ∈ listeners) then listeners else listeners ++ [this].

(** Trackers and click listeners apart, [w'] is [w]. *)
Definition same_page (w w' : World) : Prop :=
  upd_trackers (fun _ => trackers w) (upd_clickListeners (fun _ => clickListeners w) w') = w.

(** [w'] is [w] after the tracker [this] attached its listener to the
    elements of [l] that its membership set did not hold. *)
Definition attached (this : nat) (l : list nat) (w w' : World) : Prop :=
  same_page w w'
  ∧ (∀ i, tracker_of w' i
          = if bool_decide (i = this)
            then with_trackedElements
                   (trackedElements (tracker_of w this) ∪ list_to_set l) (tracker_of w this)
            else tracker_of w i)
  ∧ (∀ e, listeners_of w' e
          = if bool_decide (e ∈ l ∧ e ∉ trackedElements (tracker_of w this))
            then add_listener this (listeners_of w e)
            else listeners_of w e).

(** The tracker [this] has its listener on every element of its membership
    set. *)
Definition listens (this : nat) (w : World) : Prop :=
  ∀ e, e ∈ trackedElements (tracker_of w this) → this ∈ listeners_of w e.

(** From [w] to [w'] listeners were only added, after those already there,
    and membership sets only grew. *)
Definition grows (w w' : World) : Prop :=
  (∀ e, listeners_of w e `prefix_of` listeners_of w' e)
  ∧ (∀ i, trackedElements (tracker_of w i) ⊆ trackedElements (tracker_of w' i)).

(** The elements a mutation record brings to the tracker: those of the added
    subtrees that carry the attribute, or the target that was given it. *)
Definition added (mutation : MutationRecord) : list nat :=
  match mutation with
  | ChildListRecord addedNodes => flat_map matching addedNodes
  | AttributesRecord attributeName target attributes =>
      if String.eqb attributeName tracking_attr && hasAttribute attributes tracking_attr
      then [target] else []
  | CharacterDataRecord => []
  end.

(** The elements the callback hands to the call of the [NodeList] interface
    object: the added elements that carry the attribute themselves, and the
    targets that were given it. *)
Definition wrapped_node (node : Node) : list nat :=
  match node with
  | ElementNode id attributes _ =>
      if hasAttribute attributes tracking_attr then [id] else []
  | TextNode _ => []
  end.

Definition wrapped (mutation : MutationRecord) : list nat :=
  match mutation with
  | ChildListRecord addedNodes => flat_map wrapped_node addedNodes
  | AttributesRecord attributeName target attributes =>
      if String.eqb attributeName tracking_attr && hasAttribute attributes tracking_attr
      then [target] else []
  | CharacterDataRecord => []
  end.

(** ** Set-up in closed form *)

(** The state in which [setupPageTracking] leaves [w] when it installs the
    interception, the initial page view apart. *)
Definition installed (this : nat) (w : World) : World :=
  let t := tracker_of w this in
  let closure := next_id w in
  {| instance := instance w; isPageTrackingSetup := true; next_id := S closure;
     trackers :=
       <[this := {| trackedElements := trackedElements t;
                    mutationObserver := mutationObserver t;
                    originalPushState := Some (Bound (history_pushState w));
                    originalReplaceState := Some (Bound (history_replaceState w));
                    popstateHandler := Some closure;
                    isInitialized := isInitialized t |}]> (trackers w);
     navEnvs :=
       <[closure := {| nav_this := this; currentUrl := href (location w);
                       isTracking := true |}]> (navEnvs w);
     location := location w; document_title := document_title w;
     document_referrer := document_referrer w; document := document w;
     history_pushState := Patched PushState closure;
     history_replaceState := Patched ReplaceState closure;
     popstateListeners :=
       if bool_decide (closure ∈ popstateListeners w) then popstateListeners w
       else popstateListeners w ++ [closure];
     clickListeners := clickListeners w; observers := observers w;
     now := now w; timers := timers w; sdkCalls := sdkCalls w;
     readyCallbacks := readyCallbacks w; promises := promises w |}.

(** The state after [setupPageTracking]. *)
Definition page_tracking {P : Platform} (env : Env) (this : nat) (p : string) (w : World)
  : World :=
  let viewed := after_page_view env this "initial_load" (href (location w)) p w in
  if isPageTrackingSetup w then viewed else installed this viewed.

(** The end of [setupObserver] and of the readiness callback, once the
    listeners are attached: the observer is connected, the tracker is
    initialized and the promise resolved. *)
Definition observing (this : nat) (w : World) : World :=
  upd_observers (insert (next_id w) this)
    (upd_tracker this (with_mutationObserver (Some (next_id w))) (upd_next_id S w)).

Definition ready (this promise : nat) (w : World) : World :=
  upd_promises (insert promise true)
    (upd_tracker this (with_isInitialized true) (observing this w)).

(** The state in which [getInstance] leaves [w] when it makes a tracker. *)
Definition created (w : World) : World :=
  upd_instance (fun _ => Some (next_id w))
    (upd_trackers (insert (next_id w) new_tracker) (upd_next_id S w)).

(** The state in which [initialize] leaves [w] when it calls the SDK. *)
Definition loading (env : Env) (this : nat) (w : World) : World :=
  upd_readyCallbacks (fun l => l ++ [(this, next_id w)])
    (upd_next_id S
       (with_call (Load this (default "" (RUDDERSTACK_KEY env))
                     (default "" (RUDDERSTACK_URL env))) w)).

(** What [setupPageTracking] leaves alone. *)
Definition page_tracking_keeps (this : nat) (w wa : World) : Prop :=
  instance wa = instance w ∧ document wa = document w ∧ location wa = location w
  ∧ document_title wa = document_title w ∧ document_referrer wa = document_referrer w
  ∧ clickListeners wa = clickListeners w ∧ observers wa = observers w
  ∧ readyCallbacks wa = readyCallbacks w ∧ promises wa = promises w
  ∧ timers wa = timers w
  ∧ next_id w ≤ next_id wa
  ∧ (∀ j, trackedElements (tracker_of wa j) = trackedElements (tracker_of w j)
          ∧ isInitialized (tracker_of wa j) = isInitialized (tracker_of w j)
          ∧ mutationObserver (tracker_of wa j) = mutationObserver (tracker_of w j))
  ∧ (∀ j, j ≠ this → tracker_of wa j = tracker_of w j).

Section SetUp.
Context {P : Platform} (env : Env).

(** The state once the SDK has taken the call of [load]. *)
Definition loaded (this : nat) (w : World) : World :=
  upd_next_id S
    (with_call (Load this (default "" (RUDDERSTACK_KEY env))
                  (default "" (RUDDERSTACK_URL env))) w).

(** What the readiness callback of a tracker that is not initialized makes
    of [w]. *)
Definition brought_up (this promise : nat) (p : string) (w w' : World) : Prop :=
  let found := document_querySelectorAll (document w) in
  (∀ e, listeners_of w' e
        = if bool_decide (e ∈ found ∧ e ∉ trackedElements (tracker_of w this))
          then add_listener this (listeners_of w e)
          else listeners_of w e)
  ∧ trackedElements (tracker_of w' this)
    = trackedElements (tracker_of w this) ∪ list_to_set found
  ∧ isInitialized (tracker_of w' this) = true
  ∧ (∀ j, j ≠ this → tracker_of w' j = tracker_of w j)
  ∧ instance w' = instance w
  ∧ document w' = document w
  ∧ location w' = location w
  ∧ readyCallbacks w' = readyCallbacks w
  ∧ promises w' = <[promise := true]> (promises w)
  ∧ timers w' = timers w
  ∧ next_id w < next_id w'
  ∧ isPageTrackingSetup w' = true
  ∧ sdkCalls w'
    = sdkCalls w ++ (if shouldTrack env p
                     then [Page this (page_properties env w (href (location w)) p
                                        "initial_load")]
                     else [])
  ∧ (∃ o, next_id w ≤ o
          ∧ mutationObserver (tracker_of w' this) = Some o
          ∧ observers w' = <[o := this]> (observers w))
  ∧ history_pushState w' = history_pushState (page_tracking env this p w)
  ∧ history_replaceState w' = history_replaceState (page_tracking env this p w)
  ∧ popstateListeners w' = popstateListeners (page_tracking env this p w)
  ∧ navEnvs w' = navEnvs (page_tracking env this p w)
  ∧ originalPushState (tracker_of w' this)
    = originalPushState (tracker_of (page_tracking env this p w) this)
  ∧ popstateHandler (tracker_of w' this)
    = popstateHandler (tracker_of (page_tracking env this p w) this)
  ∧ originalReplaceState (tracker_of w' this)
    = originalReplaceState (tracker_of (page_tracking env this p w) this).

End SetUp.

(** ** Timers *)

(** [w] and [w'] agree on what a timer callback reads and writes. *)
Definition same_clockwork (w w' : World) : Prop :=
  navEnvs w' = navEnvs w ∧ location w' = location w
  ∧ document_title w' = document_title w ∧ document_referrer w' = document_referrer w
  ∧ now w' = now w ∧ timers w' = timers w ∧ sdkCalls w' = sdkCalls w.

(** Two runs end alike: both return or both throw the same error, in
    states that agree on what timers read and write. *)
Definition alike (r r' : Result unit) : Prop :=
  match r, r' with
  | Ok _ w, Ok _ w' => same_clockwork w w'
  | Throw e w, Throw e' w' => e = e' ∧ same_clockwork w w'
  | _, _ => False
  end.

(** ** The wrapper and the provider *)

Section Wrapper.
Context {P : Platform} (env : Env).

(** [rudderstackTracking] up to its [await]: the tracker it holds and the
    promise of [initialize]. *)
Definition rudderstackTracking : M (nat * InitOutcome) :=
  let* tracker := getInstance in
  let* success := initialize env tracker in
  ret (tracker, success).

(** The value of a promise of [initialize], once it has one. *)
Definition settled (outcome : InitOutcome) (w : World) : option bool :=
  match outcome with
  | Settled value => Some value
  | Pending promise => promises w !! promise
  end.

(** What the wrapper resolves to when [success] is known: the object that
    holds [tracker.destroy], or [null]. *)
Definition tracking_handle (tracker : nat) (success : bool) : option nat :=
  if success then Some tracker else None.

End Wrapper.

Module Provider.

(** The two refs of [RudderAnalyticsProvider]; [cleanupRef] holds the
    [destroy] of a tracker. *)
Record Refs : Type := {
  cleanupRef : option nat;
  isInitializedRef : bool
}.

(** What a run of the effect did: nothing, or a call of the wrapper that
    [initTracking] waits for, or one that threw and was logged. *)
Inductive EffectResult : Type :=
| Skipped
| Started (tracker : nat) (success : InitOutcome)
| Caught (e : Error).

(** What [useRef] gives on the first render. *)
Definition mounted : Refs := {| cleanupRef := None; isInitializedRef := false |}.

Section Effect.
Context {P : Platform} (env : Env).

(** The effect, up to the [await] of [initTracking]: it returns at once
    when [isInitializedRef] is set, and otherwise starts [initTracking],
    which catches what the wrapper throws, and returns the clean-up. *)
Definition effect (refs : Refs) : M EffectResult :=
  if isInitializedRef refs then ret Skipped
  else fun w =>
    match rudderstackTracking env w with
    | Ok (tracker, success) w' => Ok (Started tracker success) w'
    | Throw e w' => Ok (Caught e) w'
    end.

(** [initTracking] after its [await], with the value the wrapper resolved
    to. *)
Definition resume (tracking : option nat) (refs : Refs) : Refs :=
  match tracking with
  | Some tracker => {| cleanupRef := Some tracker; isInitializedRef := true |}
  | None => refs
  end.

(** The function the effect returns. *)
Definition cleanup (refs : Refs) : M Refs :=
  match cleanupRef refs with
  | Some tracker =>
      destroy tracker >> ret {| cleanupRef := None; isInitializedRef := false |}
  | None => ret refs
  end.

End Effect.

(** The value of the context. *)
Record ContextValue : Type := { ctx_isInitialized : bool }.

(** The default given to [createContext]. *)
Definition RudderAnalyticsContext : ContextValue := {| ctx_isInitialized := false |}.

(** The value the provider renders. *)
Definition value (refs : Refs) : ContextValue :=
  {| ctx_isInitialized := isInitializedRef refs |}.

(** [useContext]: the value of the nearest provider above, a JavaScript
    value that may be [null] or [undefined] ([None]), or the default when
    there is no provider. *)
Definition useContext (nearest : option (option ContextValue)) : option ContextValue :=
  match nearest with
  | Some provided => provided
  | None => Some RudderAnalyticsContext
  end.

(** The hook: the context, or the error it throws. *)
Definition useRudderAnalytics (nearest : option (option ContextValue))
  : ContextValue + string :=
  match useContext nearest with
  | Some context => inl context
  | None => inr "useRudderAnalytics must be used within RudderAnalyticsProvider"
  end.

End Provider.

(** ** More pages and environments to run on *)

Module Cases.

(** The tracker 0 has called [load] on the landing page and waits. *)
Definition pending : World :=
  Scenario.exec (let* this := getInstance in initialize sample_env this) Scenario.landing.

(** The running page, a moment after the application went to [/search]. *)
Definition navigating : World :=
  Scenario.exec
    (@history_call Reference.platform PushState (at_url "https://example.com/search"))
    Scenario.running.

Definition search_timer : Timer :=
  {| due := 100; timer_env := 2; timer_url := "https://example.com/search";
     timer_source := "pushstate" |}.

(** A second navigation, with a query and a fragment. *)
Definition other : Location :=
  {| href := "https://example.com/other?x=1#top"; search := "?x=1"; hash := "#top" |}.

(** A container without the attribute around a button that carries it. *)
Definition late_section : Node :=
  ElementNode 20 ∅ [ElementNode 21 {[ tracking_attr := "late" ]} [TextNode "More"]].

(** The list of the header comment of the tracker. *)
Definition documented_pages : list string := ["/"; "/tim-kiem"; "/xem-truoc"; "/[slug]"].

(** A list written with spaces and an empty entry. *)
Definition spaced : gmap string string :=
  {[ "RUDDERSTACK_TRACKED_PAGES" := "/, /search ,,/[slug]" ]}.

(** A Create React App build whose inlined value differs from the one of the
    process. *)
Definition cra : EnvUtil.Sources :=
  {| EnvUtil.build_env := {[ "REACT_APP_RUDDERSTACK_LOG" := "true" ]};
     EnvUtil.import_meta_env := None;
     EnvUtil.process_env := Some {[ "RUDDERSTACK_LOG" := "false" ]};
     EnvUtil.window_config := None |}.

(** A Next.js process with the public and the plain name of the key. *)
Definition next : gmap string string :=
  <["NEXT_PUBLIC_RUDDERSTACK_KEY" := "public-key"]> {[ "RUDDERSTACK_KEY" := "plain-key" ]}.

End Cases.

(** * Properties *)

Section PageViewFilter.
Context {P : Platform} (env : Env).

Lemma no_slash_spec s : no_slash s = true ↔ "/"%char ∉ String.list_ascii_of_string s.
Proof.
  induction s as [|c s IH]; simpl.
  - split; [intros _; apply not_elem_of_nil | done].
  - rewrite andb_true_iff, negb_true_iff, IH, not_elem_of_cons.
    destruct (Ascii.eqb_spec c "/"); split; intros [? ?]; split; congruence.
Qed.

Lemma matches_single_segment_spec p :
  matches_single_segment p = true ↔ single_segment p.
Proof.
  split.
  - destruct p as [|c [|d r]]; simpl; try discriminate.
    rewrite andb_true_iff. intros [Hc Hr].
    apply Ascii.eqb_eq in Hc. subst c.
    exists (String d r). split; [done|]. split; [done|].
    by apply (no_slash_spec (String d r)).
  - intros (seg & -> & Hne & Hno).
    destruct seg as [|d r]; [done|]. simpl.
    apply (no_slash_spec (String d r)) in Hno. simpl in Hno.
    by rewrite Hno.
Qed.

Lemma single_segment_startsWith p :
  matches_single_segment p = true → startsWith_slash p = true.
Proof.
  destruct p as [|c [|d r]]; simpl; try discriminate.
  by rewrite andb_true_iff; intros [-> _].
Qed.

Lemma includes_spec x l : includes x l = true ↔ x ∈ l.
Proof.
  unfold includes. rewrite existsb_exists. split.
  - intros (y & Hy & Heq). apply String.eqb_eq in Heq. subst.
    by apply list_elem_of_In.
  - intros Hx. exists x. split; [by apply list_elem_of_In | apply String.eqb_refl].
Qed.

Lemma shouldTrack_spec p : shouldTrack env p = true ↔ policy_tracks env p.
Proof.
  unfold shouldTrack, policy_tracks. rewrite existsb_exists. split.
  - intros (page & Hin & Hpage).
    destruct (String.eqb_spec page p) as [->|Hne].
    + left. by apply list_elem_of_In.
    + destruct (startsWith_slash p && matches_single_segment p) eqn:Hm; [|done].
      apply andb_true_iff in Hm as [_ Hm]. right. split.
      * by apply matches_single_segment_spec.
      * by apply includes_spec.
  - intros [Hin | [Hseg Hslug]].
    + exists p. split; [by apply list_elem_of_In|]. by rewrite String.eqb_refl.
    + exists "/[slug]". split; [by apply list_elem_of_In|].
      apply matches_single_segment_spec in Hseg.
      rewrite single_segment_startsWith by done. rewrite Hseg. cbn [andb].
      apply includes_spec in Hslug. rewrite Hslug.
      by destruct (String.eqb "/[slug]" p).
Qed.

Lemma trackPageView_tracked this url source w p :
  URL_pathname url = Some p → shouldTrack env p = true →
  trackPageView env this url source w
  = Ok tt (upd_sdkCalls (fun calls => calls ++ [Page this (page_properties env w url p source)]) w).
Proof. intros Hp Ht. unfold trackPageView. by rewrite Hp, Ht. Qed.

Lemma trackPageView_skipped this url source w p :
  URL_pathname url = Some p → shouldTrack env p = false →
  trackPageView env this url source w = Ok tt w.
Proof. intros Hp Ht. unfold trackPageView. by rewrite Hp, Ht. Qed.

(** C1. [trackPageView] calls the SDK's [page] exactly when the path of the
    URL is an entry of the allowlist, or is a single non-root segment while
    the allowlist holds ["/[slug]"]; for every other path the state is left
    as it was.  With the allowlist ["/"], ["/search"], ["/[slug]"] the paths
    ["/"], ["/search"] and ["/anything"] are tracked and ["/a/b"] is not. *)
Theorem trackPageView_policy this url source w p :
  URL_pathname url = Some p →
  (calls_page w (trackPageView env this url source w) ↔ policy_tracks env p)
  ∧ (¬ policy_tracks env p → trackPageView env this url source w = Ok tt w)
  ∧ (trackedPages env = ["/"; "/search"; "/[slug]"] →
     policy_tracks env "/" ∧ policy_tracks env "/search"
     ∧ policy_tracks env "/anything" ∧ ¬ policy_tracks env "/a/b").
Proof.
  intros Hp. split; [|split].
  - rewrite <- (shouldTrack_spec p). split.
    + intros (i & props & Hcalls).
      destruct (shouldTrack env p) eqn:Ht; [done|].
      rewrite (trackPageView_skipped _ _ _ _ _ Hp Ht) in Hcalls. simpl in Hcalls.
      apply (f_equal length) in Hcalls. rewrite length_app in Hcalls. simpl in Hcalls. lia.
    + intros Ht. rewrite (trackPageView_tracked _ _ _ _ _ Hp Ht).
      by exists this, (page_properties env w url p source).
  - intros Hno. apply (trackPageView_skipped _ _ _ _ p); [done|].
    destruct (shouldTrack env p) eqn:Ht; [|done].
    by apply shouldTrack_spec in Ht.
  - intros Hpages.
    rewrite <- (shouldTrack_spec "/"), <- (shouldTrack_spec "/search"),
      <- (shouldTrack_spec "/anything"), <- (shouldTrack_spec "/a/b").
    unfold shouldTrack. rewrite Hpages.
    repeat split; [reflexivity ..|]. by intros H.
Qed.

End PageViewFilter.

(** The filter at work on the reference platform. *)
Lemma trackPageView_policy_witness :
  let w := initial_world (at_url "https://example.com/anything") "Anything" "" [] in
  let r := @trackPageView Reference.platform sample_env 0
             "https://example.com/anything" "initial_load" w in
  (calls_page w r ↔ policy_tracks sample_env "/anything")
  ∧ policy_tracks sample_env "/anything" ∧ ¬ policy_tracks sample_env "/a/b".
Proof.
  intros w r.
  destruct (@trackPageView_policy Reference.platform sample_env 0
              "https://example.com/anything" "initial_load" w "/anything" eq_refl)
    as (Hiff & _ & Hex).
  destruct (Hex eq_refl) as (_ & _ & Hany & Hab).
  split; [exact Hiff | split; [exact Hany | exact Hab]].
Defined.

(** ** Stepping through computations *)

Section Steps.
Context {P : Platform} (env : Env).

Lemma bind_Ok {A B} (m : M A) (k : A → M B) w a w1 :
  m w = Ok a w1 → bind m k w = k a w1.
Proof. intros H. unfold bind. by rewrite H. Qed.

Lemma bind_Ok_inv {A B} (m : M A) (k : A → M B) w b w' :
  bind m k w = Ok b w' → ∃ a w1, m w = Ok a w1 ∧ k a w1 = Ok b w'.
Proof. unfold bind. destruct (m w) as [a w1|e w1]; [eauto | discriminate]. Qed.

Lemma tracker_of_upd_tracker i f w :
  tracker_of (upd_tracker i f w) i = f (tracker_of w i).
Proof. unfold tracker_of, upd_tracker. simpl. by rewrite lookup_insert_eq. Qed.

Lemma removeAll_ok this l w :
  forEach l (fun e => removeEventListener e this) w
  = Ok tt (upd_clickListeners (remove_from this l) w).
Proof.
  revert w. induction l as [|e l IH]; intros w; simpl.
  - by destruct w.
  - unfold bind at 1. unfold removeEventListener at 1. unfold modify.
    by rewrite IH.
Qed.

(** [destroy] never throws, and ends in [after_destroy]. *)
Lemma destroy_eq this w : destroy this w = Ok tt (after_destroy this w).
Proof.
  unfold destroy.
  unfold bind at 1. unfold gets at 1. unfold bind at 1. rewrite removeAll_ok.
  unfold bind, gets, modify, ret. rewrite !tracker_of_upd_tracker.
  unfold after_destroy, upd_tracker, tracker_of.
  destruct w. simpl.
  destruct (default new_tracker (_ !! this)) as [els obs push repl pop ini].
  destruct obs, push, repl, pop; simpl;
    repeat (progress (rewrite ?lookup_insert_eq; simpl));
    rewrite ?insert_insert_eq; reflexivity.
Qed.

End Steps.

(** ** Teardown *)

Section Teardown.
Context {P : Platform} (env : Env).

Lemma after_destroy_idem this w :
  after_destroy this (after_destroy this w) = after_destroy this w.
Proof.
  unfold after_destroy, tracker_of. cbn.
  rewrite lookup_insert_eq. cbn.
  destruct (default new_tracker (trackers w !! this)) as [els obs push repl pop ini].
  cbn. rewrite elements_empty, insert_insert_eq. cbn.
  by destruct push, repl.
Qed.

(** C9. Two calls of [destroy] in a row both return: the second finds an
    empty membership set, no observer and no [popstate] handler, assigns the
    saved [history] methods once more, and leaves the page as the first call
    left it. *)
Theorem destroy_twice this w :
  ∃ w1, destroy this w = Ok tt w1 ∧ destroy this w1 = Ok tt w1.
Proof.
  exists (after_destroy this w). split; [apply destroy_eq|].
  by rewrite destroy_eq, after_destroy_idem.
Qed.

(** C10. [destroy] on a tracker that never saved the [history] methods and
    never installed a [popstate] handler returns, and leaves
    [history.pushState], [history.replaceState] and the [popstate] listeners
    of the window as they were. *)
Theorem destroy_uninitialized this w :
  originalPushState (tracker_of w this) = None →
  originalReplaceState (tracker_of w this) = None →
  popstateHandler (tracker_of w this) = None →
  ∃ w', destroy this w = Ok tt w'
        ∧ history_pushState w' = history_pushState w
        ∧ history_replaceState w' = history_replaceState w
        ∧ popstateListeners w' = popstateListeners w.
Proof.
  intros Hpush Hrepl Hpop. exists (after_destroy this w).
  split; [apply destroy_eq|]. unfold after_destroy. cbn.
  by rewrite Hpush, Hrepl, Hpop.
Qed.

End Teardown.

(** A tracker that was created and never initialized is destroyed. *)
Lemma destroy_uninitialized_witness :
  let w := world_of (getInstance home) in
  tracker_of w 0 = new_tracker
  ∧ ∃ w', destroy 0 w = Ok tt w'
          ∧ history_pushState w' = Native PushState
          ∧ history_replaceState w' = Native ReplaceState
          ∧ popstateListeners w' = [].
Proof.
  intros w. split; [reflexivity|].
  exact (destroy_uninitialized 0 w eq_refl eq_refl eq_refl).
Defined.

(** ** Click listeners *)

Section Listeners.
Context {P : Platform}.

Lemma preserves_ret {A} I (a : A) : preserves I (ret a).
Proof. by intros w Hw. Qed.

Lemma preserves_throw {A} I e : preserves I (@throw A e).
Proof. by intros w Hw. Qed.

Lemma preserves_gets {A} I (f : World → A) : preserves I (gets f).
Proof. by intros w Hw. Qed.

Lemma preserves_modify (I : World → Prop) f :
  (∀ w, I w → I (f w)) → preserves I (modify f).
Proof. intros Hf w Hw. by apply Hf. Qed.

Lemma preserves_bind {A B} I (m : M A) (k : A → M B) :
  preserves I m → (∀ a, preserves I (k a)) → preserves I (bind m k).
Proof.
  intros Hm Hk w Hw. specialize (Hm w Hw). unfold bind.
  destruct (m w) as [a w1|e w1]; simpl in *; [by apply Hk | done].
Qed.

Lemma preserves_forEach {A} I (l : list A) (f : A → M unit) :
  (∀ x, preserves I (f x)) → preserves I (forEach l f).
Proof.
  intros Hf. induction l as [|x l IH]; simpl.
  - apply preserves_ret.
  - apply preserves_bind; [apply Hf | intros _; apply IH].
Qed.

(** Attaching to one element. *)
Lemma attach_one_owns this e :
  preserves (owns this)
    (let* tracked := gets (fun w => trackedElements (tracker_of w this)) in
     if bool_decide (e ∈ tracked) then ret tt
     else
       addEventListener e this >>
       modify (upd_tracker this
                 (fun t => with_trackedElements ({[e]} ∪ trackedElements t) t))).
Proof.
  intros w Hw. unfold bind, gets.
  case_bool_decide as Hin; [done|].
  unfold addEventListener, modify. cbn [world_of].
  assert (listeners_of w e = []) as He.
  { rewrite (Hw e). by rewrite bool_decide_eq_false_2. }
  rewrite He. rewrite bool_decide_eq_false_2 by apply not_elem_of_nil.
  intros e'. rewrite tracker_of_upd_tracker. pose proof (Hw e') as He'.
  unfold upd_tracker, listeners_of, tracker_of in *. cbn.
  rewrite lookup_insert.
  destruct (decide (e = e')) as [<-|Hne].
  - rewrite bool_decide_eq_true_2 by set_solver. done.
  - rewrite He'. apply (f_equal (fun b : bool => if b then [this] else [])).
    apply bool_decide_ext. set_solver.
Qed.

Lemma attach_owns this l : preserves (owns this) (attachTrackingToElements this l).
Proof. apply preserves_forEach. intros e. apply attach_one_owns. Qed.

Lemma attachToOne_owns this e : preserves (owns this) (attachToOne this e).
Proof.
  unfold attachToOne. destruct (NodeList_of e); [apply attach_owns | apply preserves_throw].
Qed.

Lemma onAddedNode_owns this node : preserves (owns this) (onAddedNode this node).
Proof.
  destruct node as [id attrs kids|data]; [|apply preserves_ret].
  unfold onAddedNode. apply preserves_bind.
  - destruct (hasAttribute _ _); [apply attachToOne_owns | apply preserves_ret].
  - intros _. destruct (0 <? _); [apply attach_owns | apply preserves_ret].
Qed.

Lemma onMutation_owns this mutation : preserves (owns this) (onMutation this mutation).
Proof.
  destruct mutation as [added|name target attrs|]; simpl.
  - apply preserves_forEach. intros node. apply onAddedNode_owns.
  - destruct (String.eqb _ _); [|apply preserves_ret].
    destruct (hasAttribute _ _); [apply attachToOne_owns | apply preserves_ret].
  - apply preserves_ret.
Qed.

Lemma observerCallback_owns this mutations :
  preserves (owns this) (observerCallback this mutations).
Proof. apply preserves_forEach. intros m. apply onMutation_owns. Qed.

(** A batch reaches the callback of the tracker whose observer it is; the
    callback leaves the observers alone. *)
Lemma deliver_owns this o mutations :
  preserves (fun w => owns this w ∧ observers w !! o = Some this)
    (deliver o mutations).
Proof.
  intros w [Hw Ho]. unfold deliver. rewrite Ho.
  split; [by apply observerCallback_owns|].
  assert (preserves (fun w' => observers w' = observers w)
            (observerCallback this mutations)) as Hframe.
  { apply preserves_forEach. intros m.
    assert (∀ l, preserves (fun w' => observers w' = observers w)
                   (attachTrackingToElements this l)) as Hattach.
    { intros l. apply preserves_forEach. intros e.
      apply preserves_bind; [apply preserves_gets | intros tracked].
      destruct (bool_decide _); [apply preserves_ret|].
      apply preserves_bind; [|intros _; apply preserves_modify; by intros []].
      apply preserves_modify. intros w' Hw'. by destruct (bool_decide _), w'. }
    assert (∀ e, preserves (fun w' => observers w' = observers w)
                   (attachToOne this e)) as Hone.
    { intros e. unfold attachToOne.
      destruct (NodeList_of e); [apply Hattach | apply preserves_throw]. }
    destruct m as [added|name target attrs|]; cbn [onMutation].
    - apply preserves_forEach. intros [id attrs kids|data]; [|apply preserves_ret].
      unfold onAddedNode. apply preserves_bind.
      + destruct (hasAttribute _ _); [apply Hone | apply preserves_ret].
      + intros _. destruct (0 <? _); [apply Hattach | apply preserves_ret].
    - destruct (String.eqb _ _); [|apply preserves_ret].
      destruct (hasAttribute _ _); [apply Hone | apply preserves_ret].
    - apply preserves_ret. }
  by rewrite (Hframe w).
Qed.

Lemma setupObserver_owns this : preserves (owns this) (setupObserver this).
Proof.
  unfold setupObserver.
  apply preserves_bind; [apply preserves_gets | intros existing].
  apply preserves_bind; [apply attach_owns | intros _].
  apply preserves_bind; [apply preserves_gets | intros o].
  apply preserves_bind; [by apply preserves_modify | intros _].
  apply preserves_bind; [|intros _; by apply preserves_modify].
  apply preserves_modify. intros w Hw e.
  rewrite tracker_of_upd_tracker. cbn. apply (Hw e).
Qed.

Lemma remove_from_lookup this l m e :
  default [] (remove_from this l m !! e)
  = if bool_decide (e ∈ l)
    then filter (fun x => x ≠ this) (default [] (m !! e))
    else default [] (m !! e).
Proof.
  unfold remove_from. revert m. induction l as [|x l IH]; intros m; simpl.
  - done.
  - rewrite IH. rewrite lookup_insert.
    destruct (decide (x = e)) as [->|Hne].
    + rewrite (bool_decide_eq_true_2 (e ∈ e :: l)) by set_solver. cbn.
      case_bool_decide; [|done].
      by rewrite list_filter_filter, (list_filter_iff _ (fun x => x ≠ this)) by tauto.
    + rewrite (bool_decide_ext (e ∈ x :: l) (e ∈ l)) by set_solver. done.
Qed.

Lemma destroy_owns this : preserves (owns this) (destroy this).
Proof.
  intros w Hw e. rewrite destroy_eq. pose proof (Hw e) as He.
  unfold listeners_of, tracker_of, after_destroy in *. cbn.
  rewrite lookup_insert_eq. cbn.
  rewrite bool_decide_eq_false_2 by set_solver.
  rewrite remove_from_lookup, He. case_bool_decide as Hin.
  - rewrite bool_decide_eq_true_2 by (by apply elem_of_elements in Hin).
    rewrite filter_cons_False by tauto. done.
  - by case_bool_decide.
Qed.

Lemma owns_at_most_one this w e : owns this w → length (listeners_of w e) ≤ 1.
Proof. intros Hw. rewrite (Hw e). case_bool_decide; simpl; lia. Qed.

(** A tracked element is skipped by [attachTrackingToElements]. *)
Lemma attach_tracked_noop this e w :
  e ∈ trackedElements (tracker_of w this) →
  attachTrackingToElements this [e] w = Ok tt w.
Proof.
  intros Hin. cbn. unfold bind, gets. cbn.
  by rewrite bool_decide_eq_true_2.
Qed.

(** Nothing is attached on a freshly loaded page, so whichever tracker comes
    first owns its listeners. *)
Lemma initial_world_owns this loc title referrer doc :
  owns this (initial_world loc title referrer doc).
Proof. intros e. unfold listeners_of, tracker_of. cbn. by rewrite !lookup_empty. Qed.

(** After [destroy] no listener of the tracker is left anywhere. *)
Lemma destroy_leaves_none this w e :
  owns this w → listeners_of (world_of (destroy this w)) e = [].
Proof.
  intros Hw. rewrite (destroy_owns this w Hw e).
  rewrite destroy_eq. unfold tracker_of, after_destroy. cbn.
  rewrite lookup_insert_eq. cbn. by rewrite bool_decide_eq_false_2 by set_solver.
Qed.

End Listeners.

(** ** The click handler *)

Section ClickHandler.
Context {P : Platform} (env : Env).

Lemma trackingEvent_Ok this attrs w properties :
  JSON_parse (or_else (getAttribute attrs "data-rudderstack-props") "{}") = Some properties →
  trackingEvent env this attrs w
  = Ok tt (with_call
             (Track this (or_else (getAttribute attrs "data-rudderstack-event") "Element Clicked")
                (spread (common_properties env) (own_props properties))) w).
Proof. intros Hparse. unfold trackingEvent. by rewrite Hparse. Qed.

Lemma trackingEvent_Throw this attrs w :
  JSON_parse (or_else (getAttribute attrs "data-rudderstack-props") "{}") = None →
  trackingEvent env this attrs w = Throw SyntaxError w.
Proof. intros Hparse. unfold trackingEvent. by rewrite Hparse. Qed.

Lemma spread_lookup (a b : Props) k :
  spread a b !! k = match b !! k with Some v => Some v | None => a !! k end.
Proof.
  unfold spread. rewrite lookup_union.
  by destruct (b !! k), (a !! k).
Qed.

(** C4, as the code has it. A click on a tracked element whose properties
    text (the attribute, or ["{}"] when the attribute is absent or empty)
    parses as JSON emits exactly one [track] call: its event name is the
    value of the event-name attribute, or ["Element Clicked"] when that
    attribute is absent or empty, and its properties are the common
    properties overridden by the parsed ones. *)
Theorem click_emits_one_track this e attrs w properties :
  JSON_parse (or_else (getAttribute attrs "data-rudderstack-props") "{}") = Some properties →
  let name := or_else (getAttribute attrs "data-rudderstack-event") "Element Clicked" in
  let merged := spread (common_properties env) (own_props properties) in
  trackingEvent env this attrs w = Ok tt (with_call (Track this name merged) w)
  ∧ (listeners_of w e = [this] →
     click env e attrs w = ([], with_call (Track this name merged) w))
  ∧ (∀ k, merged !! k = match own_props properties !! k with
                        | Some v => Some v
                        | None => common_properties env !! k
                        end)
  ∧ (∀ v, getAttribute attrs "data-rudderstack-event" = Some v → v ≠ "" → name = v)
  ∧ (getAttribute attrs "data-rudderstack-event" = None
     ∨ getAttribute attrs "data-rudderstack-event" = Some "" → name = "Element Clicked")
  ∧ (getAttribute attrs "data-rudderstack-props" = None
     ∨ getAttribute attrs "data-rudderstack-props" = Some "" →
     JSON_parse "{}" = Some properties).
Proof.
  intros Hparse name merged. repeat split.
  - by apply trackingEvent_Ok.
  - intros Hl. unfold click. rewrite Hl. simpl.
    by rewrite (trackingEvent_Ok _ _ _ _ Hparse).
  - intros k. apply spread_lookup.
  - intros v Hv Hne. unfold name. rewrite Hv. by destruct v.
  - intros [H|H]; unfold name; by rewrite H.
  - intros [H|H]; by rewrite H in Hparse.
Qed.

(** C8. When the properties attribute holds text that [JSON.parse] rejects,
    the click handler throws the [SyntaxError] on: it does not catch it, puts
    no empty object in its place, and the SDK receives no [track] call. *)
Theorem malformed_props_propagate this e attrs text w :
  getAttribute attrs "data-rudderstack-props" = Some text →
  text ≠ "" →
  JSON_parse text = None →
  trackingEvent env this attrs w = Throw SyntaxError w
  ∧ (listeners_of w e = [this] → click env e attrs w = ([SyntaxError], w)).
Proof.
  intros Hattr Hne Hparse.
  assert (trackingEvent env this attrs w = Throw SyntaxError w) as Hthrow.
  { apply trackingEvent_Throw. rewrite Hattr. by destruct text. }
  split; [done|]. intros Hl. unfold click. rewrite Hl. simpl. by rewrite Hthrow.
Qed.

End ClickHandler.

(** A click on a button with a name and properties. *)
Lemma click_emits_one_track_witness :
  @trackingEvent Reference.platform sample_env 0 plan_button home
  = Ok tt (with_call
             (Track 0 "Upgrade"
                (spread (common_properties sample_env) {[ "plan" := JString "pro" ]}))
             home).
Proof.
  exact (proj1 (@click_emits_one_track Reference.platform sample_env 0 0 plan_button home
                  (JObject {[ "plan" := JString "pro" ]}) eq_refl)).
Defined.

(** An empty event-name attribute is present, yet the call carries the
    default name and not the value of the attribute; and a click on a button
    whose properties are not JSON emits no call at all. *)
Lemma click_event_name_counterexample :
  getAttribute unnamed_button "data-rudderstack-event" = Some ""
  ∧ (∃ properties,
       @trackingEvent Reference.platform sample_env 0 unnamed_button home
       = Ok tt (with_call (Track 0 "Element Clicked" properties) home))
  ∧ "Element Clicked" ≠ claimed_event_name unnamed_button
  ∧ @trackingEvent Reference.platform sample_env 0 broken_button home
    = Throw SyntaxError home.
Proof.
  split; [reflexivity|]. split.
  - eexists. reflexivity.
  - split; [discriminate | reflexivity].
Qed.

(** A click on a button whose properties are not JSON. *)
Lemma malformed_props_propagate_witness :
  Reference.parse "{oops" = None
  ∧ @trackingEvent Reference.platform sample_env 0 broken_button home
    = Throw SyntaxError home.
Proof.
  split; [reflexivity|].
  exact (proj1 (@malformed_props_propagate Reference.platform sample_env 0 0
                  broken_button "{oops" home eq_refl ltac:(discriminate) eq_refl)).
Defined.

(** ** Initialization and teardown *)

Section Lifecycle.
Context {P : Platform} (env : Env).

Lemma returns_ret {A} (a : A) : returns (ret a).
Proof. intros w. by exists a, w. Qed.
Lemma returns_gets {A} (f : World → A) : returns (gets f).
Proof. intros w. by exists (f w), w. Qed.
Lemma returns_modify f : returns (modify f).
Proof. intros w. by exists tt, (f w). Qed.
Lemma returns_bind {A B} (m : M A) (k : A → M B) :
  returns m → (∀ a, returns (k a)) → returns (bind m k).
Proof.
  intros Hm Hk w. destruct (Hm w) as (a & w1 & Hw1).
  destruct (Hk a w1) as (b & w2 & Hw2). exists b, w2.
  by rewrite (bind_Ok _ _ _ _ _ Hw1).
Qed.
Lemma returns_forEach {A} (l : list A) (f : A → M unit) :
  (∀ x, returns (f x)) → returns (forEach l f).
Proof.
  intros Hf. induction l as [|x l IH]; simpl.
  - apply returns_ret.
  - apply returns_bind; [apply Hf | intros _; apply IH].
Qed.

Lemma attach_returns this l : returns (attachTrackingToElements this l).
Proof.
  apply returns_forEach. intros e.
  apply returns_bind; [apply returns_gets | intros tracked].
  destruct (bool_decide _); [apply returns_ret|].
  apply returns_bind; [apply returns_modify | intros _; apply returns_modify].
Qed.

Lemma setupObserver_returns this : returns (setupObserver this).
Proof.
  unfold setupObserver.
  repeat (first [ apply returns_gets | apply returns_modify | apply attach_returns
                | apply returns_bind; [|intros ?] ]).
Qed.

Lemma trackPageView_eq this url source w p :
  URL_pathname url = Some p →
  trackPageView env this url source w
  = Ok tt (if shouldTrack env p
           then with_call (Page this (page_properties env w url p source)) w
           else w).
Proof. intros Hp. unfold trackPageView. rewrite Hp. by destruct (shouldTrack env p). Qed.

Lemma setupPageTracking_returns this w p :
  URL_pathname (href (location w)) = Some p →
  ∃ w', setupPageTracking env this w = Ok tt w'.
Proof.
  intros Hp. unfold setupPageTracking.
  unfold bind at 1. unfold gets at 1. 
  rewrite (bind_Ok _ _ _ _ _ (trackPageView_eq _ _ _ _ _ Hp)).
  unfold bind at 1. unfold gets at 1.
  match goal with |- ∃ w', (if ?b then _ else _) _ = _ => destruct b end.
  - eexists. reflexivity.
  - eexists. reflexivity.
Qed.

Lemma readyCallback_initialized this promise w w' :
  readyCallback env this promise w = Ok tt w' →
  isInitialized (tracker_of w' this) = true ∧ promises w' !! promise = Some true.
Proof.
  unfold readyCallback. intros H.
  apply bind_Ok_inv in H as (ini & w0 & Hini & H). 
  unfold gets in Hini. injection Hini as <- <-.
  apply bind_Ok_inv in H as ([] & w1 & H1 & H).
  unfold modify in H. injection H as <-.
  assert (isInitialized (tracker_of w1 this) = true) as Hi.
  { destruct (isInitialized (tracker_of w this)) eqn:Hw.
    - unfold ret in H1. by injection H1 as <-.
    - apply bind_Ok_inv in H1 as ([] & w2 & _ & H1).
      apply bind_Ok_inv in H1 as ([] & w3 & _ & H1).
      unfold modify in H1. injection H1 as <-.
      by rewrite tracker_of_upd_tracker. }
  split.
  - unfold tracker_of in *. by destruct w1.
  - destruct w1. cbn. by rewrite lookup_insert_eq.
Qed.


Lemma initialize_pending this w :
  isInitialized (tracker_of w this) = false →
  falsy (RUDDERSTACK_KEY env) = false → falsy (RUDDERSTACK_URL env) = false →
  ∃ w', initialize env this w = Ok (Pending (next_id w)) w'
        ∧ readyCallbacks w' = readyCallbacks w ++ [(this, next_id w)]
        ∧ location w' = location w.
Proof.
  intros Hi Hk Hu. unfold initialize, bind, gets, sdk_call, modify, ret.
  rewrite Hi, Hk, Hu. cbn. eexists. split; [reflexivity|]. by destruct w.
Qed.

Lemma fireReady_returns k this promise w p :
  readyCallbacks w !! k = Some (this, promise) →
  URL_pathname (href (location w)) = Some p →
  ∃ w', fireReady env k w = Ok tt w'.
Proof.
  intros Hk Hp. unfold fireReady. rewrite Hk. unfold readyCallback.
  unfold bind at 1. unfold gets at 1.
  match goal with |- context [if ?b then _ else _] => destruct b end.
  - unfold bind, ret, modify. eexists. reflexivity.
  - destruct (setupPageTracking_returns this (upd_readyCallbacks (delete k) w) p)
      as (w1 & Hw1); [by destruct w|].
    destruct (setupObserver_returns this w1) as ([] & w2 & Hw2).
    unfold bind. rewrite Hw1, Hw2. unfold modify. eexists. reflexivity.
Qed.

(** C2. [initialize] returns [false] without throwing when the tracker is
    already initialized, and when the write key or the endpoint URL is not
    set; a second call on a tracker whose first call went through (the SDK
    ran its readiness callback) returns [false] and leaves the page as it
    is, so no listener and no observer is added; with the configuration in
    place the first call does go through.  A readiness callback that finds
    the tracker initialized installs nothing either: it only resolves its
    promise. *)
Theorem initialize_fails_softly this w :
  (isInitialized (tracker_of w this) = true →
   initialize env this w = Ok (Settled false) w)
  ∧ (RUDDERSTACK_KEY env = None ∨ RUDDERSTACK_URL env = None →
     initialize env this w = Ok (Settled false) w)
  ∧ (∀ promise w1 k w2,
       initialize env this w = Ok (Pending promise) w1 →
       readyCallbacks w1 !! k = Some (this, promise) →
       fireReady env k w1 = Ok tt w2 →
       initialize env this w2 = Ok (Settled false) w2)
  ∧ (∀ p,
       isInitialized (tracker_of w this) = false →
       falsy (RUDDERSTACK_KEY env) = false →
       falsy (RUDDERSTACK_URL env) = false →
       URL_pathname (href (location w)) = Some p →
       ∃ promise w1 w2,
         initialize env this w = Ok (Pending promise) w1
         ∧ fireReady env (length (readyCallbacks w)) w1 = Ok tt w2
         ∧ initialize env this w2 = Ok (Settled false) w2)
  ∧ (∀ promise,
       isInitialized (tracker_of w this) = true →
       readyCallback env this promise w
       = Ok tt (upd_promises (insert promise true) w)).
Proof.
  assert (∀ w, isInitialized (tracker_of w this) = true →
               initialize env this w = Ok (Settled false) w) as Hinit.
  { intros w0 H. unfold initialize, bind, gets. by rewrite H. }
  split; [apply Hinit|]. split.
  - intros Hcfg. unfold initialize, bind, gets.
    destruct (isInitialized (tracker_of w this)); [done|].
    by destruct Hcfg as [-> | ->]; [|rewrite orb_true_r].
  - assert (∀ promise w1 k w2,
              readyCallbacks w1 !! k = Some (this, promise) →
              fireReady env k w1 = Ok tt w2 →
              initialize env this w2 = Ok (Settled false) w2) as Hsecond.
    { intros promise w1 k w2 Hk Hready. apply Hinit.
      unfold fireReady in Hready. rewrite Hk in Hready.
      apply readyCallback_initialized in Hready. tauto. }
    split; [|split].
    + intros promise w1 k w2 _. apply Hsecond.
    + intros p Hi Hkey Hurl Hp.
      destruct (initialize_pending this w Hi Hkey Hurl) as (w1 & Hw1 & Hcbs & Hloc).
      assert (readyCallbacks w1 !! length (readyCallbacks w) = Some (this, next_id w))
        as Hk by (rewrite Hcbs; apply list_lookup_middle; done).
      destruct (fireReady_returns _ _ _ w1 p Hk) as (w2 & Hw2); [by rewrite Hloc|].
      exists (next_id w), w1, w2. split; [done|]. split; [done|].
      by apply (Hsecond _ _ _ _ Hk).
    + intros promise Hi. unfold readyCallback, bind, gets. by rewrite Hi.
Qed.

(** C5. [destroy] returns and leaves no click listener of the tracker on
    the elements of its membership set, an empty set, no connected observer,
    the saved [history] methods back in place when they were saved, no
    [popstate] handler of the tracker on the window, the initialization flag
    and the singleton reference cleared; the next [getInstance] then makes a
    new tracker, on which [initialize] goes through once the SDK is ready. *)
Theorem destroy_full_teardown this w :
  ∃ w', destroy this w = Ok tt w'
    ∧ (∀ e, e ∈ trackedElements (tracker_of w this) → this ∉ listeners_of w' e)
    ∧ trackedElements (tracker_of w' this) = ∅
    ∧ (∀ o, mutationObserver (tracker_of w this) = Some o → observers w' !! o = None)
    ∧ mutationObserver (tracker_of w' this) = None
    ∧ (∀ f, originalPushState (tracker_of w this) = Some f → history_pushState w' = f)
    ∧ (∀ f, originalReplaceState (tracker_of w this) = Some f → history_replaceState w' = f)
    ∧ (∀ h, popstateHandler (tracker_of w this) = Some h → h ∉ popstateListeners w')
    ∧ popstateHandler (tracker_of w' this) = None
    ∧ isInitialized (tracker_of w' this) = false
    ∧ instance w' = None
    ∧ (∀ p, this < next_id w →
            falsy (RUDDERSTACK_KEY env) = false →
            falsy (RUDDERSTACK_URL env) = false →
            URL_pathname (href (location w)) = Some p →
        ∃ fresh w1 promise w2 w3,
          getInstance w' = Ok fresh w1
          ∧ fresh ≠ this
          ∧ instance w1 = Some fresh
          ∧ tracker_of w1 fresh = new_tracker
          ∧ initialize env fresh w1 = Ok (Pending promise) w2
          ∧ readyCallbacks w2 = readyCallbacks w ++ [(fresh, promise)]
          ∧ fireReady env (length (readyCallbacks w)) w2 = Ok tt w3
          ∧ promises w3 !! promise = Some true
          ∧ isInitialized (tracker_of w3 fresh) = true).
Proof.
  exists (after_destroy this w). split; [apply destroy_eq|].
  assert (tracker_of (after_destroy this w) this = torn_down (tracker_of w this)) as Ht.
  { unfold after_destroy, tracker_of. cbn. by rewrite lookup_insert_eq. }
  rewrite Ht.
  repeat split; try done.
  - intros e He. unfold listeners_of, after_destroy. cbn.
    rewrite remove_from_lookup.
    rewrite bool_decide_eq_true_2 by (by apply elem_of_elements).
    intros Hin. apply list_elem_of_filter in Hin. tauto.
  - intros o Ho. unfold after_destroy. cbn. rewrite Ho. apply lookup_delete_eq.
  - intros f Hf. unfold after_destroy. cbn. by rewrite Hf.
  - intros f Hf. unfold after_destroy. cbn. by rewrite Hf.
  - intros h Hh. unfold after_destroy. cbn. rewrite Hh.
    intros Hin. apply list_elem_of_filter in Hin. tauto.
  - intros p Hlt Hkey Hurl Hp.
    set (w' := after_destroy this w).
    set (w1 := upd_instance (fun _ => Some (next_id w))
                 (upd_trackers (insert (next_id w) new_tracker) (upd_next_id S w'))).
    assert (getInstance w' = Ok (next_id w) w1) as Hget by reflexivity.
    assert (tracker_of w1 (next_id w) = new_tracker) as Hnew.
    { unfold tracker_of, w1. cbn. by rewrite lookup_insert_eq. }
    destruct (initialize_pending (next_id w) w1) as (w2 & Hinit & Hcbs & Hloc);
      [by rewrite Hnew | done | done |].
    assert (readyCallbacks w2 !! length (readyCallbacks w) = Some (next_id w, next_id w1))
      as Hk.
    { rewrite Hcbs. cbn. by rewrite list_lookup_middle. }
    destruct (fireReady_returns _ _ _ w2 p Hk) as (w3 & Hfire).
    { by rewrite Hloc. }
    exists (next_id w), w1, (next_id w1), w2, w3.
    pose proof Hfire as Hfire'. unfold fireReady in Hfire'. rewrite Hk in Hfire'.
    apply readyCallback_initialized in Hfire' as [Hi Hp'].
    repeat split; try done. lia.
Qed.
End Lifecycle.

(** Without the write key the call returns [false]; with the configuration
    in place a second call returns [false] as well. *)
Lemma initialize_fails_softly_witness :
  initialize Scenario.no_key 0 Scenario.landing = Ok (Settled false) Scenario.landing
  ∧ initialize sample_env 0 Scenario.running = Ok (Settled false) Scenario.running.
Proof.
  split.
  - exact (proj1 (proj2 (@initialize_fails_softly Reference.platform Scenario.no_key 0
                           Scenario.landing))
             (or_introl eq_refl)).
  - apply (proj1 (proj2 (proj2 (@initialize_fails_softly Reference.platform sample_env 0
                                  (Scenario.exec getInstance Scenario.landing))))
             1 (Scenario.exec (initialize sample_env 0)
                  (Scenario.exec getInstance Scenario.landing)) 0).
    + vm_compute. reflexivity.
    + vm_compute. reflexivity.
    + vm_compute. reflexivity.
Defined.

(** The running tracker is destroyed and a second one is brought up. *)
Lemma destroy_full_teardown_witness :
  ∃ w', destroy 0 Scenario.running = Ok tt w'
        ∧ listeners_of Scenario.running 10 = [0]
        ∧ listeners_of w' 10 = []
        ∧ history_pushState w' = Bound (Native PushState)
        ∧ instance w' = None
        ∧ ∃ fresh w1 promise w2 w3,
            getInstance w' = Ok fresh w1
            ∧ fresh ≠ 0
            ∧ initialize sample_env fresh w1 = Ok (Pending promise) w2
            ∧ @fireReady Reference.platform sample_env 0 w2 = Ok tt w3
            ∧ promises w3 !! promise = Some true
            ∧ isInitialized (tracker_of w3 fresh) = true.
Proof.
  destruct (@destroy_full_teardown Reference.platform sample_env 0 Scenario.running)
    as (w' & Hd & _ & _ & _ & _ & Hpush & _ & _ & _ & _ & Hinst & Hnext).
  exists w'. split; [exact Hd|]. split; [vm_compute; reflexivity|].
  split; [rewrite destroy_eq in Hd; injection Hd as <-; vm_compute; reflexivity|].
  split; [apply Hpush; vm_compute; reflexivity|]. split; [exact Hinst|].
  destruct (Hnext "/") as
    (fresh & w1 & promise & w2 & w3 & H1 & H2 & _ & _ & H5 & _ & H7 & H8 & H9);
    [vm_compute; lia | reflexivity | reflexivity | vm_compute; reflexivity |].
  exists fresh, w1, promise, w2, w3. repeat split; assumption.
Defined.

(** ** Sessions *)

Section Session.
Context {P : Platform} (env : Env).

Lemma same_tracking_refl i w : same_tracking i w w.
Proof. by repeat split. Qed.

Lemma session_inv_frame i w w' :
  same_tracking i w w' → (instance w = Some i ∨ instance w = None) →
  session_inv w → session_inv w'.
Proof.
  intros (Hi & Hc & Hr & Ho & Ht & Hm & Hini) Hcase. unfold session_inv.
  rewrite Hi. destruct Hcase as [Hw | Hw]; rewrite Hw.
  - intros (Hown & Hcb & Hobs). split; [|split].
    + intros e. unfold listeners_of. rewrite Hc, Ht. apply Hown.
    + by rewrite Hr.
    + rewrite Ho, Hm, Hini. apply Hobs.
  - intros (Hl & Hcb & Hobs). unfold listeners_of in *. by rewrite Hc, Hr, Ho.
Qed.

Lemma untouched_same_tracking i w w' : untouched w w' → same_tracking i w w'.
Proof.
  intros (Hi & Ht & Hc & Hr & Ho). unfold same_tracking, tracker_of.
  by rewrite Hi, Ht, Hc, Hr, Ho.
Qed.

Lemma session_inv_untouched w w' : untouched w w' → session_inv w → session_inv w'.
Proof.
  intros Hu. destruct (instance w) as [i|] eqn:Hi.
  - apply (session_inv_frame i); [by apply untouched_same_tracking | by left].
  - apply (session_inv_frame 0); [by apply untouched_same_tracking | by right].
Qed.

Lemma preserves_run_tasks (I : World → Prop) tasks w :
  (∀ t, t ∈ tasks → preserves I t) → I w → I (snd (run_tasks tasks w)).
Proof.
  revert w. induction tasks as [|t tasks IH]; intros w Ht Hw; [done|].
  simpl. pose proof (Ht t ltac:(set_solver) w Hw) as Hstep.
  destruct (t w) as [[] w1|e w1]; simpl in Hstep.
  - apply IH; [set_solver | done].
  - specialize (IH w1 ltac:(set_solver) Hstep).
    by destruct (run_tasks tasks w1).
Qed.

Ltac frame_modify :=
  apply preserves_modify;
  let w' := fresh "w'" in
  intros w' (? & ? & ? & ? & ?); destruct w'; cbn in *; by repeat split.

Lemma sdk_call_untouched w0 c : preserves (untouched w0) (sdk_call c).
Proof. unfold sdk_call. frame_modify. Qed.

Lemma trackPageView_untouched w0 this url source :
  preserves (untouched w0) (trackPageView env this url source).
Proof.
  unfold trackPageView. destruct (URL_pathname url); [|apply preserves_throw].
  destruct (shouldTrack env s); [|apply preserves_ret].
  intros w Hw. by apply sdk_call_untouched.
Qed.

Lemma trackingEvent_untouched w0 this attrs :
  preserves (untouched w0) (trackingEvent env this attrs).
Proof.
  unfold trackingEvent. destruct (JSON_parse _); [|apply preserves_throw].
  apply sdk_call_untouched.
Qed.

Lemma navHook_untouched w0 c source : preserves (untouched w0) (navHook c source).
Proof.
  intros w (? & ? & ? & ? & ?). unfold navHook.
  destruct (_ && _); [|done]. destruct w; cbn in *. by repeat split.
Qed.

Lemma callHistFn_untouched w0 depth f target :
  preserves (untouched w0) (callHistFn depth f target).
Proof.
  revert f. induction depth as [|d IH]; intros f; [apply preserves_throw|].
  destruct f as [op|g|op c]; cbn [callHistFn].
  - frame_modify.
  - apply IH.
  - apply preserves_bind; [apply preserves_gets | intros [g|]];
      [|apply preserves_throw].
    apply preserves_bind; [apply IH | intros _; apply navHook_untouched].
Qed.

Lemma timerCallback_untouched w0 t : preserves (untouched w0) (timerCallback env t).
Proof.
  unfold timerCallback.
  apply preserves_bind; [apply preserves_gets | intros this].
  apply preserves_bind; [apply trackPageView_untouched | intros _].
  frame_modify.
Qed.


Lemma attach_frame_refl i w : attach_frame i w w.
Proof. by repeat split. Qed.

Lemma attach_keeps_frame i w0 l :
  preserves (attach_frame i w0) (attachTrackingToElements i l).
Proof.
  apply preserves_forEach. intros e.
  apply preserves_bind; [apply preserves_gets | intros tracked].
  destruct (bool_decide _); [apply preserves_ret|].
  apply preserves_bind.
  - apply preserves_modify. intros w (? & ? & ? & ? & ?).
    destruct (bool_decide _); [done|]. unfold tracker_of in *.
    destruct w; cbn in *. by repeat split.
  - intros _. apply preserves_modify. intros w (? & ? & ? & ? & ?).
    unfold attach_frame. rewrite tracker_of_upd_tracker.
    unfold upd_tracker. destruct w; cbn in *. by repeat split.
Qed.

Lemma observerCallback_keeps_frame i w0 mutations :
  preserves (attach_frame i w0) (observerCallback i mutations).
Proof.
  assert (∀ e, preserves (attach_frame i w0) (attachToOne i e)) as Hone.
  { intros e. unfold attachToOne.
    destruct (NodeList_of e); [apply attach_keeps_frame | apply preserves_throw]. }
  apply preserves_forEach. intros m.
  destruct m as [added|name target attrs|]; cbn [onMutation].
  - apply preserves_forEach. intros [id attrs kids|data]; [|apply preserves_ret].
    unfold onAddedNode. apply preserves_bind.
    + destruct (hasAttribute _ _); [apply Hone | apply preserves_ret].
    + intros _. destruct (0 <? _); [apply attach_keeps_frame | apply preserves_ret].
  - destruct (String.eqb _ _); [|apply preserves_ret].
    destruct (hasAttribute _ _); [apply Hone | apply preserves_ret].
  - apply preserves_ret.
Qed.

Lemma session_inv_attach i w w' :
  instance w = Some i → session_inv w → owns i w' → attach_frame i w w' →
  session_inv w'.
Proof.
  intros Hi Hinv Hown (Hi' & Hr & Ho & Hm & Hini).
  unfold session_inv in *. rewrite Hi', Hi. rewrite Hi in Hinv.
  destruct Hinv as (_ & Hcb & Hobs). split; [done|]. split.
  - by rewrite Hr.
  - rewrite Ho, Hm, Hini. apply Hobs.
Qed.

Lemma setupPageTracking_same_tracking w0 this :
  preserves (same_tracking this w0) (setupPageTracking env this).
Proof.
  assert (∀ f, (∀ t, trackedElements (f t) = trackedElements t
                     ∧ mutationObserver (f t) = mutationObserver t
                     ∧ isInitialized (f t) = isInitialized t) →
               preserves (same_tracking this w0) (modify (upd_tracker this f))) as Htr.
  { intros f Hf. apply preserves_modify. intros w (? & ? & ? & ? & ? & ? & ?).
    unfold same_tracking. rewrite tracker_of_upd_tracker.
    destruct (Hf (tracker_of w this)) as (-> & -> & ->).
    unfold upd_tracker. destruct w; cbn in *. by repeat split. }
  assert (∀ f, (∀ w, untouched w (f w)) →
               preserves (same_tracking this w0) (modify f)) as Hun.
  { intros f Hf. apply preserves_modify. intros w (? & ? & ? & ? & ? & ? & ?).
    destruct (untouched_same_tracking this _ _ (Hf w)) as (? & ? & ? & ? & ? & ? & ?).
    repeat split; congruence. }
  unfold setupPageTracking.
  apply preserves_bind; [apply preserves_gets | intros url].
  apply preserves_bind.
  { intros w Hw.
    pose proof (trackPageView_untouched w this url "initial_load" w
                  ltac:(by repeat split)) as Hu.
    destruct Hw as (? & ? & ? & ? & ? & ? & ?).
    destruct (untouched_same_tracking this _ _ Hu) as (? & ? & ? & ? & ? & ? & ?).
    repeat split; congruence. }
  intros _. apply preserves_bind; [apply preserves_gets | intros already].
  destruct already; [apply preserves_ret|].
  apply preserves_bind; [apply preserves_gets | intros closure].
  repeat (apply preserves_bind; [|intros _]).
  - apply Hun. intros w. by destruct w.
  - apply preserves_modify. intros w (? & ? & ? & ? & ? & ? & ?).
    unfold same_tracking, tracker_of in *. destruct w; cbn in *. by repeat split.
  - apply preserves_modify. intros w (? & ? & ? & ? & ? & ? & ?).
    unfold same_tracking. rewrite tracker_of_upd_tracker.
    unfold upd_tracker. destruct w; cbn in *. by repeat split.
  - apply preserves_modify. intros w (? & ? & ? & ? & ? & ? & ?).
    unfold same_tracking. rewrite tracker_of_upd_tracker.
    unfold upd_tracker. destruct w; cbn in *. by repeat split.
  - apply Hun. intros w. by destruct w.
  - apply Hun. intros w. by destruct w.
  - by apply Htr.
  - apply Hun. intros w. by destruct w.
  - apply Hun. intros w. by destruct w.
Qed.

Lemma getInstance_inv w : session_inv w → session_inv (world_of (getInstance w)).
Proof.
  intros Hinv. unfold getInstance, bind, gets. unfold session_inv in Hinv.
  destruct (instance w) as [i|] eqn:Hi; cbn.
  - unfold session_inv. by rewrite Hi.
  - destruct Hinv as (Hl & Hcb & Hobs). unfold session_inv.
    destruct w; cbn in *. subst. split; [|split].
    + intros e. unfold listeners_of, tracker_of in *. cbn.
      rewrite lookup_insert_eq. cbn. rewrite bool_decide_eq_false_2 by set_solver.
      apply Hl.
    + intros j p Hin. by apply elem_of_nil in Hin.
    + intros o j Ho. by rewrite lookup_empty in Ho.
Qed.

Lemma initialize_inv this w :
  instance w = Some this → session_inv w →
  session_inv (world_of (initialize env this w)).
Proof.
  intros Hi Hinv. unfold initialize, bind, gets.
  destruct (isInitialized (tracker_of w this)); [done|].
  destruct (falsy _ || falsy _); [done|].
  unfold sdk_call, modify, ret. cbn.
  unfold session_inv in *. destruct w; cbn in *. subst.
  destruct Hinv as (Hown & Hcb & Hobs). split; [|split]; [done| |done].
  intros j p [Hin | Hin%list_elem_of_singleton]%elem_of_app; [by eapply Hcb | congruence].
Qed.

Lemma destroy_inv this w :
  instance w = Some this → readyCallbacks w = [] → session_inv w →
  session_inv (world_of (destroy this w)).
Proof.
  intros Hi Hcb Hinv. unfold session_inv in Hinv. rewrite Hi in Hinv.
  destruct Hinv as (Hown & _ & Hobs).
  unfold session_inv. rewrite destroy_eq. cbn. split; [|split].
  - intros e. rewrite <- (destroy_leaves_none this w e Hown). by rewrite destroy_eq.
  - done.
  - apply map_eq. intros o. rewrite lookup_empty.
    destruct (mutationObserver (tracker_of w this)) as [o'|] eqn:Hm.
    + destruct (decide (o = o')) as [->|Hne]; [apply lookup_delete_eq|].
      rewrite lookup_delete_ne by done.
      destruct (observers w !! o) as [j|] eqn:Ho; [|done].
      destruct (Hobs o j Ho) as (_ & Hfield & _). congruence.
    + destruct (observers w !! o) as [j|] eqn:Ho; [|done].
      destruct (Hobs o j Ho) as (_ & Hfield & _). congruence.
Qed.

Lemma deliver_inv o mutations w :
  session_inv w → session_inv (world_of (deliver o mutations w)).
Proof.
  intros Hinv. unfold deliver.
  destruct (observers w !! o) as [j|] eqn:Ho; [|done].
  pose proof Hinv as Hinv'. unfold session_inv in Hinv'.
  destruct (instance w) as [i|] eqn:Hi.
  - destruct Hinv' as (Hown & _ & Hobs).
    destruct (Hobs o j Ho) as (-> & _).
    apply (session_inv_attach i w); [done | done | |].
    + by apply observerCallback_owns.
    + apply observerCallback_keeps_frame, attach_frame_refl.
  - destruct Hinv' as (_ & _ & Hobs). by rewrite Hobs, lookup_empty in Ho.
Qed.

Lemma fireReady_inv k w : session_inv w → session_inv (world_of (fireReady env k w)).
Proof.
  intros Hinv. unfold fireReady.
  destruct (readyCallbacks w !! k) as [[j p]|] eqn:Hk; [|done].
  apply list_elem_of_lookup_2 in Hk.
  set (wa := upd_readyCallbacks (delete k) w).
  assert (∃ i, instance wa = Some i ∧ j = i ∧ session_inv wa) as (i & Hi & -> & Ha).
  { unfold session_inv in *. destruct (instance w) as [i|] eqn:Hi.
    - exists i. destruct Hinv as (Hown & Hcb & Hobs).
      assert (instance wa = Some i) as Hia by (by destruct w).
      split; [done|]. split; [by eapply Hcb|]. rewrite Hia.
      split; [|split].
      + intros e. specialize (Hown e). by destruct w.
      + intros j' p' Hin. apply (Hcb j' p').
        apply (list_elem_of_delete_inv _ k). by destruct w.
      + intros o j' Ho. apply (Hobs o j'). by destruct w.
    - destruct Hinv as (_ & Hcb & _). rewrite Hcb in Hk. by apply elem_of_nil in Hk. }
  clearbody wa. clear Hinv Hk w. rename wa into w.
  unfold readyCallback. unfold bind at 1. unfold gets at 1.
  destruct (isInitialized (tracker_of w i)) eqn:Hini.
  { unfold bind, ret, modify. cbn [world_of].
    apply (session_inv_untouched w); [by destruct w | done]. }
  pose proof (setupPageTracking_same_tracking w i w (same_tracking_refl i w)) as Hsame.
  unfold bind at 1. unfold bind at 1.
  destruct (setupPageTracking env i w) as [[] w1|e w1]; cbn [world_of] in Hsame.
  2:{ cbn [world_of]. apply (session_inv_frame i w); [done | by left | done]. }
  assert (session_inv w1) as H1.
  { apply (session_inv_frame i w); [done | by left | done]. }
  destruct Hsame as (Hi1 & _ & _ & _ & _ & _ & Hini1).
  rewrite Hi in Hi1. rewrite Hini in Hini1. clear Ha Hi Hini w.
  unfold session_inv in H1. rewrite Hi1 in H1. destruct H1 as (Hown & Hcb & Hobs).
  unfold setupObserver. unfold bind at 1. unfold bind at 1. unfold gets at 1.
  unfold bind at 1.
  set (l := document_querySelectorAll (document w1)).
  pose proof (attach_owns i l w1 Hown) as Hown2.
  pose proof (attach_keeps_frame i w1 l w1 (attach_frame_refl i w1)) as Hframe.
  destruct (attach_returns i l w1) as ([] & w2 & Hattach).
  rewrite Hattach in *. cbn [world_of] in Hown2, Hframe.
  destruct Hframe as (Hi2 & Hcb2 & Hobs2 & _ & Hini2).
  unfold bind, gets, modify. cbn [world_of].
  unfold session_inv. 
  assert (∀ o, observers w2 !! o = None) as Hnone.
  { intros o. rewrite Hobs2. destruct (observers w1 !! o) as [j|] eqn:Ho; [|done].
    destruct (Hobs o j Ho) as (_ & _ & Htrue). congruence. }
  unfold owns, listeners_of, upd_tracker, tracker_of in *.
  destruct w2 as [ins flag nid trs nes loc ttl ref doc hps hrs pls cls obs nw tms sdk rcs prs].
  cbn in *. rewrite Hi2, Hi1. split; [|split].
  - intros e. rewrite !lookup_insert_eq. cbn. apply Hown2.
  - by rewrite Hcb2.
  - intros o j. rewrite !lookup_insert_eq. cbn.
    rewrite lookup_insert. case_decide as Ho; [|by rewrite Hnone].
    intros [= <-]. by subst.
Qed.

Lemma session_keeps_inv w : session env w → session_inv w.
Proof.
  induction 1 as [loc title referrer doc | w w' Hs IH Hstep].
  - unfold session_inv. cbn. by repeat split.
  - destruct Hstep.
    + by apply getInstance_inv.
    + by apply initialize_inv.
    + by apply fireReady_inv.
    + by apply deliver_inv.
    + by apply destroy_inv.
    + apply (session_inv_untouched w); [|done].
      apply (preserves_run_tasks (untouched w)); [|by repeat split].
      intros t [this [-> _]]%list_elem_of_fmap. apply trackingEvent_untouched.
    + apply (session_inv_untouched w); [|done].
      apply callHistFn_untouched. by repeat split.
    + apply (session_inv_untouched w); [|done]. unfold popstate.
      apply (preserves_run_tasks (untouched w)); [|by destruct w].
      intros t [c [-> _]]%list_elem_of_fmap. apply navHook_untouched.
    + apply (session_inv_untouched w); [|done]. unfold advance.
      apply (preserves_run_tasks (untouched w)); [|by destruct w].
      intros t [c [-> _]]%list_elem_of_fmap. apply timerCallback_untouched.
    + apply (session_inv_untouched w); [by destruct w | done].
Qed.


End Session.


(** ** Navigation *)

Section Navigation.
Context {P : Platform} (env : Env).

Lemma setupPageTracking_skip this w p :
  URL_pathname (href (location w)) = Some p →
  isPageTrackingSetup w = true →
  setupPageTracking env this w
  = Ok tt (after_page_view env this "initial_load" (href (location w)) p w).
Proof.
  intros Hp Hflag. unfold setupPageTracking.
  unfold bind at 1. unfold gets at 1.
  rewrite (bind_Ok _ _ _ _ _ (trackPageView_eq env _ _ _ _ _ Hp)).
  unfold bind at 1. unfold gets at 1. fold (after_page_view env this "initial_load" (href (location w)) p w).
  replace (isPageTrackingSetup (after_page_view env this "initial_load" (href (location w)) p w)) with true.
  - reflexivity.
  - unfold after_page_view. destruct (shouldTrack env p); by destruct w.
Qed.

Lemma setupPageTracking_install this w p :
  URL_pathname (href (location w)) = Some p →
  isPageTrackingSetup w = false →
  ∃ w', setupPageTracking env this w = Ok tt w'
    ∧ isPageTrackingSetup w' = true
    ∧ history_pushState w' = Patched PushState (next_id w)
    ∧ history_replaceState w' = Patched ReplaceState (next_id w)
    ∧ popstateListeners w'
      = (if bool_decide (next_id w ∈ popstateListeners w) then popstateListeners w
         else popstateListeners w ++ [next_id w])
    ∧ navEnv_of w' (next_id w)
      = {| nav_this := this; currentUrl := href (location w); isTracking := true |}
    ∧ originalPushState (tracker_of w' this) = Some (Bound (history_pushState w))
    ∧ originalReplaceState (tracker_of w' this) = Some (Bound (history_replaceState w))
    ∧ popstateHandler (tracker_of w' this) = Some (next_id w).
Proof.
  intros Hp Hflag. unfold setupPageTracking.
  unfold bind at 1. unfold gets at 1.
  rewrite (bind_Ok _ _ _ _ _ (trackPageView_eq env _ _ _ _ _ Hp)).
  set (w0 := if shouldTrack env p then _ else w).
  assert (∃ calls, w0 = upd_sdkCalls (fun _ => calls) w) as [calls ->].
  { unfold w0. destruct (shouldTrack env p).
    - eexists. unfold with_call. by destruct w.
    - exists (sdkCalls w). by destruct w. }
  unfold bind, gets, modify, ret. destruct w. cbn in *. subst.
  eexists. split; [reflexivity|].
  unfold upd_tracker, tracker_of, navEnv_of. cbn.
  rewrite !lookup_insert_eq. cbn.
  repeat split; reflexivity.
Qed.

(** C6, as the code has it. The class-level flag does not survive
    destruction: [destroy] resets it.  While it is set, [setupPageTracking]
    reports the initial page view and leaves [history.pushState],
    [history.replaceState], the [popstate] listeners and the tracker as they
    are, whichever tracker runs it; once [destroy] has reset it, the next
    [setupPageTracking] installs the interception again, as it does after
    every [destroy]. *)
Theorem page_tracking_flag this w p :
  URL_pathname (href (location w)) = Some p →
  (∃ w', destroy this w = Ok tt w' ∧ isPageTrackingSetup w' = false)
  ∧ (isPageTrackingSetup w = true →
     ∃ w', setupPageTracking env this w = Ok tt w'
       ∧ isPageTrackingSetup w' = true
       ∧ history_pushState w' = history_pushState w
       ∧ history_replaceState w' = history_replaceState w
       ∧ popstateListeners w' = popstateListeners w
       ∧ tracker_of w' this = tracker_of w this)
  ∧ (isPageTrackingSetup w = false →
     ∃ w', setupPageTracking env this w = Ok tt w'
       ∧ isPageTrackingSetup w' = true
       ∧ history_pushState w' = Patched PushState (next_id w)
       ∧ history_replaceState w' = Patched ReplaceState (next_id w)
       ∧ next_id w ∈ popstateListeners w'
       ∧ popstateHandler (tracker_of w' this) = Some (next_id w))
  ∧ (∀ next,
       ∃ w' w'', destroy this w = Ok tt w'
         ∧ setupPageTracking env next w' = Ok tt w''
         ∧ isPageTrackingSetup w'' = true
         ∧ history_pushState w'' = Patched PushState (next_id w)
         ∧ history_replaceState w'' = Patched ReplaceState (next_id w)).
Proof.
  intros Hp. split; [|split; [|split]]; cycle 3.
  { intros next.
    destruct (setupPageTracking_install next (after_destroy this w) p)
      as (w'' & Hw'' & H1 & H2 & H3 & _); [done | done |].
    exists (after_destroy this w), w''. split; [apply destroy_eq|]. by repeat split. }
  - exists (after_destroy this w). split; [apply destroy_eq | reflexivity].
  - intros Hflag. eexists. split; [by apply setupPageTracking_skip|].
    unfold after_page_view, with_call, tracker_of.
    destruct (shouldTrack env p); destruct w; cbn in *; by subst.
  - intros Hflag.
    destruct (setupPageTracking_install this w p Hp Hflag)
      as (w' & Hw' & H1 & H2 & H3 & H4 & _ & _ & _ & H8).
    exists w'. repeat split; try done.
    rewrite H4. case_bool_decide; [done|]. set_solver.
Qed.

Lemma callHistFn_native depth g target w :
  native_within depth g = true →
  callHistFn depth g target w = Ok tt (upd_location (fun _ => target) w).
Proof.
  revert g. induction depth as [|d IH]; intros g Hg; [done|].
  destruct g as [op|g|op c]; simpl in *; [done | by apply IH | done].
Qed.

Lemma navHook_gate closure source w :
  href (location w) = currentUrl (navEnv_of w closure)
  ∨ isTracking (navEnv_of w closure) = false →
  navHook closure source w = Ok tt w.
Proof.
  intros H. unfold navHook.
  destruct H as [-> | ->]; [by rewrite String.eqb_refl | by rewrite andb_false_r].
Qed.

Lemma navHook_open closure source w :
  href (location w) ≠ currentUrl (navEnv_of w closure) →
  isTracking (navEnv_of w closure) = true →
  navHook closure source w = Ok tt (scheduled closure source w).
Proof.
  intros Hne Hopen. unfold navHook. rewrite Hopen.
  destruct (String.eqb_spec (href (location w)) (currentUrl (navEnv_of w closure))); done.
Qed.

(** A call of the replaced method whose saved original is the browser's. *)
Lemma history_call_patched op closure g depth target w :
  (match op with
   | PushState => history_pushState w
   | ReplaceState => history_replaceState w
   end) = Patched op closure →
  original_of op (tracker_of w (nav_this (navEnv_of w closure))) = Some g →
  stack_depth = S depth → native_within depth g = true →
  history_call op target w
  = navHook closure (source_of op) (upd_location (fun _ => target) w).
Proof.
  intros Hf Hg Hd Hn. unfold history_call. rewrite Hf, Hd. cbn [callHistFn].
  unfold bind at 1. unfold gets at 1. rewrite Hg.
  by rewrite (bind_Ok _ _ _ _ _ (callHistFn_native depth g target w Hn)).
Qed.

Lemma advance_early dt t w :
  timers w = [t] → now w + dt < due t →
  advance env dt w = ([], upd_now (fun n => n + dt) w).
Proof.
  intros Ht Hlt. unfold advance. destruct w. cbn in *. subst.
  rewrite filter_cons_False by lia. rewrite filter_cons_True by lia. done.
Qed.

Lemma advance_due dt t w p :
  timers w = [t] → due t ≤ now w + dt →
  URL_pathname (timer_url t) = Some p →
  ∃ w', advance env dt w = ([], w')
    ∧ sdkCalls w'
      = sdkCalls (after_page_view env (nav_this (navEnv_of w (timer_env t)))
                    (timer_source t) (timer_url t) p w)
    ∧ timers w' = []
    ∧ isTracking (navEnv_of w' (timer_env t)) = true
    ∧ currentUrl (navEnv_of w' (timer_env t)) = currentUrl (navEnv_of w (timer_env t)).
Proof.
  intros Ht Hle Hp. unfold advance. destruct w. cbn in *. subst.
  rewrite filter_cons_True by lia. rewrite filter_cons_False by lia. cbn.
  rewrite (bind_Ok _ _ _ _ _ (trackPageView_eq env _ _ _ _ _ Hp)).
  unfold modify. eexists. split; [reflexivity|].
  unfold after_page_view, with_call, navEnv_of.
  destruct (shouldTrack env p); cbn; rewrite lookup_insert_eq; done.
Qed.

Lemma page_properties_lookup w url p source :
  page_properties env w url p source !! "source" = Some (JString source)
  ∧ page_properties env w url p source !! "url" = Some (JString url)
  ∧ page_properties env w url p source !! "path" = Some (JString p).
Proof.
  unfold page_properties, spread, common_properties.
  repeat split; rewrite lookup_union; by simplify_map_eq.
Qed.

Lemma sdkCalls_with_call c w : sdkCalls (with_call c w) = sdkCalls w ++ [c].
Proof. by destruct w. Qed.

Lemma popstate_single closure target w :
  popstateListeners w = [closure] →
  popstate target w
  = ([], world_of (navHook closure "popstate" (upd_location (fun _ => target) w))).
Proof.
  intros Hl. unfold popstate.
  replace (popstateListeners (upd_location (fun _ => target) w)) with [closure]
    by (by destruct w).
  cbn [map run_tasks]. unfold navHook.
  by destruct (_ && _).
Qed.

End Navigation.

(** The flag is reset by [destroy]: a set-up by a second tracker leaves the
    interception alone while the first runs, and installs it once the first
    is destroyed. *)
Lemma page_tracking_flag_witness :
  (∃ w', destroy 0 Scenario.running = Ok tt w' ∧ isPageTrackingSetup w' = false)
  ∧ (∃ w', @setupPageTracking Reference.platform sample_env 4 Scenario.running = Ok tt w'
           ∧ history_pushState w' = Patched PushState 2)
  ∧ (∃ w', @setupPageTracking Reference.platform sample_env 4 Scenario.stopped = Ok tt w'
           ∧ history_pushState w' = Patched PushState 4).
Proof.
  destruct (@page_tracking_flag Reference.platform sample_env 4 Scenario.running "/")
    as (_ & Hset & _); [vm_compute; reflexivity|].
  destruct (@page_tracking_flag Reference.platform sample_env 0 Scenario.running "/")
    as (Hdestroy & _ & _); [vm_compute; reflexivity|].
  destruct (@page_tracking_flag Reference.platform sample_env 4 Scenario.stopped "/")
    as (_ & _ & Hreset & _); [vm_compute; reflexivity|].
  split; [exact Hdestroy|]. split.
  - destruct Hset as (w' & Hw' & _ & Hpush & _); [vm_compute; reflexivity|].
    exists w'. split; [exact Hw'|]. rewrite Hpush. vm_compute. reflexivity.
  - destruct Hreset as (w' & Hw' & _ & Hpush & _); [vm_compute; reflexivity|].
    exists w'. split; [exact Hw'|]. rewrite Hpush. vm_compute. reflexivity.
Defined.

(** The flag is set while the first tracker runs and cleared by its
    [destroy], which also puts the browser's [pushState] back; the tracker
    made afterwards replaces [pushState] anew, with closures of its own. *)
Lemma page_tracking_flag_counterexample :
  isPageTrackingSetup Scenario.running = true
  ∧ history_pushState Scenario.running = Patched PushState 2
  ∧ isPageTrackingSetup Scenario.stopped = false
  ∧ history_pushState Scenario.stopped = Bound (Native PushState)
  ∧ instance Scenario.restarted = Some 4
  ∧ history_pushState Scenario.restarted = Patched PushState 6
  ∧ nav_this (navEnv_of Scenario.restarted 6) = 4
  ∧ popstateListeners Scenario.restarted = [6].
Proof. vm_compute. repeat split. Qed.


(** * Further properties of the tracker *)

Section Singleton.

(** X1. [getInstance] hands out one tracker: it returns, leaves the tracker
    it returned in [instance], and a second call returns the same tracker
    without changing the state.  When an instance exists the state is
    untouched; when none exists the tracker is a new object, as its
    constructor leaves it, and the other trackers are as before. *)
Theorem getInstance_singleton w :
  ∃ this w1,
    getInstance w = Ok this w1
    ∧ instance w1 = Some this
    ∧ getInstance w1 = Ok this w1
    ∧ (∀ i, instance w = Some i → this = i ∧ w1 = w)
    ∧ (instance w = None →
       this = next_id w ∧ next_id w1 = S (next_id w)
       ∧ tracker_of w1 this = new_tracker
       ∧ ∀ i, i ≠ this → tracker_of w1 i = tracker_of w i).
Proof.
  unfold getInstance, bind, gets, modify, ret.
  destruct (instance w) as [i|] eqn:Hi.
  - exists i, w. rewrite Hi. naive_solver.
  - eexists _, _. split; [reflexivity|]. cbn. repeat split; try done.
    + unfold tracker_of. cbn. by rewrite lookup_insert_eq.
    + intros i Hne. unfold tracker_of. cbn. by rewrite lookup_insert_ne.
Qed.

End Singleton.

Section Attach.
Context {P : Platform}.

Lemma same_page_refl w : same_page w w.
Proof. by destruct w. Qed.

Lemma same_page_trans w1 w2 w3 : same_page w1 w2 → same_page w2 w3 → same_page w1 w3.
Proof.
  unfold same_page. destruct w1, w2, w3; cbn. intros [=] [=]. by simplify_eq.
Qed.

Lemma with_trackedElements_same t : with_trackedElements (trackedElements t) t = t.
Proof. by destruct t. Qed.

Lemma attached_nil this w : attached this [] w w.
Proof.
  split; [apply same_page_refl|]. split.
  - intros i. case_bool_decide; [subst|done].
    rewrite list_to_set_nil, (right_id_L ∅ (∪)). by rewrite with_trackedElements_same.
  - intros e. rewrite bool_decide_eq_false_2; [done|]. intros [H _]. by apply elem_of_nil in H.
Qed.

Lemma attach_cons this e l w :
  attachTrackingToElements this (e :: l) w
  = if bool_decide (e ∈ trackedElements (tracker_of w this))
    then attachTrackingToElements this l w
    else attachTrackingToElements this l
           (upd_tracker this
              (fun t => with_trackedElements ({[e]} ∪ trackedElements t) t)
              (if bool_decide (this ∈ listeners_of w e) then w
               else upd_clickListeners (insert e (listeners_of w e ++ [this])) w)).
Proof.
  unfold attachTrackingToElements at 1. cbn [forEach]. unfold bind at 1 2, gets.
  case_bool_decide; [done|]. unfold bind, addEventListener, modify. done.
Qed.

Lemma tracker_of_upd_tracker_ne i j f w :
  i ≠ j → tracker_of (upd_tracker i f w) j = tracker_of w j.
Proof. intros. unfold tracker_of, upd_tracker. cbn. by rewrite lookup_insert_ne. Qed.

Lemma tracker_of_clickListeners f w i :
  tracker_of (upd_clickListeners f w) i = tracker_of w i.
Proof. done. Qed.

Lemma listeners_of_upd_tracker i f w e :
  listeners_of (upd_tracker i f w) e = listeners_of w e.
Proof. done. Qed.

Lemma attach_step this e w :
  e ∉ trackedElements (tracker_of w this) →
  attached this [e] w
    (upd_tracker this
       (fun t => with_trackedElements ({[e]} ∪ trackedElements t) t)
       (if bool_decide (this ∈ listeners_of w e) then w
        else upd_clickListeners (insert e (listeners_of w e ++ [this])) w)).
Proof.
  intros He. split; [|split].
  - unfold same_page. case_bool_decide; by destruct w.
  - intros i. destruct (decide (i = this)) as [->|Hi].
    + rewrite (bool_decide_eq_true_2 (this = this)) by done. rewrite tracker_of_upd_tracker.
      replace (tracker_of (if bool_decide (this ∈ listeners_of w e) then w
                 else upd_clickListeners (insert e (listeners_of w e ++ [this])) w) this)
        with (tracker_of w this) by (by case_bool_decide).
      cbn. f_equal. set_solver.
    + rewrite (bool_decide_eq_false_2 (i = this)) by done.
      rewrite tracker_of_upd_tracker_ne by done. by case_bool_decide.
  - intros e'. rewrite listeners_of_upd_tracker. unfold add_listener.
    destruct (decide (e' = e)) as [->|Hne].
    + rewrite (bool_decide_eq_true_2 (e ∈ [e] ∧ _)) by (split; [set_solver|done]).
      case_bool_decide; [done|]. unfold listeners_of at 1. cbn. by rewrite lookup_insert_eq.
    + rewrite (bool_decide_eq_false_2 (e' ∈ [e] ∧ _)) by set_solver.
      case_bool_decide; [done|]. unfold listeners_of at 1. cbn. by rewrite lookup_insert_ne.
Qed.

Lemma attached_cons this e l w w1 w' :
  attached this [e] w w1 → attached this l w1 w' → attached this (e :: l) w w'.
Proof.
  intros (Hp1 & Ht1 & Hl1) (Hp2 & Ht2 & Hl2). split; [|split].
  - by eapply same_page_trans.
  - intros i. rewrite Ht2. case_bool_decide as Hi; [subst|].
    + rewrite Ht1, (bool_decide_eq_true_2 (this = this)) by done. cbn. f_equal. set_solver.
    + by rewrite Ht1, (bool_decide_eq_false_2 (i = this)).
  - intros e'. rewrite Hl2, Hl1. rewrite !Ht1, (bool_decide_eq_true_2 (this = this)) by done.
    cbn.
    destruct (decide (e' = e)) as [->|Hne].
    + rewrite (bool_decide_eq_false_2 (e ∈ l ∧ _)) by set_solver.
      apply (f_equal (fun b : bool => if b then _ else _)), bool_decide_ext. set_solver.
    + rewrite (bool_decide_eq_false_2 (e' ∈ [e] ∧ _)) by set_solver.
      apply (f_equal (fun b : bool => if b then _ else _)), bool_decide_ext. set_solver.
Qed.

Lemma attached_tracked this e l w w' :
  e ∈ trackedElements (tracker_of w this) → attached this l w w' →
  attached this (e :: l) w w'.
Proof.
  intros He (Hp & Ht & Hl). split; [done|split].
  - intros i. rewrite Ht. case_bool_decide; [|done]. f_equal. set_solver.
  - intros e'. rewrite Hl.
    apply (f_equal (fun b : bool => if b then _ else _)), bool_decide_ext. set_solver.
Qed.

(** [attachTrackingToElements] returns, and what it leaves. *)
Lemma attach_spec this l w :
  ∃ w', attachTrackingToElements this l w = Ok tt w' ∧ attached this l w w'.
Proof.
  revert w. induction l as [|e l IH]; intros w.
  - exists w. split; [done|apply attached_nil].
  - rewrite attach_cons. case_bool_decide as He.
    + destruct (IH w) as (w' & -> & H). exists w'. split; [done|]. by apply attached_tracked.
    + match goal with |- context [attachTrackingToElements this l ?w1] =>
        destruct (IH w1) as (w' & -> & H) end.
      exists w'. split; [done|]. eapply attached_cons; [|done]. by apply attach_step.
Qed.

Lemma attached_listens this l w w' :
  attached this l w w' → listens this w → listens this w'.
Proof.
  intros (_ & Ht & Hl) H e. rewrite Ht, (bool_decide_eq_true_2 (this = this)) by done.
  cbn. rewrite Hl. intros He. unfold add_listener.
  case_bool_decide as Hd.
  - case_bool_decide; [done|]. set_solver.
  - assert (e ∈ trackedElements (tracker_of w this)) as Hin.
    { apply elem_of_union in He as [|He]; [done|].
      apply elem_of_list_to_set in He. destruct (decide (e ∈ trackedElements (tracker_of w this)));
        [done|]. destruct Hd. done. }
    by apply H.
Qed.

Lemma attached_covers this l w w' e :
  attached this l w w' → listens this w → e ∈ l →
  e ∈ trackedElements (tracker_of w' this) ∧ this ∈ listeners_of w' e.
Proof.
  intros Ha H He.
  assert (e ∈ trackedElements (tracker_of w' this)) as Hin.
  { destruct Ha as (_ & Ht & _).
    rewrite Ht, (bool_decide_eq_true_2 (this = this)) by done. cbn. set_solver. }
  split; [done|]. by apply (attached_listens this l w w').
Qed.

Lemma add_listener_prefix this ls : ls `prefix_of` add_listener this ls.
Proof. unfold add_listener. case_bool_decide; [done|]. by apply prefix_app_r. Qed.

Lemma attached_grows this l w w' : attached this l w w' → grows w w'.
Proof.
  intros (_ & Ht & Hl). split.
  - intros e. rewrite Hl. case_bool_decide; [apply add_listener_prefix|done].
  - intros i. rewrite Ht. case_bool_decide; [subst; cbn; set_solver|done].
Qed.

Lemma grows_refl w : grows w w.
Proof. by split. Qed.

Lemma grows_trans w1 w2 w3 : grows w1 w2 → grows w2 w3 → grows w1 w3.
Proof.
  intros [H1 H1'] [H2 H2']. split; intros x.
  - etrans; [apply H1|apply H2].
  - etrans; [apply H1'|apply H2'].
Qed.

Lemma attach_grows w0 this l :
  preserves (grows w0) (attachTrackingToElements this l).
Proof.
  intros w Hw. destruct (attach_spec this l w) as (w' & -> & Ha). cbn.
  eapply grows_trans; [done|]. by eapply attached_grows.
Qed.

Lemma attachToOne_grows w0 this e : preserves (grows w0) (attachToOne this e).
Proof.
  unfold attachToOne. destruct (NodeList_of e); [apply attach_grows|apply preserves_throw].
Qed.

Lemma observerCallback_grows w0 this mutations :
  preserves (grows w0) (observerCallback this mutations).
Proof.
  apply preserves_forEach. intros [nodes|name target attrs|]; cbn [onMutation].
  - apply preserves_forEach. intros [id attrs kids|data]; [|apply preserves_ret].
    unfold onAddedNode. apply preserves_bind.
    + destruct (hasAttribute attrs tracking_attr);
        [apply attachToOne_grows|apply preserves_ret].
    + intros _. destruct (0 <? _); [apply attach_grows|apply preserves_ret].
  - destruct (String.eqb name tracking_attr); [|apply preserves_ret].
    destruct (hasAttribute attrs tracking_attr);
      [apply attachToOne_grows|apply preserves_ret].
  - apply preserves_ret.
Qed.

Lemma grows_modify_other w0 f :
  (∀ w, clickListeners (f w) = clickListeners w) →
  (∀ w i, trackedElements (tracker_of (f w) i) = trackedElements (tracker_of w i)) →
  preserves (grows w0) (modify f).
Proof.
  intros Hc Ht. apply preserves_modify. intros w [H1 H2]. split.
  - intros e. unfold listeners_of. rewrite Hc. apply H1.
  - intros i. rewrite Ht. apply H2.
Qed.

Lemma tracker_of_with i w f :
  (∀ t, trackedElements (f t) = trackedElements t) →
  ∀ j, trackedElements (tracker_of (upd_tracker i f w) j) = trackedElements (tracker_of w j).
Proof.
  intros Hf j. destruct (decide (i = j)) as [->|Hne].
  - by rewrite tracker_of_upd_tracker.
  - by rewrite tracker_of_upd_tracker_ne.
Qed.

Lemma setupObserver_grows w0 this : preserves (grows w0) (setupObserver this).
Proof.
  unfold setupObserver. apply preserves_bind; [apply preserves_gets|]. intros l.
  apply preserves_bind; [apply attach_grows|]. intros _.
  apply preserves_bind; [apply preserves_gets|]. intros o.
  apply preserves_bind; [by apply grows_modify_other|]. intros _.
  apply preserves_bind; [|intros _; by apply grows_modify_other].
  apply grows_modify_other; [done|]. intros w. by apply tracker_of_with.
Qed.

(** X3. Attachment, the scan of [setupObserver], the observer callback and
    a delivery to an observer never take a listener off and never drop an
    element from a membership set, whether they return or throw: the
    listeners of every element before are a prefix of its listeners after,
    and every membership set is included in what it becomes. *)
Theorem tracking_only_adds this :
  (∀ l w, grows w (world_of (attachTrackingToElements this l w)))
  ∧ (∀ w, grows w (world_of (setupObserver this w)))
  ∧ (∀ mutations w, grows w (world_of (observerCallback this mutations w)))
  ∧ (∀ o mutations w, grows w (world_of (deliver o mutations w))).
Proof.
  split; [|split; [|split]].
  - intros l w. apply attach_grows, grows_refl.
  - intros w. apply setupObserver_grows, grows_refl.
  - intros ms w. apply observerCallback_grows, grows_refl.
  - intros o ms w. unfold deliver. destruct (observers w !! o); [|apply grows_refl].
    apply observerCallback_grows, grows_refl.
Qed.

End Attach.

Section Observer.
Context {P : Platform}.

Lemma forEach_app {A} (l1 l2 : list A) (f : A → M unit) w :
  forEach (l1 ++ l2) f w = (forEach l1 f >> forEach l2 f) w.
Proof.
  revert w. induction l1 as [|x l1 IH]; intros w; [done|].
  cbn [app forEach]. unfold bind. destruct (f x w) as [[] w1|e w1]; [|done].
  rewrite IH. done.
Qed.

Lemma forEach_flat_map {A B} (l : list A) (g : A → list B) (f : B → M unit) w :
  forEach (flat_map g l) f w = forEach l (fun x => forEach (g x) f) w.
Proof.
  revert w. induction l as [|x l IH]; intros w; [done|].
  cbn [flat_map forEach]. rewrite forEach_app. unfold bind.
  destruct (forEach (g x) f w) as [[] w1|e w1]; [apply IH|done].
Qed.

Lemma attach_app this l1 l2 w :
  attachTrackingToElements this (l1 ++ l2) w
  = (attachTrackingToElements this l1 >> attachTrackingToElements this l2) w.
Proof. apply forEach_app. Qed.

Lemma matching_element id attrs kids :
  matching (ElementNode id attrs kids)
  = (if hasAttribute attrs tracking_attr then [id] else [])
    ++ querySelectorAll (ElementNode id attrs kids).
Proof. reflexivity. Qed.

Lemma onAddedNode_attach this node w :
  (∀ e, e ∈ wrapped_node node → NodeList_of e = Some [e]) →
  onAddedNode this node w = attachTrackingToElements this (matching node) w.
Proof.
  destruct node as [id attrs kids|data]; [|done]. intros Hb.
  rewrite matching_element, attach_app. unfold onAddedNode, attachToOne. unfold bind.
  cbn [wrapped_node] in Hb.
  destruct (hasAttribute attrs tracking_attr).
  - rewrite Hb by set_solver.
    destruct (attachTrackingToElements this [id] w) as [[] w1|e w1]; [|done].
    destruct (querySelectorAll _) as [|x l]; done.
  - change (attachTrackingToElements this [] w) with (Ok tt w). unfold ret at 1.
    destruct (querySelectorAll _) as [|x l]; done.
Qed.

Lemma onMutation_attach this mutation w :
  (∀ e, e ∈ wrapped mutation → NodeList_of e = Some [e]) →
  onMutation this mutation w = attachTrackingToElements this (added mutation) w.
Proof.
  destruct mutation as [nodes|name target attrs|]; cbn [onMutation added wrapped];
    [| |done].
  - unfold attachTrackingToElements. rewrite forEach_flat_map.
    revert w. induction nodes as [|n nodes IH]; intros w Hb; [done|].
    cbn [forEach]. unfold bind. rewrite onAddedNode_attach.
    + unfold attachTrackingToElements.
      destruct (forEach (matching n) _ w) as [[] w1|e w1]; [|done].
      apply IH. intros e He. apply Hb. cbn [flat_map]. set_solver.
    + intros e He. apply Hb. cbn [flat_map]. set_solver.
  - intros Hb. destruct (String.eqb name tracking_attr); [|done].
    destruct (hasAttribute attrs tracking_attr); [|done].
    unfold attachToOne. rewrite Hb; [done|]. cbn. set_solver.
Qed.

Lemma observerCallback_attach this mutations w :
  (∀ e, e ∈ flat_map wrapped mutations → NodeList_of e = Some [e]) →
  observerCallback this mutations w
  = attachTrackingToElements this (flat_map added mutations) w.
Proof.
  unfold observerCallback, attachTrackingToElements. rewrite forEach_flat_map.
  revert w. induction mutations as [|m ms IH]; intros w Hb; [done|].
  cbn [forEach]. unfold bind. rewrite onMutation_attach.
  - unfold attachTrackingToElements.
    destruct (forEach (added m) _ w) as [[] w1|e w1]; [|done].
    apply IH. intros e He. apply Hb. cbn [flat_map]. set_solver.
  - intros e He. apply Hb. cbn [flat_map]. set_solver.
Qed.

Lemma attach_known this l w :
  (∀ e, e ∈ l → e ∈ trackedElements (tracker_of w this)) →
  attachTrackingToElements this l w = Ok tt w.
Proof.
  induction l as [|e l IH]; intros H; [done|].
  rewrite attach_cons, bool_decide_eq_true_2 by (apply H; set_solver).
  apply IH. intros e' He'. apply H. set_solver.
Qed.

(** X2. [attachTrackingToElements] is idempotent: it returns, and run again
    on the same list, or on any list of elements taken from it, it returns
    the state unchanged. *)
Theorem attach_idempotent this l w :
  ∃ w', attachTrackingToElements this l w = Ok tt w'
    ∧ attachTrackingToElements this l w' = Ok tt w'
    ∧ (∀ l', l' ⊆ l → attachTrackingToElements this l' w' = Ok tt w').
Proof.
  destruct (attach_spec this l w) as (w' & Hw' & Ha). exists w'. split; [done|].
  assert (∀ l', l' ⊆ l → attachTrackingToElements this l' w' = Ok tt w') as Hsub.
  { intros l' Hl'. apply attach_known. intros e He. destruct Ha as (_ & Ht & _).
    rewrite Ht, (bool_decide_eq_true_2 (this = this)) by done. cbn.
    apply elem_of_union_r, elem_of_list_to_set. by apply Hl'. }
  split; [by apply Hsub|done].
Qed.

(** X4. [setupObserver] on a tracker whose listener sits on every element of
    its membership set: it returns, every element of the document that
    carries [data-rudderstack-id] is then in the membership set and carries
    the listener, an element gains the listener exactly when it is found in
    the document and was no member, and the observer created is connected
    and recorded in [mutationObserver]. *)
Theorem setupObserver_covers_document this w :
  listens this w →
  ∃ w', setupObserver this w = Ok tt w'
    ∧ (∀ e, e ∈ document_querySelectorAll (document w) →
            e ∈ trackedElements (tracker_of w' this) ∧ this ∈ listeners_of w' e)
    ∧ (∀ e, listeners_of w' e
            = if bool_decide (e ∈ document_querySelectorAll (document w)
                              ∧ e ∉ trackedElements (tracker_of w this))
              then add_listener this (listeners_of w e)
              else listeners_of w e)
    ∧ mutationObserver (tracker_of w' this) = Some (next_id w)
    ∧ observers w' !! next_id w = Some this
    ∧ listens this w'.
Proof.
  intros Hl. unfold setupObserver. unfold bind at 1. unfold gets at 1.
  destruct (attach_spec this (document_querySelectorAll (document w)) w) as (wb & Hwb & Ha).
  rewrite (bind_Ok _ _ _ _ _ Hwb).
  unfold bind, gets, modify. eexists. split; [reflexivity|].
  pose proof (attached_listens _ _ _ _ Ha Hl) as Hl'.
  assert (next_id wb = next_id w) as Hn.
  { destruct Ha as (Hp & _). by apply (f_equal next_id) in Hp. }
  assert (∀ (x : World) o, listeners_of
            (upd_observers (insert o this)
               (upd_tracker this (with_mutationObserver (Some o)) (upd_next_id S x)))
          = listeners_of x) as Hsame by done.
  assert (∀ (x : World) o, trackedElements (tracker_of
            (upd_observers (insert o this)
               (upd_tracker this (with_mutationObserver (Some o)) (upd_next_id S x))) this)
          = trackedElements (tracker_of x this)) as Hsame'.
  { intros x o. unfold tracker_of. cbn. by rewrite lookup_insert_eq. }
  split; [|split; [|split; [|split]]].
  - intros e He. rewrite Hsame, Hsame'. by eapply attached_covers.
  - intros e. rewrite Hsame. apply Ha.
  - rewrite Hn. unfold tracker_of. cbn. by rewrite lookup_insert_eq.
  - rewrite Hn. cbn. by rewrite lookup_insert_eq.
  - intros e. rewrite Hsame, Hsame'. apply Hl'.
Qed.

(** X5. The observer callback on a batch for which every call of the
    [NodeList] interface object yields the one-element list (so also on a
    batch that makes no such call: added elements that do not carry the
    attribute themselves, and attribute records of other names) is
    [attachTrackingToElements] on the elements the batch brings, in order:
    those of the added subtrees that carry the attribute and the targets
    that were given it.  It returns, and each of these is then a member and
    carries the listener. *)
Theorem observer_attaches_added this mutations w :
  (∀ e, e ∈ flat_map wrapped mutations → NodeList_of e = Some [e]) →
  listens this w →
  observerCallback this mutations w
  = attachTrackingToElements this (flat_map added mutations) w
  ∧ ∃ w', observerCallback this mutations w = Ok tt w'
      ∧ (∀ mutation e, mutation ∈ mutations → e ∈ added mutation →
           e ∈ trackedElements (tracker_of w' this) ∧ this ∈ listeners_of w' e)
      ∧ (∀ e, listeners_of w' e
              = if bool_decide (e ∈ flat_map added mutations
                                ∧ e ∉ trackedElements (tracker_of w this))
                then add_listener this (listeners_of w e)
                else listeners_of w e)
      ∧ listens this w'.
Proof.
  intros Hb Hl. rewrite observerCallback_attach by done. split; [done|].
  destruct (attach_spec this (flat_map added mutations) w) as (w' & -> & Ha).
  exists w'. split; [done|]. split; [|split].
  - intros m e Hm He. eapply attached_covers; [done..|].
    apply list_elem_of_In, in_flat_map. exists m. by rewrite <- !list_elem_of_In.
  - apply Ha.
  - by eapply attached_listens.
Qed.

(** X6. When the call of the [NodeList] interface object throws for an
    element that carries the attribute, the observer callback throws a
    [TypeError] as soon as it meets that element as the first added node or
    as the target of an attribute record, and the state is unchanged: the
    element, its descendants and the rest of the batch get no listener. *)
Theorem observer_constructor_throws this id attrs w :
  NodeList_of id = None →
  hasAttribute attrs tracking_attr = true →
  (∀ kids rest more,
     observerCallback this (ChildListRecord (ElementNode id attrs kids :: rest) :: more) w
     = Throw TypeError w)
  ∧ (∀ more,
       observerCallback this (AttributesRecord tracking_attr id attrs :: more) w
       = Throw TypeError w)
  ∧ (∀ o kids, observers w !! o = Some this →
       deliver o [ChildListRecord [ElementNode id attrs kids]] w = Throw TypeError w).
Proof.
  intros Hn Ha.
  assert (∀ kids rest more,
     observerCallback this (ChildListRecord (ElementNode id attrs kids :: rest) :: more) w
     = Throw TypeError w) as H.
  { intros kids rest more. unfold observerCallback. cbn [forEach onMutation onAddedNode].
    unfold bind, attachToOne. by rewrite Ha, Hn. }
  split; [done|]. split.
  - intros more. unfold observerCallback. cbn [forEach onMutation].
    unfold bind, attachToOne. by rewrite String.eqb_refl, Ha, Hn.
  - intros o kids Ho. unfold deliver. rewrite Ho. apply H.
Qed.

End Observer.

Section BringUp.
Context {P : Platform} (env : Env).

Lemma after_page_view_sdk this source url p w :
  ∃ calls, after_page_view env this source url p w = upd_sdkCalls (fun _ => calls) w
           ∧ calls = sdkCalls w
                     ++ (if shouldTrack env p
                         then [Page this (page_properties env w url p source)] else []).
Proof.
  unfold after_page_view, with_call. destruct (shouldTrack env p).
  - eexists. split; [|done]. by destruct w.
  - exists (sdkCalls w). rewrite app_nil_r. by destruct w.
Qed.

Lemma setupPageTracking_eq this w p :
  URL_pathname (href (location w)) = Some p →
  setupPageTracking env this w = Ok tt (page_tracking env this p w).
Proof.
  intros Hp. unfold page_tracking. destruct (isPageTrackingSetup w) eqn:Hflag.
  - by apply setupPageTracking_skip.
  - unfold setupPageTracking. unfold bind at 1. unfold gets at 1.
    rewrite (bind_Ok _ _ _ _ _ (trackPageView_eq env _ _ _ _ _ Hp)).
    fold (after_page_view env this "initial_load" (href (location w)) p w).
    destruct (after_page_view_sdk this "initial_load" (href (location w)) p w)
      as (calls & -> & _).
    unfold bind, gets, modify, ret. destruct w. cbn in *. subst.
    unfold installed, upd_tracker, tracker_of. cbn.
    rewrite !lookup_insert_eq. cbn. rewrite !insert_insert_eq. done.
Qed.

Lemma page_tracking_frame this p w :
  page_tracking_keeps this w (page_tracking env this p w)
  ∧ isPageTrackingSetup (page_tracking env this p w) = true
  ∧ sdkCalls (page_tracking env this p w)
    = sdkCalls w ++ (if shouldTrack env p
                     then [Page this (page_properties env w (href (location w)) p
                                        "initial_load")]
                     else []).
Proof.
  unfold page_tracking.
  destruct (after_page_view_sdk this "initial_load" (href (location w)) p w)
    as (calls & -> & ->).
  unfold page_tracking_keeps, installed, tracker_of.
  destruct (isPageTrackingSetup w) eqn:Hflag; destruct w; cbn in *; subst;
    (split; [|done]); repeat split; try done; try lia.
  all: try (destruct (decide (j = this)) as [->|Hne];
            [by rewrite lookup_insert_eq | by rewrite lookup_insert_ne]).
  intros. by rewrite lookup_insert_ne.
Qed.

Lemma installed_history this p w :
  isPageTrackingSetup w = false →
  let wa := page_tracking env this p w in
  history_pushState wa = Patched PushState (next_id w)
  ∧ history_replaceState wa = Patched ReplaceState (next_id w)
  ∧ popstateListeners wa
    = (if bool_decide (next_id w ∈ popstateListeners w) then popstateListeners w
       else popstateListeners w ++ [next_id w])
  ∧ navEnv_of wa (next_id w)
    = {| nav_this := this; currentUrl := href (location w); isTracking := true |}
  ∧ originalPushState (tracker_of wa this) = Some (Bound (history_pushState w))
  ∧ originalReplaceState (tracker_of wa this) = Some (Bound (history_replaceState w))
  ∧ popstateHandler (tracker_of wa this) = Some (next_id w)
  ∧ next_id wa = S (next_id w).
Proof.
  intros Hflag. unfold page_tracking. rewrite Hflag.
  destruct (after_page_view_sdk this "initial_load" (href (location w)) p w)
    as (calls & -> & _).
  unfold installed, tracker_of, navEnv_of. destruct w. cbn in *.
  rewrite !lookup_insert_eq. cbn. repeat split; done.
Qed.

(** What the end of the readiness callback changes. *)
Lemma ready_frame this promise w :
  let w' := ready this promise w in
  same_page (upd_promises (fun _ => promises w')
               (upd_observers (fun _ => observers w')
                  (upd_next_id (fun _ => next_id w') w)))
            w'
  ∧ clickListeners w' = clickListeners w
  ∧ next_id w' = S (next_id w)
  ∧ observers w' = <[next_id w := this]> (observers w)
  ∧ promises w' = <[promise := true]> (promises w)
  ∧ tracker_of w' this
    = with_isInitialized true (with_mutationObserver (Some (next_id w)) (tracker_of w this))
  ∧ (∀ j, j ≠ this → tracker_of w' j = tracker_of w j).
Proof.
  unfold ready, observing, same_page, upd_tracker, tracker_of. destruct w. cbn.
  rewrite !lookup_insert_eq. cbn. repeat split; try done.
  intros j Hne. by rewrite !lookup_insert_ne.
Qed.

Lemma setupObserver_eq this w :
  ∃ wb, attached this (document_querySelectorAll (document w)) w wb
        ∧ setupObserver this w = Ok tt (observing this wb).
Proof.
  destruct (attach_spec this (document_querySelectorAll (document w)) w) as (wb & Hwb & Ha).
  exists wb. split; [done|]. unfold setupObserver, bind, gets. rewrite Hwb. reflexivity.
Qed.

(** The readiness callback of a tracker that is not initialized. *)
Lemma readyCallback_eq this promise w p :
  isInitialized (tracker_of w this) = false →
  URL_pathname (href (location w)) = Some p →
  ∃ wb,
    attached this (document_querySelectorAll (document w)) (page_tracking env this p w) wb
    ∧ readyCallback env this promise w = Ok tt (ready this promise wb).
Proof.
  intros Hinit Hp.
  destruct (page_tracking_frame this p w) as ((_ & Hdoc & _) & _).
  destruct (setupObserver_eq this (page_tracking env this p w)) as (wb & Ha & Hwb).
  rewrite Hdoc in Ha. exists wb. split; [done|].
  unfold readyCallback, bind, gets. rewrite Hinit, (setupPageTracking_eq this w p Hp).
  cbv beta iota. rewrite Hwb. reflexivity.
Qed.

Lemma initialize_eq this w :
  isInitialized (tracker_of w this) = false →
  falsy (RUDDERSTACK_KEY env) = false → falsy (RUDDERSTACK_URL env) = false →
  initialize env this w = Ok (Pending (next_id w)) (loading env this w).
Proof.
  intros Hinit Hkey Hurl. unfold initialize, bind, gets, modify, ret, sdk_call.
  rewrite Hinit, Hkey, Hurl. cbn. by destruct w.
Qed.

Lemma fireReady_last this promise w0 w :
  readyCallbacks w = readyCallbacks w0 ++ [(this, promise)] →
  fireReady env (length (readyCallbacks w0)) w
  = readyCallback env this promise (upd_readyCallbacks (fun _ => readyCallbacks w0) w).
Proof.
  intros H. unfold fireReady. rewrite H, list_lookup_middle by done.
  f_equal. destruct w. cbn in *. subst. f_equal.
  induction (readyCallbacks w0) as [|x l IH]; cbn; [done|]. by f_equal.
Qed.

Lemma readyCallback_spec this promise w p :
  isInitialized (tracker_of w this) = false →
  URL_pathname (href (location w)) = Some p →
  ∃ w', readyCallback env this promise w = Ok tt w' ∧ brought_up env this promise p w w'.
Proof.
  intros Hinit Hp.
  destruct (readyCallback_eq this promise w p Hinit Hp) as (wb & (Hpage & Ht & Hl) & Hw').
  exists (ready this promise wb). split; [done|].
  set (wa := page_tracking env this p w) in *.
  destruct (page_tracking_frame this p w)
    as ((Hi & Hdoc & Hloc & _ & _ & Hcl & Hobs & Hrc & Hpr & Htm & Hnext & Htr & Hother)
        & Hflag & Hsdk).
  fold wa in Hi, Hdoc, Hloc, Hcl, Hobs, Hrc, Hpr, Htm, Hnext, Htr, Hother, Hflag, Hsdk.
  destruct (ready_frame this promise wb) as (Hpage' & Hcl' & Hnext' & Hobs' & Hpr' & Ht' & Hother').
  cbv zeta in Hpage', Hcl', Hnext', Hobs', Hpr', Ht', Hother'.
  set (w' := ready this promise wb) in *.
  assert (∀ {A} (f : World → A),
            (∀ x g, f (upd_trackers g x) = f x) →
            (∀ x g, f (upd_clickListeners g x) = f x) →
            f wb = f wa) as Hab.
  { intros A f H1 H2. pose proof (f_equal f Hpage) as H.
    by rewrite H1, H2 in H. }
  assert (∀ {A} (f : World → A),
            (∀ x g, f (upd_trackers g x) = f x) →
            (∀ x g, f (upd_clickListeners g x) = f x) →
            (∀ x g, f (upd_promises g x) = f x) →
            (∀ x g, f (upd_observers g x) = f x) →
            (∀ x g, f (upd_next_id g x) = f x) →
            f w' = f wb) as Hbw.
  { intros A f H1 H2 H3 H4 H5. pose proof (f_equal f Hpage') as H.
    by rewrite H1, H2, H3, H4, H5 in H. }
  assert (tracker_of wb this
          = with_trackedElements
              (trackedElements (tracker_of w this)
               ∪ list_to_set (document_querySelectorAll (document w)))
              (tracker_of wa this)) as Htb.
  { rewrite Ht, (bool_decide_eq_true_2 (this = this)) by done.
    by destruct (Htr this) as (-> & _). }
  unfold brought_up. cbv zeta.
  split; [|split; [|split; [|split]]].
  - intros e. unfold listeners_of at 1. rewrite Hcl'. fold (listeners_of wb e).
    rewrite Hl. destruct (Htr this) as (-> & _). unfold listeners_of. by rewrite Hcl.
  - by rewrite Ht', Htb.
  - by rewrite Ht'.
  - intros j Hne. rewrite Hother', Ht, (bool_decide_eq_false_2 (j = this)) by done.
    by apply Hother.
  - repeat split.
    + rewrite (Hbw _ instance), (Hab _ instance); done.
    + rewrite (Hbw _ document), (Hab _ document); done.
    + rewrite (Hbw _ location), (Hab _ location); done.
    + rewrite (Hbw _ readyCallbacks), (Hab _ readyCallbacks); done.
    + rewrite Hpr', (Hab _ promises); [by rewrite Hpr|done..].
    + rewrite (Hbw _ timers), (Hab _ timers); done.
    + rewrite Hnext', (Hab _ next_id); [lia|done..].
    + rewrite (Hbw _ isPageTrackingSetup), (Hab _ isPageTrackingSetup); done.
    + rewrite (Hbw _ sdkCalls), (Hab _ sdkCalls); done.
    + exists (next_id wb). split; [by rewrite (Hab _ next_id)|].
      split; [by rewrite Ht'|]. rewrite Hobs', (Hab _ observers) by done.
      by rewrite Hobs.
    + rewrite (Hbw _ history_pushState), (Hab _ history_pushState); done.
    + rewrite (Hbw _ history_replaceState), (Hab _ history_replaceState); done.
    + rewrite (Hbw _ popstateListeners), (Hab _ popstateListeners); done.
    + rewrite (Hbw _ navEnvs), (Hab _ navEnvs); done.
    + by rewrite Ht', Htb.
    + by rewrite Ht', Htb.
    + by rewrite Ht', Htb.
Qed.

End BringUp.

Section Readiness.
Context {P : Platform} (env : Env).

Lemma fireReady_loading this w :
  fireReady env (length (readyCallbacks w)) (loading env this w)
  = readyCallback env this (next_id w) (loaded env this w).
Proof.
  rewrite (fireReady_last env this (next_id w) w); [reflexivity|by destruct w].
Qed.

(** X7. [initialize] on a configured tracker that is not initialized,
    followed by the readiness callback: the SDK received one [load] and,
    when the pathname is tracked, one [page] tagged ["initial_load"]; the
    promise is resolved to [true] and the tracker initialized; every element
    of the document with the attribute carries the listener and no other
    element changed; an observer is connected; and when the class-level
    flag was clear, both history methods are replaced, with the bound
    originals saved, and the [popstate] handler is registered. *)
Theorem initialize_brings_up this w p :
  isInitialized (tracker_of w this) = false →
  falsy (RUDDERSTACK_KEY env) = false → falsy (RUDDERSTACK_URL env) = false →
  URL_pathname (href (location w)) = Some p →
  listens this w →
  ∃ promise w1 w2,
    initialize env this w = Ok (Pending promise) w1
    ∧ fireReady env (length (readyCallbacks w)) w1 = Ok tt w2
    ∧ isInitialized (tracker_of w2 this) = true
    ∧ promises w2 !! promise = Some true
    ∧ readyCallbacks w2 = readyCallbacks w
    ∧ sdkCalls w2
      = sdkCalls w
        ++ Load this (default "" (RUDDERSTACK_KEY env)) (default "" (RUDDERSTACK_URL env))
        :: (if shouldTrack env p
            then [Page this (page_properties env w (href (location w)) p "initial_load")]
            else [])
    ∧ (∀ e, e ∈ document_querySelectorAll (document w) →
            e ∈ trackedElements (tracker_of w2 this) ∧ this ∈ listeners_of w2 e)
    ∧ (∀ e, e ∉ document_querySelectorAll (document w) →
            listeners_of w2 e = listeners_of w e)
    ∧ (∃ o, mutationObserver (tracker_of w2 this) = Some o ∧ observers w2 !! o = Some this)
    ∧ isPageTrackingSetup w2 = true
    ∧ (isPageTrackingSetup w = false →
       ∃ closure,
         history_pushState w2 = Patched PushState closure
         ∧ history_replaceState w2 = Patched ReplaceState closure
         ∧ closure ∈ popstateListeners w2
         ∧ navEnv_of w2 closure
           = {| nav_this := this; currentUrl := href (location w); isTracking := true |}
         ∧ originalPushState (tracker_of w2 this) = Some (Bound (history_pushState w))
         ∧ popstateHandler (tracker_of w2 this) = Some closure).
Proof.
  intros Hinit Hkey Hurl Hp Hl.
  exists (next_id w), (loading env this w).
  assert (tracker_of (loaded env this w) = tracker_of w) as Htr by (by destruct w).
  assert (location (loaded env this w) = location w) as Hloc by (by destruct w).
  assert (document (loaded env this w) = document w) as Hdoc by (by destruct w).
  assert (listeners_of (loaded env this w) = listeners_of w) as Hls by (by destruct w).
  destruct (readyCallback_spec env this (next_id w) (loaded env this w) p) as (w2 & Hw2 & Hb).
  { by rewrite Htr. }
  { by rewrite Hloc. }
  exists w2. split; [by apply initialize_eq|]. split; [by rewrite fireReady_loading|].
  destruct Hb as (Hlis & Htracked & Hi & _ & _ & _ & _ & Hrc & Hpr & _ & _ & Hflag & Hsdk
                  & (o & _ & Ho & Hobs) & Hpush & Hrepl & Hpop & Hnav & Hopush & Hhandler & _).
  rewrite Htr, Hdoc in Hlis, Htracked. rewrite Hls in Hlis.
  split; [done|]. split; [by rewrite Hpr, lookup_insert_eq|].
  split; [rewrite Hrc; by destruct w|].
  split.
  { rewrite Hsdk, Hloc.
    replace (sdkCalls (loaded env this w))
      with (sdkCalls w ++ [Load this (default "" (RUDDERSTACK_KEY env))
                             (default "" (RUDDERSTACK_URL env))]) by (by destruct w).
    rewrite <- app_assoc. cbn [app]. do 2 f_equal. }
  split.
  { intros e He. split; [rewrite Htracked; set_solver|].
    rewrite Hlis. case_bool_decide as Hd.
    - unfold add_listener. case_bool_decide; [done|]. set_solver.
    - apply Hl. destruct (decide (e ∈ trackedElements (tracker_of w this))); [done|].
      by destruct Hd. }
  split.
  { intros e He. rewrite Hlis, bool_decide_eq_false_2; [done|]. by intros [? _]. }
  split.
  { exists o. split; [done|]. by rewrite Hobs, lookup_insert_eq. }
  split; [done|].
  intros Hsetup.
  assert (isPageTrackingSetup (loaded env this w) = false) as Hsetup' by (by destruct w).
  destruct (installed_history env this p (loaded env this w) Hsetup')
    as (H1 & H2 & H3 & H4 & H5 & _ & H7 & _).
  exists (next_id (loaded env this w)).
  rewrite Hpush, Hrepl, Hpop, Hopush, Hhandler. unfold navEnv_of in *. rewrite Hnav.
  rewrite Hloc in H4. repeat split; try done.
  rewrite H3. case_bool_decide; [done|]. set_solver.
Qed.

End Readiness.

Section InFlight.
Context {P : Platform} (env : Env).

Lemma getInstance_new w :
  instance w = None → getInstance w = Ok (next_id w) (created w).
Proof. intros H. unfold getInstance, bind, gets, modify, ret. by rewrite H. Qed.

Lemma readyCallback_again this promise w :
  isInitialized (tracker_of w this) = true →
  readyCallback env this promise w = Ok tt (upd_promises (insert promise true) w).
Proof. intros H. unfold readyCallback, bind, gets, modify, ret. by rewrite H. Qed.

Lemma delete_middle {A} (l : list A) x r : delete (length l) (l ++ x :: r) = l ++ r.
Proof. induction l as [|y l IH]; cbn; [done|]. by f_equal. Qed.

(** X8. Two calls of [initialize] before the SDK is ready: neither sees the
    tracker initialized, so [load] is called twice and two callbacks wait.
    The first callback sets the tracker up; the second finds it initialized
    and only resolves its promise.  Both promises resolve to [true]. *)
Theorem initialize_twice_in_flight this w p :
  isInitialized (tracker_of w this) = false →
  falsy (RUDDERSTACK_KEY env) = false → falsy (RUDDERSTACK_URL env) = false →
  URL_pathname (href (location w)) = Some p →
  let load := Load this (default "" (RUDDERSTACK_KEY env))
                (default "" (RUDDERSTACK_URL env)) in
  ∃ first w1 second w2 w3 w4,
    initialize env this w = Ok (Pending first) w1
    ∧ initialize env this w1 = Ok (Pending second) w2
    ∧ first ≠ second
    ∧ sdkCalls w2 = sdkCalls w ++ [load; load]
    ∧ readyCallbacks w2 = readyCallbacks w ++ [(this, first); (this, second)]
    ∧ fireReady env (length (readyCallbacks w)) w2 = Ok tt w3
    ∧ isInitialized (tracker_of w3 this) = true
    ∧ readyCallbacks w3 = readyCallbacks w ++ [(this, second)]
    ∧ fireReady env (length (readyCallbacks w)) w3 = Ok tt w4
    ∧ w4 = upd_promises (insert second true)
             (upd_readyCallbacks (fun _ => readyCallbacks w) w3)
    ∧ promises w4 !! first = Some true
    ∧ promises w4 !! second = Some true.
Proof.
  intros Hinit Hkey Hurl Hp load.
  set (w1 := loading env this w). set (w2 := loading env this w1).
  assert (tracker_of w1 = tracker_of w) as Htr1 by (by destruct w).
  assert (next_id w1 = S (next_id w)) as Hn1 by (by destruct w).
  assert (readyCallbacks w2
          = readyCallbacks w ++ [(this, next_id w); (this, S (next_id w))]) as Hrc2.
  { unfold w2, w1. destruct w. cbn. by rewrite <- app_assoc. }
  set (w2' := upd_readyCallbacks (fun _ => readyCallbacks w ++ [(this, S (next_id w))]) w2).
  assert (fireReady env (length (readyCallbacks w)) w2
          = readyCallback env this (next_id w) w2') as Hfire.
  { unfold fireReady. rewrite Hrc2, list_lookup_middle by done. f_equal.
    unfold w2'. rewrite <- (delete_middle (readyCallbacks w) (this, next_id w)).
    rewrite <- Hrc2. by destruct w2. }
  assert (tracker_of w2' = tracker_of w) as Htr2 by (by destruct w).
  assert (location w2' = location w) as Hloc2 by (by destruct w).
  destruct (readyCallback_spec env this (next_id w) w2' p) as (w3 & Hw3 & Hb).
  { by rewrite Htr2. }
  { by rewrite Hloc2. }
  destruct Hb as (_ & _ & Hi3 & _ & _ & _ & _ & Hrc3 & Hpr3 & _).
  assert (readyCallbacks w3 = readyCallbacks w ++ [(this, S (next_id w))]) as Hrc3'.
  { rewrite Hrc3. by destruct w. }
  exists (next_id w), w1, (S (next_id w)), w2, w3. eexists.
  split; [by apply initialize_eq|].
  split; [rewrite <- Hn1; apply initialize_eq; [by rewrite Htr1|done..]|].
  split; [lia|].
  split; [unfold w2, w1, load; destruct w; cbn; by rewrite <- app_assoc|].
  split; [done|]. split; [by rewrite Hfire|]. split; [done|]. split; [done|].
  split.
  { unfold fireReady. rewrite Hrc3', list_lookup_middle by done.
    rewrite readyCallback_again; [reflexivity|]. exact Hi3. }
  assert (delete (length (readyCallbacks w)) (readyCallbacks w3) = readyCallbacks w) as Hdel.
  { rewrite Hrc3', delete_middle. apply app_nil_r. }
  split.
  { f_equal. clear -Hdel. destruct w3 as [ins flag nid trs nav loc ti re doc hp hr pl cl
      obs nw tm sdk rc prs]. cbn in *. by rewrite Hdel. }
  cbn. rewrite Hpr3. split.
  - rewrite lookup_insert_ne by lia. by rewrite lookup_insert_eq.
  - by rewrite lookup_insert_eq.
Qed.

End InFlight.

Section Pending.
Context {P : Platform} (env : Env).

Lemma fireReady_at k this promise w :
  readyCallbacks w !! k = Some (this, promise) →
  fireReady env k w
  = readyCallback env this promise (upd_readyCallbacks (delete k) w).
Proof. intros H. unfold fireReady. by rewrite H. Qed.

Lemma add_listener_new this ls : this ∉ ls → add_listener this ls = ls ++ [this].
Proof. intros H. unfold add_listener. by rewrite bool_decide_eq_false_2. Qed.

Lemma click_two a b attrs e w properties :
  listeners_of w e = [a; b] →
  JSON_parse (or_else (getAttribute attrs "data-rudderstack-props") "{}") = Some properties →
  let name := or_else (getAttribute attrs "data-rudderstack-event") "Element Clicked" in
  let merged := spread (common_properties env) (own_props properties) in
  click env e attrs w
  = ([], with_call (Track b name merged) (with_call (Track a name merged) w)).
Proof.
  intros Hl Hj name merged. unfold click. rewrite Hl. cbn [map run_tasks].
  rewrite (trackingEvent_Ok env a attrs w properties Hj).
  by rewrite (trackingEvent_Ok env b attrs _ properties Hj).
Qed.

(** X9. [destroy] while a readiness callback of the tracker is pending
    does not cancel the callback.  When it runs, the destroyed tracker sets
    itself up although [instance] is empty; the tracker that [getInstance]
    makes next attaches listeners of its own, so every tracked element of
    the document carries two listeners and each click is reported twice; and
    the [destroy] of the second tracker leaves the listener of the first. *)
Theorem destroy_while_pending a promise k w p :
  instance w = Some a →
  isInitialized (tracker_of w a) = false →
  readyCallbacks w !! k = Some (a, promise) →
  trackedElements (tracker_of w a) = ∅ →
  (∀ e, listeners_of w e = []) →
  a < next_id w →
  falsy (RUDDERSTACK_KEY env) = false → falsy (RUDDERSTACK_URL env) = false →
  URL_pathname (href (location w)) = Some p →
  ∃ w1 w2 b w3 promise' w4 w5,
    destroy a w = Ok tt w1
    ∧ fireReady env k w1 = Ok tt w2
    ∧ instance w2 = None
    ∧ isInitialized (tracker_of w2 a) = true
    ∧ getInstance w2 = Ok b w3
    ∧ b ≠ a
    ∧ initialize env b w3 = Ok (Pending promise') w4
    ∧ fireReady env (length (readyCallbacks w3)) w4 = Ok tt w5
    ∧ instance w5 = Some b
    ∧ (∀ e, e ∈ document_querySelectorAll (document w) → listeners_of w5 e = [a; b])
    ∧ (∀ e attrs properties,
         e ∈ document_querySelectorAll (document w) →
         JSON_parse (or_else (getAttribute attrs "data-rudderstack-props") "{}")
         = Some properties →
         ∃ name merged,
           click env e attrs w5
           = ([], with_call (Track b name merged) (with_call (Track a name merged) w5)))
    ∧ (∀ e, e ∈ document_querySelectorAll (document w) →
            listeners_of (world_of (destroy b w5)) e = [a]).
Proof.
  intros Hinst Hinit Hk Hempty Hnone Hlt Hkey Hurl Hp.
  set (found := document_querySelectorAll (document w)).
  (* destroy *)
  set (w1 := after_destroy a w).
  assert (clickListeners w1 = clickListeners w) as Hcl1.
  { unfold w1, after_destroy. cbn. rewrite Hempty, elements_empty. done. }
  set (w1' := upd_readyCallbacks (delete k) w1).
  assert (isInitialized (tracker_of w1' a) = false) as Hinit1.
  { unfold w1', w1, after_destroy, tracker_of. cbn. by rewrite lookup_insert_eq. }
  assert (trackedElements (tracker_of w1' a) = ∅) as Hempty1.
  { unfold w1', w1, after_destroy, tracker_of. cbn. by rewrite lookup_insert_eq. }
  assert (∀ e, listeners_of w1' e = []) as Hnone1.
  { intros e. rewrite <- (Hnone e). unfold listeners_of.
    replace (clickListeners w1') with (clickListeners w1) by done. by rewrite Hcl1. }
  assert (location w1' = location w) as Hloc1 by done.
  assert (document w1' = document w) as Hdoc1 by done.
  assert (next_id w1' = next_id w) as Hn1 by done.
  assert (instance w1' = None) as Hi1 by done.
  (* the pending callback *)
  destruct (readyCallback_spec env a promise w1' p) as (w2 & Hw2 & Hb); [done|by rewrite Hloc1|].
  destruct Hb as (Hlis2 & _ & Hinit2 & _ & Hi2 & Hdoc2 & Hloc2 & _ & _ & _ & Hn2 & _).
  rewrite Hdoc1, Hempty1 in Hlis2. fold found in Hlis2.
  assert (∀ e, e ∈ found → listeners_of w2 e = [a]) as Hl2.
  { intros e He. rewrite Hlis2, bool_decide_eq_true_2 by set_solver. by rewrite Hnone1. }
  (* the next tracker *)
  set (b := next_id w2). set (w3 := created w2).
  assert (b ≠ a) as Hne by (unfold b; lia).
  assert (instance w2 = None) as Hi2' by (by rewrite Hi2).
  assert (tracker_of w3 b = new_tracker) as Htb.
  { unfold w3, created, tracker_of. cbn. by rewrite lookup_insert_eq. }
  set (w4 := loading env b w3).
  set (w3' := loaded env b w3).
  assert (tracker_of w3' b = new_tracker) as Htb'.
  { rewrite <- Htb. by destruct w2. }
  assert (location w3' = location w) as Hloc3.
  { rewrite <- Hloc1, <- Hloc2. by destruct w2. }
  assert (document w3' = document w) as Hdoc3.
  { rewrite <- Hdoc1, <- Hdoc2. by destruct w2. }
  assert (listeners_of w3' = listeners_of w2) as Hl3 by (by destruct w2).
  assert (instance w3' = Some b) as Hi3 by (by destruct w2).
  destruct (readyCallback_spec env b (next_id w3) w3' p) as (w5 & Hw5 & Hb5).
  { by rewrite Htb'. }
  { by rewrite Hloc3. }
  destruct Hb5 as (Hlis5 & Htr5 & _ & _ & Hi5 & _).
  rewrite Hdoc3, Htb' in Hlis5, Htr5. fold found in Hlis5, Htr5.
  assert (∀ e, e ∈ found → listeners_of w5 e = [a; b]) as Hl5.
  { intros e He. rewrite Hlis5, bool_decide_eq_true_2 by (cbn; set_solver).
    rewrite Hl3, Hl2 by done. apply add_listener_new. set_solver. }
  exists w1, w2, b, w3, (next_id w3), w4, w5.
  split; [apply destroy_eq|].
  split; [rewrite (fireReady_at k a promise); [done|by rewrite <- Hk]|].
  split; [done|]. split; [done|].
  split; [by apply getInstance_new|]. split; [done|].
  split; [apply initialize_eq; [by rewrite Htb|done..]|].
  split; [unfold w4; by rewrite fireReady_loading|].
  split; [by rewrite Hi5|].
  split; [done|]. split.
  - intros e attrs properties He Hj. eexists _, _. by apply click_two; [apply Hl5|].
  - intros e He. rewrite destroy_eq. cbn [world_of]. unfold listeners_of, after_destroy. cbn.
    rewrite remove_from_lookup. fold (listeners_of w5 e). rewrite Hl5 by done.
    rewrite Htr5.
    rewrite bool_decide_eq_true_2 by (apply elem_of_elements; cbn; set_solver).
    rewrite filter_cons_True by done. rewrite filter_cons_False by (intros H; by apply H).
    done.
Qed.

End Pending.

Section Clockwork.
Context {P : Platform} (env : Env).

Lemma timerCallback_alike t w w' :
  same_clockwork w w' → alike (timerCallback env t w) (timerCallback env t w').
Proof.
  intros (Hnav & Hloc & Htitle & Href & Hnow & Htimers & Hsdk).
  unfold timerCallback, bind, gets, trackPageView, navEnv_of, page_properties.
  rewrite Hnav. destruct (URL_pathname (timer_url t)) as [p|]; [|by repeat split].
  destruct (shouldTrack env p).
  - unfold sdk_call, modify, alike, same_clockwork, navEnv_of. cbn.
    by rewrite Hnav, Hloc, Htitle, Href, Hnow, Htimers, Hsdk.
  - unfold ret, modify, alike, same_clockwork, navEnv_of. cbn.
    by rewrite Hnav, Hloc, Htitle, Href, Hnow, Htimers, Hsdk.
Qed.

Lemma run_timers_alike ts w w' :
  same_clockwork w w' →
  fst (run_tasks (map (timerCallback env) ts) w)
  = fst (run_tasks (map (timerCallback env) ts) w')
  ∧ same_clockwork (snd (run_tasks (map (timerCallback env) ts) w))
      (snd (run_tasks (map (timerCallback env) ts) w')).
Proof.
  revert w w'. induction ts as [|t ts IH]; intros w w' H; [done|].
  cbn [map run_tasks]. pose proof (timerCallback_alike t w w' H) as Ha.
  unfold alike in Ha.
  destruct (timerCallback env t w) as [[] w1|e w1],
           (timerCallback env t w') as [[] w1'|e' w1']; try done.
  - by apply IH.
  - destruct Ha as [-> Ha]. destruct (IH w1 w1' Ha) as [H1 H2].
    destruct (run_tasks _ w1), (run_tasks _ w1'). cbn in *. by subst.
Qed.

Lemma advance_alike dt w w' :
  same_clockwork w w' →
  fst (advance env dt w) = fst (advance env dt w')
  ∧ same_clockwork (snd (advance env dt w)) (snd (advance env dt w')).
Proof.
  intros (Hnav & Hloc & Htitle & Href & Hnow & Htimers & Hsdk). unfold advance.
  replace (timers (upd_now (fun t => t + dt) w')) with (timers w) by (by destruct w').
  replace (timers (upd_now (fun t => t + dt) w)) with (timers w) by (by destruct w).
  replace (now (upd_now (fun t => t + dt) w')) with (now w + dt)
    by (rewrite <- Hnow; by destruct w').
  replace (now (upd_now (fun t => t + dt) w)) with (now w + dt) by (by destruct w).
  apply run_timers_alike.
  destruct w, w'. cbn in *. by subst.
Qed.

Lemma destroy_clockwork this w : same_clockwork w (after_destroy this w).
Proof. done. Qed.

(** X10. [destroy] clears no timer: the pending timers, the closure
    variables and the calls received are as before, and the timers fire
    afterwards as they would have without it, with the same errors and the
    same calls.  So a page view scheduled before [destroy] is still reported
    after it, on behalf of the destroyed tracker. *)
Theorem destroy_keeps_timers this dt w :
  ∃ w', destroy this w = Ok tt w'
    ∧ timers w' = timers w
    ∧ navEnvs w' = navEnvs w
    ∧ sdkCalls w' = sdkCalls w
    ∧ fst (advance env dt w') = fst (advance env dt w)
    ∧ sdkCalls (snd (advance env dt w')) = sdkCalls (snd (advance env dt w))
    ∧ (∀ t p, timers w = [t] → due t ≤ now w + dt →
              URL_pathname (timer_url t) = Some p → shouldTrack env p = true →
              ∃ properties,
                sdkCalls (snd (advance env dt w'))
                = sdkCalls w ++ [Page (nav_this (navEnv_of w (timer_env t))) properties]
                ∧ properties !! "url" = Some (JString (timer_url t))
                ∧ properties !! "source" = Some (JString (timer_source t))).
Proof.
  exists (after_destroy this w). split; [apply destroy_eq|].
  destruct (advance_alike dt w (after_destroy this w) (destroy_clockwork this w))
    as (Herr & _ & _ & _ & _ & _ & _ & Hsdk).
  repeat split; try done.
  intros t p Ht Hdue Hp Htracked. rewrite Hsdk.
  destruct (advance_due env dt t w p Ht Hdue Hp) as (w2 & Hadv & Hcalls & _).
  rewrite Hadv. cbn [snd]. rewrite Hcalls. unfold after_page_view. rewrite Htracked.
  rewrite sdkCalls_with_call. eexists. split; [done|].
  destruct (page_properties_lookup env w (timer_url t) p (timer_source t)) as (? & ? & _).
  done.
Qed.

End Clockwork.

Section History.
Context {P : Platform} (env : Env).

Lemma page_properties_location w url p source :
  page_properties env w url p source !! "search" = Some (JString (search (location w)))
  ∧ page_properties env w url p source !! "hash" = Some (JString (hash (location w)))
  ∧ page_properties env w url p source !! "title" = Some (JString (document_title w))
  ∧ page_properties env w url p source !! "referrer"
    = Some (JString (document_referrer w)).
Proof.
  unfold page_properties, spread, common_properties.
  repeat split; rewrite lookup_union; by simplify_map_eq.
Qed.

(** X11. The debounced page view takes [url] and [path] from the navigation
    that started the timer, and [search] and [hash] from [window.location]
    when the timer fires.  After a [pushState] to a tracked page and a second
    one inside the window, the one call reports the first URL with the query
    and fragment of the second; [currentUrl] stays the first URL. *)
Theorem debounced_view_reads_location_late c this cur g depth target target' p w :
  history_pushState w = Patched PushState c →
  navEnv_of w c = {| nav_this := this; currentUrl := cur; isTracking := true |} →
  originalPushState (tracker_of w this) = Some g →
  stack_depth = S depth → native_within depth g = true →
  timers w = [] →
  href target ≠ cur →
  URL_pathname (href target) = Some p → shouldTrack env p = true →
  ∃ w1 w2 w3 properties,
    history_call PushState target w = Ok tt w1
    ∧ history_call PushState target' w1 = Ok tt w2
    ∧ location w2 = target'
    ∧ advance env 100 w2 = ([], w3)
    ∧ sdkCalls w3 = sdkCalls w ++ [Page this properties]
    ∧ properties !! "url" = Some (JString (href target))
    ∧ properties !! "path" = Some (JString p)
    ∧ properties !! "search" = Some (JString (search target'))
    ∧ properties !! "hash" = Some (JString (hash target'))
    ∧ currentUrl (navEnv_of w3 c) = href target
    ∧ timers w3 = [].
Proof.
  intros Hpatched Hvars Horig Hdepth Hnative Htimers Hnew Hpath Htracked.
  set (w0 := upd_location (fun _ => target) w).
  assert (navEnv_of w0 c = navEnv_of w c) as Hvars0 by (by destruct w).
  set (w1 := scheduled c "pushstate" w0).
  assert (history_call PushState target w = Ok tt w1) as Hcall.
  { rewrite (history_call_patched PushState c g depth); try done.
    - fold w0. apply navHook_open; rewrite Hvars0, Hvars; [by destruct w | done].
    - by rewrite Hvars. }
  assert (timers w1 = [{| due := now w + 100; timer_env := c;
                          timer_url := href target; timer_source := "pushstate" |}])
    as Htimers1.
  { unfold w1, scheduled, w0. destruct w. cbn in *. by subst. }
  assert (navEnv_of w1 c
          = {| nav_this := this; currentUrl := href target; isTracking := false |})
    as Hvars1.
  { unfold w1, scheduled. rewrite Hvars0, Hvars. unfold navEnv_of, w0.
    destruct w. cbn. by rewrite lookup_insert_eq. }
  assert (history_pushState w1 = Patched PushState c) as Hpatched1 by (by destruct w).
  assert (tracker_of w1 this = tracker_of w this) as Htracker1 by (by destruct w).
  set (w2 := upd_location (fun _ => target') w1).
  assert (navEnv_of w2 c = navEnv_of w1 c) as Hvars2 by (by destruct w).
  assert (timers w2 = timers w1) as Htimers2 by (by destruct w).
  assert (history_call PushState target' w1 = Ok tt w2) as Hcall2.
  { rewrite (history_call_patched PushState c g depth); try done.
    - fold w2. apply navHook_gate. right. by rewrite Hvars2, Hvars1.
    - rewrite Hvars1. cbn. by rewrite Htracker1. }
  rewrite Htimers1 in Htimers2.
  destruct (advance_due env 100 _ w2 p Htimers2) as (w3 & Hadv & Hsdk & Ht3 & _ & Hcur).
  { cbn. replace (now w2) with (now w) by (by destruct w). lia. }
  { done. }
  cbn [timer_env timer_url timer_source] in *.
  rewrite Hvars2, Hvars1 in Hsdk, Hcur. unfold after_page_view in Hsdk.
  rewrite Htracked, sdkCalls_with_call in Hsdk.
  exists w1, w2, w3. eexists. split; [done|]. split; [done|].
  split; [by destruct w|]. split; [done|].
  split; [rewrite Hsdk; f_equal; by destruct w|].
  destruct (page_properties_lookup env w2 (href target) p "pushstate") as (_ & ? & ?).
  destruct (page_properties_location w2 (href target) p "pushstate") as (Hs & Hh & _).
  replace (location w2) with target' in Hs, Hh by (by destruct w).
  done.
Qed.

(** X12. [setupPageTracking] followed by [destroy], from a state with the
    flag clear: the [popstate] listeners and the flag are as before, and
    each history method is the bound copy of the one found, so a call
    reaches the browser's method, moves the location and starts no timer.
    The method is not the function found but a bound function around it. *)
Theorem interception_round_trip this w p depth :
  URL_pathname (href (location w)) = Some p →
  isPageTrackingSetup w = false →
  next_id w ∉ popstateListeners w →
  ∃ w1 w2,
    setupPageTracking env this w = Ok tt w1
    ∧ destroy this w1 = Ok tt w2
    ∧ history_pushState w2 = Bound (history_pushState w)
    ∧ history_replaceState w2 = Bound (history_replaceState w)
    ∧ popstateListeners w2 = popstateListeners w
    ∧ isPageTrackingSetup w2 = false
    ∧ timers w2 = timers w
    ∧ (∀ op target,
         stack_depth = S depth →
         native_within depth (match op with
                              | PushState => history_pushState w
                              | ReplaceState => history_replaceState w
                              end) = true →
         history_call op target w2 = Ok tt (upd_location (fun _ => target) w2)).
Proof.
  intros Hp Hflag Hfresh.
  exists (page_tracking env this p w), (after_destroy this (page_tracking env this p w)).
  split; [by apply setupPageTracking_eq|]. split; [apply destroy_eq|].
  destruct (installed_history env this p w Hflag)
    as (H1 & H2 & H3 & H4 & H5 & H6 & H7 & H8).
  cbv zeta in H1, H2, H3, H4, H5, H6, H7, H8.
  set (w1 := page_tracking env this p w) in *.
  assert (popstateListeners w1 = popstateListeners w ++ [next_id w]) as Hpop.
  { by rewrite H3, bool_decide_eq_false_2. }
  assert (timers w1 = timers w) as Htm.
  { by destruct (page_tracking_frame env this p w) as ((_ & _ & _ & _ & _ & _ & _ & _ & _ & ? & _) & _). }
  assert (history_pushState (after_destroy this w1) = Bound (history_pushState w)) as Hpush.
  { unfold after_destroy. cbn. by rewrite H5. }
  assert (history_replaceState (after_destroy this w1) = Bound (history_replaceState w))
    as Hrepl.
  { unfold after_destroy. cbn. by rewrite H6. }
  split; [done|]. split; [done|]. split.
  { assert (∀ l : list nat, next_id w ∉ l → filter (fun c => c ≠ next_id w) l = l) as Hfil.
    { induction l as [|x l IH]; [done|]. intros [Hx Hl]%not_elem_of_cons.
      rewrite filter_cons_True by done. by rewrite IH. }
    unfold after_destroy. cbn. rewrite H7, Hpop, filter_app, filter_cons_False by naive_solver.
    rewrite filter_nil, app_nil_r. by apply Hfil. }
  split; [done|]. split; [done|].
  intros op target Hd Hn. unfold history_call. rewrite Hd.
  destruct op; [rewrite Hpush|rewrite Hrepl]; cbn [callHistFn];
    by apply callHistFn_native.
Qed.

End History.

Section WrapperFacts.
Context {P : Platform} (env : Env).

Lemma rudderstackTracking_eq w tracker w0 :
  getInstance w = Ok tracker w0 →
  rudderstackTracking env w
  = match initialize env tracker w0 with
    | Ok success w1 => Ok (tracker, success) w1
    | Throw e w1 => Throw e w1
    end.
Proof. intros H. unfold rudderstackTracking, bind, ret. by rewrite H. Qed.

Lemma getInstance_same w this : instance w = Some this → getInstance w = Ok this w.
Proof. intros H. unfold getInstance, bind, gets, ret. by rewrite H. Qed.

Lemma initialize_skip this w :
  isInitialized (tracker_of w this) = true →
  initialize env this w = Ok (Settled false) w.
Proof. intros H. unfold initialize, bind, gets, ret. by rewrite H. Qed.

Lemma initialize_unconfigured this w :
  falsy (RUDDERSTACK_KEY env) || falsy (RUDDERSTACK_URL env) = true →
  initialize env this w = Ok (Settled false) w.
Proof.
  intros H. unfold initialize, bind, gets, ret. rewrite H.
  by destruct (isInitialized (tracker_of w this)).
Qed.

(** The first call of the wrapper on a page without a tracker. *)
Lemma rudderstackTracking_first w p :
  instance w = None →
  falsy (RUDDERSTACK_KEY env) = false → falsy (RUDDERSTACK_URL env) = false →
  URL_pathname (href (location w)) = Some p →
  let tracker := next_id w in
  let promise := S (next_id w) in
  let w1 := loading env tracker (created w) in
  rudderstackTracking env w = Ok (tracker, Pending promise) w1
  ∧ ∃ w2, fireReady env (length (readyCallbacks w)) w1 = Ok tt w2
          ∧ brought_up env tracker promise p (loaded env tracker (created w)) w2.
Proof.
  intros Hinst Hkey Hurl Hp tracker promise w1.
  assert (tracker_of (created w) tracker = new_tracker) as Ht.
  { unfold created, tracker_of. cbn. by rewrite lookup_insert_eq. }
  split.
  - rewrite (rudderstackTracking_eq w tracker (created w)) by (by apply getInstance_new).
    rewrite initialize_eq; [done|by rewrite Ht|done..].
  - destruct (readyCallback_spec env tracker promise (loaded env tracker (created w)) p)
      as (w2 & Hw2 & Hb).
    { replace (tracker_of (loaded env tracker (created w)) tracker)
        with (tracker_of (created w) tracker) by (by destruct w). by rewrite Ht. }
    { by destruct w. }
    exists w2. split; [|done].
    replace (length (readyCallbacks w)) with (length (readyCallbacks (created w)))
      by (by destruct w).
    unfold w1. by rewrite fireReady_loading.
Qed.

(** X13. The wrapper on a page without a tracker.  Without the key or the
    URL it resolves to [null]; the tracker it made stays in [instance] and
    the SDK is not called.  With both, the first call resolves to the
    [destroy] of the tracker once the readiness callback has run; a second
    call then finds the tracker initialized, changes nothing and resolves to
    [null]; and after [destroy] the wrapper starts over with a new
    tracker. *)
Theorem rudderstackTracking_handle w p :
  instance w = None →
  URL_pathname (href (location w)) = Some p →
  (falsy (RUDDERSTACK_KEY env) || falsy (RUDDERSTACK_URL env) = true →
   ∃ tracker w1,
     rudderstackTracking env w = Ok (tracker, Settled false) w1
     ∧ tracking_handle tracker false = None
     ∧ instance w1 = Some tracker
     ∧ sdkCalls w1 = sdkCalls w)
  ∧ (falsy (RUDDERSTACK_KEY env) = false → falsy (RUDDERSTACK_URL env) = false →
     ∃ tracker promise w1 w2,
       rudderstackTracking env w = Ok (tracker, Pending promise) w1
       ∧ fireReady env (length (readyCallbacks w)) w1 = Ok tt w2
       ∧ tracking_handle tracker <$> settled (Pending promise) w2 = Some (Some tracker)
       ∧ isInitialized (tracker_of w2 tracker) = true
       ∧ rudderstackTracking env w2 = Ok (tracker, Settled false) w2
       ∧ ∃ w3 tracker' promise' w4,
           destroy tracker w2 = Ok tt w3
           ∧ rudderstackTracking env w3 = Ok (tracker', Pending promise') w4
           ∧ tracker' ≠ tracker).
Proof.
  intros Hinst Hp. split.
  - intros Hconf. exists (next_id w), (created w).
    rewrite (rudderstackTracking_eq w (next_id w) (created w)) by (by apply getInstance_new).
    rewrite initialize_unconfigured by done. repeat split; by destruct w.
  - intros Hkey Hurl.
    destruct (rudderstackTracking_first w p Hinst Hkey Hurl Hp) as (Hcall & w2 & Hfire & Hb).
    destruct Hb as (_ & _ & Hi & _ & Hinst2 & _ & Hloc2 & _ & Hpr & _ & Hn2 & _).
    exists (next_id w), (S (next_id w)), (loading env (next_id w) (created w)), w2.
    split; [done|]. split; [done|].
    split; [cbn; by rewrite Hpr, lookup_insert_eq|]. split; [done|].
    assert (instance w2 = Some (next_id w)) as Hinst2' by (rewrite Hinst2; by destruct w).
    split.
    { rewrite (rudderstackTracking_eq w2 (next_id w) w2) by (by apply getInstance_same).
      by rewrite initialize_skip. }
    set (w3 := after_destroy (next_id w) w2).
    assert (location w3 = location w) as Hloc3.
    { transitivity (location w2); [done|]. rewrite Hloc2. by destruct w. }
    destruct (rudderstackTracking_first w3 p) as (Hcall3 & _); try done.
    { by rewrite Hloc3. }
    eexists w3, _, _, _. split; [apply destroy_eq|]. split; [exact Hcall3|].
    replace (next_id w3) with (next_id w2) by done.
    assert (next_id (loaded env (next_id w) (created w)) = S (S (next_id w))) as Hn
      by (by destruct w).
    lia.
Qed.

End WrapperFacts.

Section ProviderFacts.
Context {P : Platform} (env : Env).
Import Provider.

Lemma effect_eq refs w tracker success w1 :
  isInitializedRef refs = false →
  rudderstackTracking env w = Ok (tracker, success) w1 →
  effect env refs w = Ok (Started tracker success) w1.
Proof. intros Hr H. unfold effect. by rewrite Hr, H. Qed.

Lemma add_listener_elem this ls : this ∈ add_listener this ls.
Proof. unfold add_listener. case_bool_decide; set_solver. Qed.

(** X14. The provider is unmounted while [initTracking] waits: [cleanupRef]
    is still empty, so the clean-up does nothing.  The readiness callback
    then sets the tracker up all the same (listeners, observer), and the
    continuation fills the refs of the unmounted component. *)
Theorem unmount_before_ready w p :
  instance w = None →
  falsy (RUDDERSTACK_KEY env) = false → falsy (RUDDERSTACK_URL env) = false →
  URL_pathname (href (location w)) = Some p →
  ∃ tracker promise w1 w2,
    effect env mounted w = Ok (Started tracker (Pending promise)) w1
    ∧ cleanup mounted w1 = Ok mounted w1
    ∧ fireReady env (length (readyCallbacks w)) w1 = Ok tt w2
    ∧ instance w2 = Some tracker
    ∧ isInitialized (tracker_of w2 tracker) = true
    ∧ (∀ e, e ∈ document_querySelectorAll (document w) → tracker ∈ listeners_of w2 e)
    ∧ (∃ o, observers w2 !! o = Some tracker)
    ∧ resume (default None (tracking_handle tracker <$> settled (Pending promise) w2)) mounted
      = {| cleanupRef := Some tracker; isInitializedRef := true |}.
Proof.
  intros Hinst Hkey Hurl Hp.
  destruct (rudderstackTracking_first env w p Hinst Hkey Hurl Hp) as (Hcall & w2 & Hfire & Hb).
  destruct Hb as (Hlis & _ & Hi & _ & Hinst2 & _ & _ & _ & Hpr & _ & _ & _ & _
                  & (o & _ & _ & Hobs) & _).
  exists (next_id w), (S (next_id w)), (loading env (next_id w) (created w)), w2.
  split; [by apply effect_eq|]. split; [done|]. split; [done|].
  split; [rewrite Hinst2; by destruct w|]. split; [done|]. split.
  { intros e He. rewrite Hlis.
    replace (document (loaded env (next_id w) (created w))) with (document w)
      by (by destruct w).
    replace (trackedElements (tracker_of (loaded env (next_id w) (created w)) (next_id w)))
      with (∅ : gset nat).
    - rewrite bool_decide_eq_true_2 by set_solver. apply add_listener_elem.
    - unfold tracker_of. destruct w. cbn. by rewrite lookup_insert_eq. }
  split; [exists o; by rewrite Hobs, lookup_insert_eq|].
  cbn. by rewrite Hpr, lookup_insert_eq.
Qed.

(** X15. The provider mounted, the SDK ready, the provider unmounted, on a
    page without listeners: the clean-up destroys the tracker and resets
    both refs; no element carries a listener, the observers and the
    [popstate] listeners are as before, the history methods are the bound
    originals, the flag is clear, and a later run of the effect starts a new
    tracker. *)
Theorem provider_round_trip w p :
  instance w = None →
  isPageTrackingSetup w = false →
  (∀ e, listeners_of w e = []) →
  (∀ c, c ∈ popstateListeners w → c < next_id w) →
  (∀ o, is_Some (observers w !! o) → o < next_id w) →
  falsy (RUDDERSTACK_KEY env) = false → falsy (RUDDERSTACK_URL env) = false →
  URL_pathname (href (location w)) = Some p →
  ∃ tracker promise w1 w2 w3,
    effect env mounted w = Ok (Started tracker (Pending promise)) w1
    ∧ fireReady env (length (readyCallbacks w)) w1 = Ok tt w2
    ∧ tracking_handle tracker <$> settled (Pending promise) w2 = Some (Some tracker)
    ∧ cleanup (resume (Some tracker) mounted) w2 = Ok mounted w3
    ∧ instance w3 = None
    ∧ (∀ e, listeners_of w3 e = [])
    ∧ observers w3 = observers w
    ∧ history_pushState w3 = Bound (history_pushState w)
    ∧ history_replaceState w3 = Bound (history_replaceState w)
    ∧ popstateListeners w3 = popstateListeners w
    ∧ isPageTrackingSetup w3 = false
    ∧ ∃ tracker' promise' w4,
        effect env mounted w3 = Ok (Started tracker' (Pending promise')) w4
        ∧ tracker' ≠ tracker.
Proof.
  intros Hinst Hflag Hnone Hids Hobsids Hkey Hurl Hp.
  destruct (rudderstackTracking_first env w p Hinst Hkey Hurl Hp) as (Hcall & w2 & Hfire & Hb).
  cbv zeta in Hcall, Hfire, Hb.
  remember (loaded env (next_id w) (created w)) as w0 eqn:Hw0.
  assert (tracker_of w0 (next_id w) = new_tracker) as Ht0.
  { subst w0. unfold tracker_of. destruct w. cbn. by rewrite lookup_insert_eq. }
  assert (isPageTrackingSetup w0 = false) as Hflag0 by (subst w0; by destruct w).
  assert (next_id w0 = S (S (next_id w))) as Hn0 by (subst w0; by destruct w).
  assert (popstateListeners w0 = popstateListeners w) as Hpl0 by (subst w0; by destruct w).
  assert (observers w0 = observers w) as Hob0 by (subst w0; by destruct w).
  assert (listeners_of w0 = listeners_of w) as Hl0 by (subst w0; by destruct w).
  assert (document w0 = document w) as Hdoc0 by (subst w0; by destruct w).
  assert (location w0 = location w) as Hloc0 by (subst w0; by destruct w).
  assert (history_pushState w0 = history_pushState w) as Hhp0 by (subst w0; by destruct w).
  assert (history_replaceState w0 = history_replaceState w) as Hhr0
    by (subst w0; by destruct w).
  clear Hw0.
  destruct Hb as (Hlis & Htr & Hi & _ & Hinst2 & _ & Hloc2 & _ & Hpr & _ & Hn2 & _ & _
                  & (o & Ho & Hmo & Hobs) & Hpush & Hrepl & Hpop & _ & Hop & Hhandler & Hor).
  rewrite Ht0 in Hlis, Htr. cbn [trackedElements new_tracker] in Hlis, Htr.
  rewrite Hl0, Hdoc0 in Hlis. rewrite Hdoc0 in Htr.
  destruct (installed_history env (next_id w) p w0 Hflag0)
    as (_ & _ & H3 & _ & H5 & H6 & H7 & _).
  cbv zeta in H3, H5, H6, H7.
  rewrite Hn0, Hpl0 in H3. rewrite bool_decide_eq_false_2 in H3
    by (intros Hin%Hids; lia).
  rewrite Hhp0 in H5. rewrite Hhr0 in H6. rewrite Hn0 in H7.
  rewrite H5 in Hop. rewrite H6 in Hor. rewrite H7 in Hhandler. rewrite H3 in Hpop.
  exists (next_id w), (S (next_id w)), (loading env (next_id w) (created w)), w2,
    (after_destroy (next_id w) w2).
  split; [by apply effect_eq|]. split; [done|].
  split; [cbn; by rewrite Hpr, lookup_insert_eq|].
  split; [unfold cleanup, resume; cbn [cleanupRef]; unfold bind; by rewrite destroy_eq|].
  split; [done|]. split.
  { intros e. unfold listeners_of, after_destroy. cbn. rewrite remove_from_lookup.
    fold (listeners_of w2 e). rewrite Hlis, Hnone, Htr.
    destruct (decide (e ∈ document_querySelectorAll (document w))) as [He|He].
    - rewrite !bool_decide_eq_true_2; [|set_solver|apply elem_of_elements; set_solver].
      unfold add_listener. rewrite bool_decide_eq_false_2 by set_solver. cbn [app].
      by rewrite filter_cons_False, filter_nil by (intros H; by apply H).
    - rewrite !bool_decide_eq_false_2; [done|set_solver|].
      rewrite elem_of_elements. set_solver. }
  split.
  { unfold after_destroy. cbn. rewrite Hmo, Hobs, Hob0. apply delete_insert_id.
    destruct (observers w !! o) eqn:Hlook; [|done].
    assert (o < next_id w) by (apply Hobsids; by eexists). lia. }
  split; [unfold after_destroy; cbn; by rewrite Hop|].
  split; [unfold after_destroy; cbn; by rewrite Hor|].
  split.
  { assert (∀ (c : nat) (l : list nat), c ∉ l → filter (fun x => x ≠ c) l = l) as Hfil.
    { intros c. induction l as [|x l IH]; [done|]. intros [Hx Hl]%not_elem_of_cons.
      rewrite filter_cons_True by done. by rewrite IH. }
    unfold after_destroy. cbn. rewrite Hhandler, Hpop, filter_app.
    rewrite (filter_cons_False _ (S (S (next_id w)))) by naive_solver.
    rewrite filter_nil, app_nil_r. apply Hfil. intros Hin%Hids. lia. }
  split; [done|].
  destruct (rudderstackTracking_first env (after_destroy (next_id w) w2) p)
    as (Hcall3 & _); try done.
  { replace (location (after_destroy (next_id w) w2)) with (location w2) by done.
    by rewrite Hloc2, Hloc0. }
  eexists _, _, _. split; [apply effect_eq; [done|exact Hcall3]|].
  replace (next_id (after_destroy (next_id w) w2)) with (next_id w2) by done. lia.
Qed.

(** X16. [useRudderAnalytics] does not throw where the module can put it:
    without a provider above, [useContext] gives the default of
    [createContext], an object, and under [RudderAnalyticsProvider] the
    rendered value, an object too.  The error is thrown only when a provider
    provides [null] or [undefined].  The value rendered at mount says that
    tracking is not initialized. *)
Theorem useRudderAnalytics_never_throws :
  useRudderAnalytics None = inl RudderAnalyticsContext
  ∧ (∀ refs, useRudderAnalytics (Some (Some (value refs))) = inl (value refs))
  ∧ (∀ nearest message, useRudderAnalytics nearest = inr message → nearest = Some None)
  ∧ value mounted = RudderAnalyticsContext.
Proof.
  split; [done|]. split; [done|]. split; [|done].
  intros [[c|]|] message; cbn; by intros [=].
Qed.

End ProviderFacts.

Section ClickPayload.
Context {P : Platform} (env : Env).

(** X26. The click handler reads [data-rudderstack-id] for the log only: two
    elements whose attributes differ in the identifier alone produce the
    same call, or the same error, and a click on either is reported alike
    by every listener. *)
Theorem trackingEvent_ignores_id attrs attrs' :
  (∀ name, name ≠ tracking_attr → attrs !! name = attrs' !! name) →
  (∀ this w, trackingEvent env this attrs w = trackingEvent env this attrs' w)
  ∧ (∀ e w, click env e attrs w = click env e attrs' w).
Proof.
  intros H.
  assert (∀ this w, trackingEvent env this attrs w = trackingEvent env this attrs' w) as Heq.
  { intros this w. unfold trackingEvent, getAttribute.
    by rewrite (H "data-rudderstack-event"), (H "data-rudderstack-props"). }
  split; [done|].
  intros e w. unfold click. generalize (listeners_of w e). intros l. revert w.
  induction l as [|this l IH]; intros w; [done|].
  cbn [map run_tasks]. rewrite Heq.
  destruct (trackingEvent env this attrs' w) as [[] w1|err w1]; by rewrite IH.
Qed.

End ClickPayload.

(** ** On the sample pages *)

(** The scan of the landing page finds its button. *)
Lemma setupObserver_covers_document_witness :
  ∃ w', setupObserver 0 Scenario.landing = Ok tt w'
        ∧ 10 ∈ trackedElements (tracker_of w' 0)
        ∧ 0 ∈ listeners_of w' 10.
Proof.
  destruct (setupObserver_covers_document 0 Scenario.landing)
    as (w' & Hw' & Hcov & _).
  { intros e He. cbn in He. set_solver. }
  exists w'. split; [exact Hw'|]. apply Hcov. vm_compute. constructor.
Defined.

(** A container that arrives with a tracked button inside: the button gets
    the listener, on the reference platform too. *)
Lemma observer_attaches_added_witness :
  ∃ w', @observerCallback Reference.platform 0 [ChildListRecord [Cases.late_section]]
          Scenario.landing = Ok tt w'
        ∧ 0 ∈ listeners_of w' 21.
Proof.
  destruct (@observer_attaches_added Reference.platform 0
              [ChildListRecord [Cases.late_section]] Scenario.landing)
    as (_ & w' & Hw' & Hcov & _).
  { intros e He. vm_compute in He. inversion He. }
  { intros e He. cbn in He. set_solver. }
  exists w'. split; [exact Hw'|].
  apply (Hcov (ChildListRecord [Cases.late_section]) 21); [constructor|].
  vm_compute. constructor.
Defined.

(** A tracked button that arrives on its own, on the reference platform. *)
Lemma observer_constructor_throws_witness :
  @observerCallback Reference.platform 0
    [ChildListRecord [ElementNode 11 {[ tracking_attr := "cta" ]} []]] Scenario.running
  = Throw TypeError Scenario.running.
Proof.
  destruct (@observer_constructor_throws Reference.platform 0 11
              {[ tracking_attr := "cta" ]} Scenario.running) as (H & _);
    [reflexivity | vm_compute; reflexivity |].
  exact (H [] [] []).
Defined.

(** The tracker is brought up on the landing page. *)
Lemma initialize_brings_up_witness :
  ∃ promise w1 w2,
    initialize sample_env 0 Scenario.landing = Ok (Pending promise) w1
    ∧ @fireReady Reference.platform sample_env 0 w1 = Ok tt w2
    ∧ 0 ∈ listeners_of w2 10
    ∧ isPageTrackingSetup w2 = true.
Proof.
  destruct (@initialize_brings_up Reference.platform sample_env 0 Scenario.landing "/")
    as (promise & w1 & w2 & H1 & H2 & _ & _ & _ & _ & Hcov & _ & _ & Hflag & _);
    [reflexivity | reflexivity | reflexivity | vm_compute; reflexivity | |].
  { intros e He. cbn in He. set_solver. }
  exists promise, w1, w2. split; [exact H1|]. split; [exact H2|].
  split; [|exact Hflag]. apply Hcov. vm_compute. constructor.
Defined.

(** [initialize] is called twice on the landing page before the SDK is
    ready. *)
Lemma initialize_twice_in_flight_witness :
  ∃ first w1 second w2 w3 w4,
    initialize sample_env 0 Scenario.landing = Ok (Pending first) w1
    ∧ initialize sample_env 0 w1 = Ok (Pending second) w2
    ∧ first ≠ second
    ∧ length (sdkCalls w2) = 2
    ∧ @fireReady Reference.platform sample_env 0 w2 = Ok tt w3
    ∧ @fireReady Reference.platform sample_env 0 w3 = Ok tt w4
    ∧ promises w4 !! first = Some true
    ∧ promises w4 !! second = Some true.
Proof.
  destruct (@initialize_twice_in_flight Reference.platform sample_env 0 Scenario.landing "/")
    as (first & w1 & second & w2 & w3 & w4 & H1 & H2 & H3 & H4 & _ & H6 & _ & _ & H9 & _
        & H11 & H12);
    [reflexivity | reflexivity | reflexivity | vm_compute; reflexivity |].
  exists first, w1, second, w2, w3, w4.
  split; [exact H1|]. split; [exact H2|]. split; [exact H3|].
  split; [rewrite H4; reflexivity|].
  split; [exact H6|]. split; [exact H9|]. split; [exact H11 | exact H12].
Defined.

(** The tracker 0 is destroyed while it waits for the SDK. *)
Lemma destroy_while_pending_witness :
  ∃ b w5, b ≠ 0 ∧ instance w5 = Some b ∧ listeners_of w5 10 = [0; b].
Proof.
  destruct (@destroy_while_pending Reference.platform sample_env 0 1 0 Cases.pending "/")
    as (w1 & w2 & b & w3 & promise' & w4 & w5 & _ & _ & _ & _ & _ & Hb & _ & _ & Hi & Hl & _);
    [vm_compute; reflexivity | vm_compute; reflexivity | vm_compute; reflexivity
    | vm_compute; reflexivity | | vm_compute; lia | reflexivity | reflexivity
    | vm_compute; reflexivity |].
  { intros e. unfold listeners_of.
    replace (clickListeners Cases.pending) with (∅ : gmap nat (list nat))
      by (vm_compute; reflexivity).
    rewrite lookup_empty. reflexivity. }
  exists b, w5. split; [exact Hb|]. split; [exact Hi|].
  apply Hl. vm_compute. constructor.
Defined.

(** The tracker is destroyed right after a navigation to [/search]; the page
    view is reported 100 ms later. *)
Lemma destroy_keeps_timers_witness :
  ∃ w' properties,
    destroy 0 Cases.navigating = Ok tt w'
    ∧ timers w' = [Cases.search_timer]
    ∧ sdkCalls (snd (@advance Reference.platform sample_env 100 w'))
      = sdkCalls Cases.navigating ++ [Page 0 properties].
Proof.
  destruct (@destroy_keeps_timers Reference.platform sample_env 0 100 Cases.navigating)
    as (w' & Hd & Ht & _ & _ & _ & _ & Hfire).
  destruct (Hfire Cases.search_timer "/search") as (properties & Hp & _);
    [vm_compute; reflexivity | vm_compute; lia | vm_compute; reflexivity
    | vm_compute; reflexivity |].
  exists w', properties. split; [exact Hd|]. split.
  - rewrite Ht. vm_compute. reflexivity.
  - exact Hp.
Defined.

(** A navigation to [/search], then one to [/other?x=1#top] inside the
    window. *)
Lemma debounced_view_reads_location_late_witness :
  ∃ w3 properties,
    sdkCalls w3 = sdkCalls Scenario.running ++ [Page 0 properties]
    ∧ properties !! "url" = Some (JString "https://example.com/search")
    ∧ properties !! "search" = Some (JString "?x=1")
    ∧ properties !! "hash" = Some (JString "#top").
Proof.
  destruct (@debounced_view_reads_location_late Reference.platform sample_env 2 0
              "https://example.com/" (Bound (Native PushState)) 999
              (at_url "https://example.com/search") Cases.other "/search" Scenario.running)
    as (w1 & w2 & w3 & properties & _ & _ & _ & _ & Hsdk & Hurl & _ & Hsearch & Hhash & _);
    [vm_compute; reflexivity ..| discriminate | reflexivity | reflexivity |].
  exists w3, properties. split; [exact Hsdk|]. split; [exact Hurl|].
  split; [exact Hsearch | exact Hhash].
Defined.

(** Set-up and destroy on the landing page. *)
Lemma interception_round_trip_witness :
  ∃ w1 w2,
    @setupPageTracking Reference.platform sample_env 0 Scenario.landing = Ok tt w1
    ∧ destroy 0 w1 = Ok tt w2
    ∧ history_pushState w2 = Bound (Native PushState)
    ∧ popstateListeners w2 = []
    ∧ @history_call Reference.platform PushState (at_url "https://example.com/search") w2
      = Ok tt (upd_location (fun _ => at_url "https://example.com/search") w2).
Proof.
  destruct (@interception_round_trip Reference.platform sample_env 0 Scenario.landing "/" 999)
    as (w1 & w2 & H1 & H2 & H3 & _ & H5 & _ & _ & H8);
    [vm_compute; reflexivity | reflexivity | |].
  { cbn. set_solver. }
  exists w1, w2. split; [exact H1|]. split; [exact H2|]. split; [exact H3|].
  split; [exact H5|]. apply (H8 PushState); reflexivity.
Defined.

(** The wrapper on the landing page, without the key and with it. *)
Lemma rudderstackTracking_handle_witness :
  (∃ tracker w1,
     rudderstackTracking Scenario.no_key Scenario.landing = Ok (tracker, Settled false) w1
     ∧ sdkCalls w1 = [])
  ∧ ∃ tracker promise w1 w2,
      rudderstackTracking sample_env Scenario.landing = Ok (tracker, Pending promise) w1
      ∧ @fireReady Reference.platform sample_env 0 w1 = Ok tt w2
      ∧ rudderstackTracking sample_env w2 = Ok (tracker, Settled false) w2.
Proof.
  destruct (@rudderstackTracking_handle Reference.platform Scenario.no_key Scenario.landing "/")
    as (Hnull & _); [reflexivity | vm_compute; reflexivity |].
  destruct (@rudderstackTracking_handle Reference.platform sample_env Scenario.landing "/")
    as (_ & Hsome); [reflexivity | vm_compute; reflexivity |].
  split.
  - destruct Hnull as (tracker & w1 & H1 & _ & _ & H4); [reflexivity|].
    exists tracker, w1. split; [exact H1 | exact H4].
  - destruct Hsome as (tracker & promise & w1 & w2 & H1 & H2 & _ & _ & H5 & _);
      [reflexivity | reflexivity |].
    exists tracker, promise, w1, w2. split; [exact H1|]. split; [exact H2 | exact H5].
Defined.

(** The provider is mounted on the landing page and unmounted at once. *)
Lemma unmount_before_ready_witness :
  ∃ tracker promise w1 w2,
    Provider.effect sample_env Provider.mounted Scenario.landing
    = Ok (Provider.Started tracker (Pending promise)) w1
    ∧ Provider.cleanup Provider.mounted w1 = Ok Provider.mounted w1
    ∧ @fireReady Reference.platform sample_env 0 w1 = Ok tt w2
    ∧ tracker ∈ listeners_of w2 10.
Proof.
  destruct (@unmount_before_ready Reference.platform sample_env Scenario.landing "/")
    as (tracker & promise & w1 & w2 & H1 & H2 & H3 & _ & _ & H6 & _);
    [reflexivity | reflexivity | reflexivity | vm_compute; reflexivity |].
  exists tracker, promise, w1, w2. split; [exact H1|]. split; [exact H2|].
  split; [exact H3|]. apply H6. vm_compute. constructor.
Defined.

(** The provider is mounted on the landing page and unmounted once the SDK
    is ready. *)
Lemma provider_round_trip_witness :
  ∃ tracker promise w1 w2 w3,
    Provider.effect sample_env Provider.mounted Scenario.landing
    = Ok (Provider.Started tracker (Pending promise)) w1
    ∧ @fireReady Reference.platform sample_env 0 w1 = Ok tt w2
    ∧ Provider.cleanup (Provider.resume (Some tracker) Provider.mounted) w2
      = Ok Provider.mounted w3
    ∧ listeners_of w3 10 = []
    ∧ history_pushState w3 = Bound (Native PushState).
Proof.
  destruct (@provider_round_trip Reference.platform sample_env Scenario.landing "/")
    as (tracker & promise & w1 & w2 & w3 & H1 & H2 & _ & H4 & _ & H6 & _ & H8 & _);
    [reflexivity | reflexivity | | | | reflexivity | reflexivity | vm_compute; reflexivity |].
  { intros e. reflexivity. }
  { intros c Hc. cbn in Hc. set_solver. }
  { intros o [x Hx]. cbn in Hx. rewrite lookup_empty in Hx. discriminate Hx. }
  exists tracker, promise, w1, w2, w3. split; [exact H1|]. split; [exact H2|].
  split; [exact H4|]. split; [apply H6 | exact H8].
Defined.

(** Two buttons that differ in their identifier only. *)
Lemma trackingEvent_ignores_id_witness :
  @trackingEvent Reference.platform sample_env 0 plan_button home
  = @trackingEvent Reference.platform sample_env 0
      (<[tracking_attr := "other"]> plan_button) home.
Proof.
  destruct (@trackingEvent_ignores_id Reference.platform sample_env plan_button
              (<[tracking_attr := "other"]> plan_button)) as (H & _).
  - intros name Hname. symmetry. apply lookup_insert_ne. congruence.
  - apply H.
Defined.

(** * Properties of the configuration *)

Section Text.
Import Str.
#[local] Arguments String.append !_ _ /.

Lemma append_nil_r s : s +:+ "" = s.
Proof. induction s; cbn; by f_equal. Qed.

Lemma append_assoc a b c : (a +:+ b) +:+ c = a +:+ (b +:+ c).
Proof. induction a; cbn; by f_equal. Qed.

Lemma append_snoc_not_nil r c : r +:+ String c "" ≠ "".
Proof. by destruct r. Qed.

Lemma blank_app a b : blank (a +:+ b) = blank a && blank b.
Proof. induction a as [|c a IH]; cbn; [done|]. rewrite IH. by destruct (is_space c). Qed.

Lemma trimStart_split s : ∃ a, s = a +:+ trimStart s ∧ blank a = true.
Proof.
  induction s as [|c s (a & Ha & Hb)]; [by exists ""|]. cbn.
  destruct (is_space c) eqn:Hc.
  - exists (String c a). cbn. rewrite Hc, Hb. split; [by f_equal|done].
  - by exists "".
Qed.

Lemma trimStart_clean s c rest : trimStart s = String c rest → is_space c = false.
Proof.
  induction s as [|d s IH]; cbn; [done|].
  destruct (is_space d) eqn:Hd; [done|]. by intros [= -> _].
Qed.

Lemma trimEnd_split s : ∃ b, s = trimEnd s +:+ b ∧ blank b = true.
Proof.
  induction s as [|c s (b & Hb & Hblank)]; [by exists ""|]. cbn.
  destruct (trimEnd s) as [|d k] eqn:Hk; cbn in Hb.
  - destruct (is_space c) eqn:Hc.
    + exists (String c s). cbn. rewrite Hc. by subst b.
    + exists b. cbn. split; [by f_equal|done].
  - exists b. cbn. split; [by f_equal|done].
Qed.

Lemma trimEnd_clean s c rest : trimEnd s = rest +:+ String c "" → is_space c = false.
Proof.
  revert rest. induction s as [|d s IH]; intros rest; cbn.
  - by destruct rest.
  - destruct (trimEnd s) as [|e k].
    + destruct (is_space d) eqn:Hd.
      * by destruct rest.
      * destruct rest as [|x rest]; cbn; [by intros [= <-]|].
        intros [= _ H]. by destruct rest.
    + destruct rest as [|x rest]; cbn; [done|]. intros [= _ H]. by apply (IH rest).
Qed.

Lemma trimEnd_head s c rest :
  trimEnd s = String c rest → ∃ rest', s = String c rest'.
Proof.
  destruct s as [|d s]; cbn; [done|].
  destruct (trimEnd s); [destruct (is_space d)|]; intros [=]; subst; by eexists.
Qed.

Lemma trim_trimmed s : trimmed (trim s).
Proof.
  intros c rest. split; intros H.
  - apply trimEnd_head in H as [rest' H]. by apply trimStart_clean in H.
  - by apply trimEnd_clean in H.
Qed.

(** What [trim] takes off is white space, at the two ends. *)
Lemma trim_split s :
  ∃ a b, s = a +:+ trim s +:+ b ∧ blank a = true ∧ blank b = true.
Proof.
  destruct (trimStart_split s) as (a & Ha & Hblank).
  destruct (trimEnd_split (trimStart s)) as (b & Hb & Hblank').
  exists a, b. unfold trim. by rewrite <- Hb, <- Ha.
Qed.

Lemma trimStart_id s :
  (∀ c rest, s = String c rest → is_space c = false) → trimStart s = s.
Proof. destruct s as [|c s]; [done|]. intros H. cbn. by rewrite (H c s). Qed.

Lemma trimEnd_id s :
  (∀ c rest, s = rest +:+ String c "" → is_space c = false) → trimEnd s = s.
Proof.
  induction s as [|c s IH]; [done|]. intros H. cbn.
  destruct s as [|d s].
  - cbn. by rewrite (H c "").
  - rewrite IH; [done|]. intros x rest Hx. apply (H x (String c rest)). cbn. by f_equal.
Qed.

Lemma trim_id s : trimmed s → trim s = s.
Proof.
  intros H. unfold trim. rewrite trimStart_id by (intros c rest; apply H).
  apply trimEnd_id. intros c rest; apply H.
Qed.

Lemma free_of_cons sep c s :
  free_of sep (String c s) ↔ c ≠ sep ∧ free_of sep s.
Proof. unfold free_of. cbn. rewrite not_elem_of_cons. naive_solver. Qed.

Lemma free_of_app sep a b : free_of sep (a +:+ b) ↔ free_of sep a ∧ free_of sep b.
Proof.
  induction a as [|c a IH]; cbn.
  - unfold free_of at 2. cbn. set_solver.
  - rewrite !free_of_cons, IH. naive_solver.
Qed.

Lemma trim_free sep s : free_of sep s → free_of sep (trim s).
Proof.
  destruct (trim_split s) as (a & b & Hs & _). intros H. rewrite Hs in H.
  apply free_of_app in H as [_ H]. by apply free_of_app in H as [H _].
Qed.

Lemma split_not_nil sep s : split sep s ≠ [].
Proof.
  destruct s as [|c s]; cbn; [done|].
  destruct (Ascii.eqb c sep); [done|]. by destruct (split sep s).
Qed.

Lemma join_cons sep p l :
  l ≠ [] → join sep (p :: l) = p +:+ String sep (join sep l).
Proof. by destruct l. Qed.

Lemma join_split sep s : join sep (split sep s) = s.
Proof.
  induction s as [|c s IH]; [done|]. cbn [split].
  destruct (Ascii.eqb_spec c sep) as [->|Hne].
  - rewrite join_cons by apply split_not_nil. cbn. by rewrite IH.
  - destruct (split sep s) as [|p ps] eqn:Hs; [by apply split_not_nil in Hs|].
    destruct ps as [|p' ps]; cbn in *; by rewrite <- IH.
Qed.

Lemma split_free sep s : Forall (free_of sep) (split sep s).
Proof.
  induction s as [|c s IH]; cbn.
  - repeat constructor. unfold free_of. cbn. set_solver.
  - destruct (Ascii.eqb_spec c sep) as [->|Hne].
    + constructor; [|done]. unfold free_of. cbn. set_solver.
    + destruct (split sep s) as [|p ps] eqn:Hs; [by apply split_not_nil in Hs|].
      inversion_clear IH. constructor; [|done]. by apply free_of_cons.
Qed.

Lemma split_one sep p : free_of sep p → split sep p = [p].
Proof.
  induction p as [|c p IH]; [done|]. intros [Hc Hp]%free_of_cons. cbn.
  destruct (Ascii.eqb_spec c sep); [done|]. by rewrite IH.
Qed.

Lemma split_app sep p t :
  free_of sep p → split sep (p +:+ String sep t) = p :: split sep t.
Proof.
  induction p as [|c p IH]; cbn.
  - intros _. by rewrite Ascii.eqb_refl.
  - intros [Hc Hp]%free_of_cons. destruct (Ascii.eqb_spec c sep); [done|]. by rewrite IH.
Qed.

Lemma split_join sep l :
  l ≠ [] → Forall (free_of sep) l → split sep (join sep l) = l.
Proof.
  induction l as [|p l IH]; [done|]. intros _ Hall. inversion_clear Hall as [|? ? Hp Hl].
  destruct l as [|p' l]; [by apply split_one|].
  rewrite join_cons by done. rewrite split_app by done. by rewrite IH.
Qed.

End Text.

Section TrackedPages.
Import Str.

Lemma trackedPages_of_Some text :
  text ≠ "" → trackedPages_of (Some text) = map trim (split ","%char text).
Proof. by destruct text. Qed.

(** X17. The list the tracker reads from [RUDDERSTACK_TRACKED_PAGES]: for a
    non-empty text made of pieces without a comma, with a comma between
    them, it is the pieces trimmed, in order, the empty ones included. *)
Theorem trackedPages_of_text pieces :
  pieces ≠ [] → Forall (free_of ","%char) pieces → join ","%char pieces ≠ "" →
  trackedPages_of (Some (join ","%char pieces)) = map trim pieces
  ∧ trackedPages (module_env {[ "RUDDERSTACK_TRACKED_PAGES" := join ","%char pieces ]})
    = map trim pieces.
Proof.
  intros Hne Hfree Htext.
  assert (trackedPages_of (Some (join ","%char pieces)) = map trim pieces) as H.
  { rewrite trackedPages_of_Some by done. by rewrite split_join. }
  split; [done|]. cbn. by rewrite lookup_singleton_eq.
Qed.

(** X18. [trackedPages] for every value of the variable: empty when the
    variable is unset or empty; otherwise the text is a comma-separated list
    of comma-free pieces and the list is these pieces trimmed; and no entry
    starts or ends with white space or holds a comma. *)
Theorem trackedPages_of_entries raw :
  (falsy raw = true → trackedPages_of raw = [])
  ∧ (∀ text, raw = Some text → text ≠ "" →
       ∃ pieces, text = join ","%char pieces
                 ∧ Forall (free_of ","%char) pieces
                 ∧ trackedPages_of raw = map trim pieces)
  ∧ Forall (fun page => trimmed page ∧ free_of ","%char page) (trackedPages_of raw).
Proof.
  split; [|split].
  - unfold trackedPages_of. by intros ->.
  - intros text -> Htext. exists (split ","%char text).
    split; [by rewrite join_split|]. split; [apply split_free|].
    by apply trackedPages_of_Some.
  - unfold trackedPages_of. destruct (falsy raw); [constructor|].
    apply Forall_fmap. eapply Forall_impl; [apply split_free|].
    intros p Hp. split; [apply trim_trimmed | by apply trim_free].
Qed.

End TrackedPages.

Section Resolver.
Import Str EnvUtil.

Lemma STATIC_INLINE_MAP_lookup src name :
  mjoin (STATIC_INLINE_MAP src !! name)
  = if bool_decide (name ∈ inline_keys)
    then build_env src !! ("REACT_APP_" +:+ name)
    else None.
Proof.
  unfold STATIC_INLINE_MAP, inline_keys.
  repeat match goal with
  | |- context [<[?k := _]> _ !! name] =>
      destruct (decide (name = k)) as [->|?];
      [ rewrite lookup_insert_eq, bool_decide_eq_true_2 by set_solver; reflexivity
      | rewrite lookup_insert_ne by done ]
  end.
  rewrite lookup_empty, bool_decide_eq_false_2; [done|]. set_solver.
Qed.

Lemma parseMaybeBoolean_not_text v :
  parseMaybeBoolean v ≠ JString "true" ∧ parseMaybeBoolean v ≠ JString "false".
Proof.
  destruct v as [| | |s| |]; cbn; try done.
  destruct (String.eqb_spec s "true"); [done|].
  destruct (String.eqb_spec s "false"); [done|].
  split; intros [=]; done.
Qed.

Lemma parseMaybeBoolean_idem v :
  parseMaybeBoolean (parseMaybeBoolean v) = parseMaybeBoolean v.
Proof.
  destruct v as [| | |s| |]; cbn; try done.
  destruct (String.eqb_spec s "true"); [done|].
  destruct (String.eqb_spec s "false"); [done|]. cbn.
  destruct (String.eqb_spec s "true"); [done|].
  by destruct (String.eqb_spec s "false").
Qed.

Lemma getEnvVar_parsed src name v :
  getEnvVar src name = Some v → ∃ v0, v = parseMaybeBoolean v0.
Proof.
  unfold getEnvVar. intros H.
  repeat case_match; simplify_eq; by eexists.
Qed.

(** X20. [getEnvVar] never returns the text ["true"] or ["false"]: such a
    value comes back as a boolean, and [parseMaybeBoolean] changes no value
    that [getEnvVar] returned. *)
Theorem getEnvVar_booleans src name :
  getEnvVar src name ≠ Some (JString "true")
  ∧ getEnvVar src name ≠ Some (JString "false")
  ∧ (∀ v, getEnvVar src name = Some v → parseMaybeBoolean v = v).
Proof.
  split; [|split].
  - intros (v0 & H)%getEnvVar_parsed. destruct (parseMaybeBoolean_not_text v0). congruence.
  - intros (v0 & H)%getEnvVar_parsed. destruct (parseMaybeBoolean_not_text v0). congruence.
  - intros v (v0 & ->)%getEnvVar_parsed. apply parseMaybeBoolean_idem.
Qed.

Lemma getEnvVar_unfold src name :
  getEnvVar src name
  = match (if bool_decide (name ∈ inline_keys)
           then build_env src !! ("REACT_APP_" +:+ name) else None) with
    | Some (String c rest) => Some (parseMaybeBoolean (JString (String c rest)))
    | _ =>
      match (match import_meta_env src with
             | Some viteEnv => coalesce (viteEnv !! ("VITE_" +:+ name)) (viteEnv !! name)
             | None => None
             end) with
      | Some v => Some (parseMaybeBoolean v)
      | None =>
        match (match process_env src with
               | Some penv =>
                   coalesce_text (penv !! ("NEXT_PUBLIC_" +:+ name))
                     (coalesce_text (penv !! ("VITE_" +:+ name)) (penv !! name))
               | None => None
               end) with
        | Some v => Some (parseMaybeBoolean (JString v))
        | None => parseMaybeBoolean <$> (window_config src ≫= fun w => w !! name)
        end
      end
    end.
Proof.
  unfold getEnvVar. rewrite STATIC_INLINE_MAP_lookup.
  repeat case_match; simplify_eq; try done.
Qed.

(** X21. The inlined map of [getEnvVar], for the name of a variable: a
    non-empty value inlined for one of the eight listed keys is returned,
    whatever the other places hold; a name that is not listed is never
    served from the inlined values; and an inlined value that is empty or
    missing is passed over. *)
Theorem getEnvVar_inlined src name :
  name ∉ inherited →
  let silent :=
    {| build_env := ∅; import_meta_env := import_meta_env src;
       process_env := process_env src; window_config := window_config src |} in
  (∀ v, name ∈ inline_keys →
        build_env src !! ("REACT_APP_" +:+ name) = Some v → v ≠ "" →
        getEnvVar src name = Some (parseMaybeBoolean (JString v)))
  ∧ (name ∉ inline_keys → getEnvVar src name = getEnvVar silent name)
  ∧ (build_env src !! ("REACT_APP_" +:+ name) = Some ""
     ∨ build_env src !! ("REACT_APP_" +:+ name) = None →
     getEnvVar src name = getEnvVar silent name).
Proof.
  intros _ silent.
  assert (∀ s : Sources, (if bool_decide (name ∈ inline_keys)
             then build_env silent !! ("REACT_APP_" +:+ name) else None) = None) as Hs.
  { intros _. by case_bool_decide. }
  split; [|split].
  - intros v Hin Hv Hne. rewrite getEnvVar_unfold, bool_decide_eq_true_2, Hv by done.
    by destruct v.
  - intros Hout. rewrite !getEnvVar_unfold, (Hs src), bool_decide_eq_false_2 by done. done.
  - intros H. rewrite !getEnvVar_unfold, (Hs src).
    case_bool_decide; [|done]. by destruct H as [-> | ->].
Qed.

(** X22. For the name of a variable, [getEnvVar] returns [undefined] exactly
    when no place holds it: nothing non-empty is inlined for it, Vite's environment has
    neither name (a [null] under the prefixed name counts as absent),
    [process.env] has none of its three names, and the injected window
    configuration does not have it. *)
Theorem getEnvVar_undefined src name :
  name ∉ inherited →
  getEnvVar src name = None
  ↔ (name ∈ inline_keys →
       build_env src !! ("REACT_APP_" +:+ name) = Some ""
       ∨ build_env src !! ("REACT_APP_" +:+ name) = None)
    ∧ (∀ viteEnv, import_meta_env src = Some viteEnv →
         nullish (viteEnv !! ("VITE_" +:+ name)) = true ∧ viteEnv !! name = None)
    ∧ (∀ penv, process_env src = Some penv →
         penv !! ("NEXT_PUBLIC_" +:+ name) = None
         ∧ penv !! ("VITE_" +:+ name) = None
         ∧ penv !! name = None)
    ∧ (∀ w, window_config src = Some w → w !! name = None).
Proof.
  intros _. rewrite getEnvVar_unfold. split.
  - intros H.
    destruct (if bool_decide (name ∈ inline_keys) then _ else None)
      as [inlined|] eqn:HA;
      [destruct inlined; [|done]|];
      (destruct (match import_meta_env src with Some _ => _ | None => None end) eqn:HB;
       [done|]);
      (destruct (match process_env src with Some _ => _ | None => None end) eqn:HC;
       [done|]);
      (destruct (window_config src ≫= _) eqn:HD; [done|]); clear H.
    all: split; [intros Hin; rewrite bool_decide_eq_true_2 in HA by done; auto|].
    all: split; [intros viteEnv Hv; rewrite Hv in HB; unfold coalesce in HB;
                 destruct (nullish (viteEnv !! ("VITE_" +:+ name))) eqn:Hn;
                 [done|by rewrite HB in Hn]|].
    all: split; [intros penv Hp; rewrite Hp in HC; unfold coalesce_text in HC;
                 by repeat case_match|].
    all: intros w Hw; by rewrite Hw in HD.
  - intros (Hb & Hv & Hp & Hw).
    assert ((if bool_decide (name ∈ inline_keys)
             then build_env src !! ("REACT_APP_" +:+ name) else None) = None
            ∨ (if bool_decide (name ∈ inline_keys)
               then build_env src !! ("REACT_APP_" +:+ name) else None) = Some "") as Hb'.
    { case_bool_decide; [|by left]. destruct (Hb ltac:(done)); auto. }
    assert (match import_meta_env src with
            | Some viteEnv => coalesce (viteEnv !! ("VITE_" +:+ name)) (viteEnv !! name)
            | None => None
            end = None) as ->.
    { destruct (import_meta_env src) as [viteEnv|]; [|done].
      destruct (Hv viteEnv eq_refl) as [Hn ->]. unfold coalesce. by rewrite Hn. }
    assert (match process_env src with
            | Some penv =>
                coalesce_text (penv !! ("NEXT_PUBLIC_" +:+ name))
                  (coalesce_text (penv !! ("VITE_" +:+ name)) (penv !! name))
            | None => None
            end = None) as ->.
    { destruct (process_env src) as [penv|]; [|done].
      by destruct (Hp penv eq_refl) as (-> & -> & ->). }
    assert (window_config src ≫= (fun w => w !! name) = None) as ->.
    { destruct (window_config src) as [w|]; [|done]. cbn. by apply Hw. }
    by destruct Hb' as [-> | ->].
Qed.

(** X23. The names [getEnvVar] reads in [process.env], for a variable that
    is neither inlined nor given by Vite: [NEXT_PUBLIC_] first, then
    [VITE_], then the plain name.  An empty value under the plain name is
    returned as the empty text, where an empty inlined value is passed
    over. *)
Theorem getEnvVar_process_env src name penv :
  name ∉ inherited →
  (name ∈ inline_keys → build_env src !! ("REACT_APP_" +:+ name) = None) →
  import_meta_env src = None →
  process_env src = Some penv →
  (∀ v, penv !! ("NEXT_PUBLIC_" +:+ name) = Some v →
        getEnvVar src name = Some (parseMaybeBoolean (JString v)))
  ∧ (∀ v, penv !! ("NEXT_PUBLIC_" +:+ name) = None →
          penv !! ("VITE_" +:+ name) = Some v →
          getEnvVar src name = Some (parseMaybeBoolean (JString v)))
  ∧ (∀ v, penv !! ("NEXT_PUBLIC_" +:+ name) = None →
          penv !! ("VITE_" +:+ name) = None →
          penv !! name = Some v →
          getEnvVar src name = Some (parseMaybeBoolean (JString v)))
  ∧ (penv !! name = Some "" →
     penv !! ("NEXT_PUBLIC_" +:+ name) = None →
     penv !! ("VITE_" +:+ name) = None →
     getEnvVar src name = Some (JString "")).
Proof.
  intros _ Hb Hv Hp.
  assert ((if bool_decide (name ∈ inline_keys)
           then build_env src !! ("REACT_APP_" +:+ name) else None) = None) as Hb'.
  { case_bool_decide; [by apply Hb|done]. }
  rewrite getEnvVar_unfold, Hb', Hv, Hp.
  repeat split; intros; repeat match goal with H : _ !! _ = _ |- _ => rewrite H end; done.
Qed.

(** X24. The entries of [getEnvList] are non-empty, neither start nor end
    with white space and hold no comma; the list is empty when the variable
    resolves to a boolean or to [undefined]. *)
Theorem getEnvList_entries src name :
  Forall (fun entry => entry ≠ "" ∧ trimmed entry ∧ free_of ","%char entry)
    (getEnvList src name)
  ∧ (∀ b, getEnvVar src name = Some (JBool b) → getEnvList src name = [])
  ∧ (getEnvVar src name = None → getEnvList src name = []).
Proof.
  split; [|split; intros; unfold getEnvList; by repeat case_match].
  unfold getEnvList. destruct (getEnvVar src name) as [[| | |raw| |]|]; try constructor.
  apply Forall_forall. intros e [He (p & -> & Hp)%list_elem_of_fmap]%list_elem_of_filter.
  split; [done|]. split; [apply trim_trimmed|].
  apply trim_free. eapply Forall_forall; [apply split_free|done].
Qed.

(** X25. The helper and the tracker on [RUDDERSTACK_TRACKED_PAGES] of one
    Node process: [getEnvList] gives the tracker's [trackedPages] without
    its empty entries, except that a value that is the text ["true"] or
    ["false"] gives the empty list, where the tracker keeps it as a page. *)
Theorem getEnvList_and_trackedPages penv raw :
  let name := "RUDDERSTACK_TRACKED_PAGES" in
  penv !! name = Some raw →
  penv !! ("REACT_APP_" +:+ name) = None →
  penv !! ("NEXT_PUBLIC_" +:+ name) = None →
  penv !! ("VITE_" +:+ name) = None →
  getEnvList (node penv) name
  = if bool_decide (raw = "true" ∨ raw = "false") then []
    else filter (fun s => s ≠ "") (trackedPages (module_env penv)).
Proof.
  intros name Hraw Hcra Hnext Hvite.
  assert (getEnvVar (node penv) name = Some (parseMaybeBoolean (JString raw))) as H.
  { rewrite getEnvVar_unfold. cbn [node build_env import_meta_env process_env].
    rewrite Hcra, Hnext, Hvite, Hraw. by case_bool_decide. }
  unfold getEnvList. rewrite H. cbn [parseMaybeBoolean].
  destruct (String.eqb_spec raw "true") as [->|Ht]; [done|].
  destruct (String.eqb_spec raw "false") as [->|Hf]; [done|].
  rewrite bool_decide_eq_false_2 by naive_solver.
  cbn [module_env trackedPages]. fold name. rewrite Hraw.
  destruct raw as [|c r]; [done|]. by rewrite trackedPages_of_Some.
Qed.

End Resolver.

Section NoPages.
Context {P : Platform}.

(** X19. With [RUDDERSTACK_TRACKED_PAGES] unset or empty the list is empty,
    no pathname is tracked, and [trackPageView] reports nothing: it returns
    the state unchanged for a URL that parses and throws for one that does
    not. *)
Theorem no_pages_no_views process_env this url source w :
  falsy (process_env !! "RUDDERSTACK_TRACKED_PAGES") = true →
  trackedPages (module_env process_env) = []
  ∧ (∀ pathname, shouldTrack (module_env process_env) pathname = false)
  ∧ trackPageView (module_env process_env) this url source w
    = match URL_pathname url with
      | Some _ => Ok tt w
      | None => Throw TypeError w
      end.
Proof.
  intros Hraw.
  assert (trackedPages (module_env process_env) = []) as Hnil.
  { cbn. unfold trackedPages_of. by rewrite Hraw. }
  assert (∀ pathname, shouldTrack (module_env process_env) pathname = false) as Hno.
  { intros pathname. unfold shouldTrack. by rewrite Hnil. }
  split; [done|]. split; [done|].
  unfold trackPageView. destruct (URL_pathname url) as [p|]; [|done]. by rewrite Hno.
Qed.

End NoPages.

(** ** On sample environments *)

(** The list of the header comment of the tracker. *)
Lemma trackedPages_of_text_witness :
  trackedPages_of (Some "/,/tim-kiem,/xem-truoc,/[slug]") = Cases.documented_pages.
Proof.
  destruct (trackedPages_of_text Cases.documented_pages) as (H & _).
  - discriminate.
  - unfold Cases.documented_pages.
    repeat (apply Forall_cons; split; [|]); [..|apply Forall_nil];
      unfold Str.free_of; apply (bool_decide_unpack _); vm_compute; exact I.
  - intros H. vm_compute in H. discriminate H.
  - exact H.
Defined.

(** No variable at all: the landing page is not reported. *)
Lemma no_pages_no_views_witness :
  @trackPageView Reference.platform (module_env ∅) 0 "https://example.com/" "initial_load"
    home = Ok tt home.
Proof.
  destruct (@no_pages_no_views Reference.platform ∅ 0 "https://example.com/" "initial_load"
              home) as (_ & _ & H); [reflexivity|].
  exact H.
Defined.

(** The inlined value wins over the one of the process, and comes back as a
    boolean. *)
Lemma getEnvVar_inlined_witness :
  EnvUtil.getEnvVar Cases.cra "RUDDERSTACK_LOG" = Some (JBool true).
Proof.
  destruct (getEnvVar_inlined Cases.cra "RUDDERSTACK_LOG") as (H & _);
    [apply (bool_decide_unpack _); vm_compute; exact I|].
  apply (H "true"); [vm_compute; repeat constructor | vm_compute; reflexivity | discriminate].
Defined.

(** A process without variables. *)
Lemma getEnvVar_undefined_witness :
  EnvUtil.getEnvVar (EnvUtil.node ∅) "RUDDERSTACK_KEY" = None.
Proof.
  apply getEnvVar_undefined; [apply (bool_decide_unpack _); vm_compute; exact I|].
  split; [|split; [|split]].
  - intros _. right. reflexivity.
  - intros viteEnv H. discriminate H.
  - intros penv H. injection H as <-. repeat split; apply lookup_empty.
  - intros w H. discriminate H.
Defined.

(** The public name shadows the plain one. *)
Lemma getEnvVar_process_env_witness :
  EnvUtil.getEnvVar (EnvUtil.node Cases.next) "RUDDERSTACK_KEY"
  = Some (JString "public-key").
Proof.
  destruct (getEnvVar_process_env (EnvUtil.node Cases.next) "RUDDERSTACK_KEY" Cases.next)
    as (H & _);
    [apply (bool_decide_unpack _); vm_compute; exact I
    | intros _; vm_compute; reflexivity | reflexivity | reflexivity |].
  apply (H "public-key"). vm_compute. reflexivity.
Defined.

(** Spaces and an empty entry: the helper drops the entry, the tracker
    keeps it. *)
Lemma getEnvList_and_trackedPages_witness :
  EnvUtil.getEnvList (EnvUtil.node Cases.spaced) "RUDDERSTACK_TRACKED_PAGES"
  = ["/"; "/search"; "/[slug]"]
  ∧ trackedPages (module_env Cases.spaced) = ["/"; "/search"; ""; "/[slug]"].
Proof.
  split; [|vm_compute; reflexivity].
  rewrite (getEnvList_and_trackedPages Cases.spaced "/, /search ,,/[slug]");
    [| vm_compute; reflexivity ..].
  vm_compute. reflexivity.
Defined.
